(** * nbodykit.base.catalog: catalogs of lazily evaluated columns

    A shallow embedding of [nbodykit/base/catalog.py]: the column
    registry ([column], [find_columns], [find_column]), the catalog
    classes [CatalogSourceBase] and [CatalogSource], the column accessor
    and [get_catalog_subset], followed by the properties that the
    specification states about them.

    Python objects that are mutated in place (catalogs, the [attrs]
    dictionaries) live in an explicit heap and are named by references;
    every method is a computation in a state-and-exception monad over
    that heap. *)

From Stdlib Require Import ZArith QArith String List Orders Sorted Mergesort OrderedTypeEx.
From stdpp Require Import base option list gmap strings.

Local Open Scope string_scope.
Local Open Scope list_scope.
Local Set Warnings "-register-all".

(** ** Values held by columns *)

(** Python/numpy scalars, the arguments for which [numpy.isscalar] is
    true.  Floats are only ever stored and copied by the catalog code,
    never computed with; they are carried as rationals. *)
Inductive scalar :=
  | SBool (b : bool)
  | SInt (z : Z)
  | SFloat (q : Q).

Inductive dtype := dt_bool | dt_int | dt_float.

(** A numpy array; one list entry per row (the leading dimension). *)
Inductive ndarray :=
  | BoolArray (l : list bool)
  | IntArray (l : list Z)
  | FloatArray (l : list Q).

Module numpy.

Definition dtype_of (a : ndarray) : dtype :=
  match a with
  | BoolArray _ => dt_bool
  | IntArray _ => dt_int
  | FloatArray _ => dt_float
  end.

(** [len(a)] *)
Definition len (a : ndarray) : nat :=
  match a with
  | BoolArray l => length l
  | IntArray l => length l
  | FloatArray l => length l
  end.

(** [index.sum()] of a boolean array: the number of [True] entries. *)
Definition sum (index : list bool) : nat :=
  length (List.filter (fun b => b) index).

(** Rows of [l] kept by a boolean [index]: [l[index]]. *)
Fixpoint take {A} (l : list A) (index : list bool) : list A :=
  match l, index with
  | x :: l', b :: index' =>
      if b then x :: take l' index' else take l' index'
  | _, _ => []
  end.

Definition getitem (a : ndarray) (index : list bool) : ndarray :=
  match a with
  | BoolArray l => BoolArray (take l index)
  | IntArray l => IntArray (take l index)
  | FloatArray l => FloatArray (take l index)
  end.

(** The array holding [n] copies of one scalar. *)
Definition full (n : nat) (v : scalar) : ndarray :=
  match v with
  | SBool b => BoolArray (repeat b n)
  | SInt z => IntArray (repeat z n)
  | SFloat q => FloatArray (repeat q n)
  end.

Definition is_bool (v : scalar) : bool :=
  match v with SBool _ => true | _ => false end.

Definition is_float (v : scalar) : bool :=
  match v with SFloat _ => true | _ => false end.

Definition as_bool (v : scalar) : bool :=
  match v with SBool b => b | _ => false end.

Definition as_int (v : scalar) : Z :=
  match v with
  | SBool b => if b then 1%Z else 0%Z
  | SInt z => z
  | SFloat _ => 0%Z
  end.

Definition as_float (v : scalar) : Q :=
  match v with
  | SFloat q => q
  | other => inject_Z (as_int other)
  end.

(** [numpy.array(l)] for a list of scalars.  The element type is the
    common type of the entries: float if any entry is a float (an empty
    list gives a float array), boolean if all entries are booleans,
    integer otherwise. *)
Definition array (l : list scalar) : ndarray :=
  if existsb is_float l || Nat.eqb (length l) 0 then FloatArray (map as_float l)
  else if forallb is_bool l then BoolArray (map as_bool l)
  else IntArray (map as_int l).

End numpy.

(** ** Lazy arrays *)

(** The task graph of a [dask.array.Array]: either a wrapped concrete
    array or a deferred row selection from another graph.  Building a
    graph never evaluates it. *)
Inductive dask :=
  | from_array (a : ndarray)
  | select (d : dask) (index : list bool).

Module da.

(** [dask.compute] on one graph. *)
Fixpoint evaluate (d : dask) : ndarray :=
  match d with
  | from_array a => a
  | select d' index => numpy.getitem (evaluate d') index
  end.

(** The leading dimension, known without evaluation. *)
Definition len (d : dask) : nat :=
  match d with
  | from_array a => numpy.len a
  | select _ index => numpy.sum index
  end.

End da.

(** Modelled from the spec: [nbodykit.transform.ConstantArray] is imported
    by [catalog.py] but defined in another module.  The specification
    describes it as the constant-array handle of a given length holding
    one scalar. *)
Definition ConstantArray (value : scalar) (size : nat) : dask :=
  from_array (numpy.full size value).

(** ** Exceptions *)

(** One constructor per place where the module raises, plus the errors
    raised by the interpreter and by dask on behalf of the module. *)
Inductive exn :=
  | KeyError_invalid_columns (invalid : list string)
      (* __getitem__: "cannot select subset of columns ..." *)
  | KeyError_undefined_column (sel : string)
      (* __getitem__: "column `%s` is not defined in this source" *)
  | AttributeError_find_column (name cls : string)
      (* find_column: "unable to find column '%s' for '%s'" *)
  | AssertionError_scalar_size
      (* CatalogSource.__setitem__: "size is not implemented!" *)
  | AssertionError_column_size (size : nat)
      (* CatalogSource.__setitem__: "error setting column, ..." *)
  | ValueError_csize
      (* update_csize: "size cannot be NotImplemented ..." *)
  | ValueError_slice_length (got expected : nat)
      (* get_catalog_subset: "slice index has length %d; should be %d" *)
  | ValueError_not_boolean
      (* get_catalog_subset: "index ... must be boolean and array-like" *)
  | TypeError_len
      (* len(parent) when __len__ returns NotImplemented *)
  | TypeError_multiple_values (argument : string)
      (* a keyword of **columns repeats a named parameter *)
  | ColumnError (name : string)
      (* whatever the function of the hard column [name] raises *)
  | TypeError_from_array
      (* dask.array.from_array on something that is not an array *)
  | IndexError_boolean_index (got expected : nat)
      (* dask: a boolean index that does not match the indexed array *)
  | ReferenceError.
      (* a reference to an object that is not on the heap *)

(** The error vocabulary of the specification. *)
Inductive error_kind :=
  | UnknownColumn
  | ColumnNotFound
  | SizeRequired
  | LengthMismatch
  | TypeMismatch
  | OtherError.

Definition kind_of (e : exn) : error_kind :=
  match e with
  | KeyError_invalid_columns _ => UnknownColumn
  | KeyError_undefined_column _ => UnknownColumn
  | AttributeError_find_column _ _ => ColumnNotFound
  | AssertionError_scalar_size => SizeRequired
  | AssertionError_column_size _ => LengthMismatch
  | ValueError_csize => SizeRequired
  | ValueError_slice_length _ _ => LengthMismatch
  | ValueError_not_boolean => TypeMismatch
  | _ => OtherError
  end.

Inductive result (A : Type) :=
  | Ok (x : A)
  | Raise (e : exn).
Arguments Ok {A} x.
Arguments Raise {A} e.

#[global] Instance result_ret : MRet result := fun A x => Ok x.
#[global] Instance result_bind : MBind result := fun A B f m =>
  match m with
  | Ok x => f x
  | Raise e => Raise e
  end.

(** ** Column accessors and assignable values *)

(** Objects are named by their position on the heap. *)
Abbreviation ref := nat.

(** Metadata stored in [attrs] dictionaries. *)
Inductive attr :=
  | AScalar (v : scalar)
  | AString (s : string)
  | AList (l : list attr).

(** An instance of [dask.array.Array].  [ColumnAccessor] is the subclass
    built by [ColumnAccessor.__new__]: the fields of the wrapped array
    together with the owning catalog and a fresh, empty [attrs]. *)
Inductive daskarray :=
  | Array (graph : dask)
  | ColumnAccessor (catalog : ref) (graph : dask) (attrs : gmap string attr).

Definition graph_of (x : daskarray) : dask :=
  match x with
  | Array g => g
  | ColumnAccessor _ g _ => g
  end.

(** [ColumnAccessor.as_daskarray] *)
Definition as_daskarray (x : daskarray) : daskarray := Array (graph_of x).

(** [ColumnAccessor(catalog, daskarray)] *)
Definition new_ColumnAccessor (catalog : ref) (r : daskarray) : daskarray :=
  ColumnAccessor catalog (graph_of r) ∅.

(** What can stand on the right of [source[col] = value]; [VScalar] holds
    the values for which [numpy.isscalar] is true. *)
Inductive value :=
  | VScalar (v : scalar)
  | VArray (a : ndarray)
  | VDask (x : daskarray).

(** [len(value)] *)
Definition len_value (v : value) : result nat :=
  match v with
  | VScalar _ => Raise TypeError_len
  | VArray a => Ok (numpy.len a)
  | VDask x => Ok (da.len (graph_of x))
  end.

(** [x[index]] for a dask array and a concrete boolean index: the shape is
    checked when the graph is built, the rows are selected on evaluation.
    The result is a plain [dask.array.Array], also for an accessor. *)
Definition da_getitem (x : daskarray) (index : list bool) : result daskarray :=
  if Nat.eqb (length index) (da.len (graph_of x))
  then Ok (Array (select (graph_of x) index))
  else Raise (IndexError_boolean_index (length index) (da.len (graph_of x))).

(** ** Catalog objects *)

(** The communicator, used only through its rank and its all-reduce. *)
Record communicator := { rank : nat; allreduce : nat -> nat }.

(** The instance attributes of a catalog.  [_size] and [_attrs] are [None]
    while the attribute has not been assigned; a [_size] of [None] is what
    the [size] property reports as [NotImplemented]. *)
Record instance := Instance {
  _size : option nat;
  _csize : option nat;
  _overrides : gmap string daskarray;
  _attrs : option ref;
  _use_cache : bool;
  comm : communicator
}.

(** A class as [find_columns] and [find_column] see it: its name, the
    members of its [__dict__] and its bases.  A member is a column when
    the [column] decorator has given it a [column_name]; calling it on an
    instance yields an array, or [None] when the call raises. *)
Inductive member :=
  | column (column_name : string) (getter : instance -> option daskarray)
  | plain.

Inductive pyclass :=
  | Class (name : string) (dict : list (string * member)) (bases : list pyclass).

Record catalog := Catalog { class_of : pyclass; self : instance }.

(** ** The heap and the monad of methods *)

Record heap := Heap {
  catalogs : list catalog;
  dicts : list (gmap string attr)
}.

Definition M (A : Type) : Type := heap -> result A * heap.

#[global] Instance M_ret : MRet M := fun A x h => (Ok x, h).
#[global] Instance M_bind : MBind M := fun A B f m h =>
  match m h with
  | (Ok x, h') => f x h'
  | (Raise e, h') => (Raise e, h')
  end.

Definition raise {A} (e : exn) : M A := fun h => (Raise e, h).

Definition lift {A} (r : result A) : M A := fun h => (r, h).

Definition read (r : ref) : M catalog := fun h =>
  match catalogs h !! r with
  | Some c => (Ok c, h)
  | None => (Raise ReferenceError, h)
  end.

Definition write (r : ref) (c : catalog) : M unit := fun h =>
  (Ok tt, Heap (<[r := c]> (catalogs h)) (dicts h)).

Definition new_catalog (c : catalog) : M ref := fun h =>
  (Ok (length (catalogs h)), Heap (catalogs h ++ [c]) (dicts h)).

Definition read_dict (l : ref) : M (gmap string attr) := fun h =>
  match dicts h !! l with
  | Some d => (Ok d, h)
  | None => (Raise ReferenceError, h)
  end.

Definition write_dict (l : ref) (d : gmap string attr) : M unit := fun h =>
  (Ok tt, Heap (catalogs h) (<[l := d]> (dicts h))).

Definition new_dict (d : gmap string attr) : M ref := fun h =>
  (Ok (length (dicts h)), Heap (catalogs h) (dicts h ++ [d])).

(** [for x in l: ...] collecting one result per element *)
Fixpoint for_each {A B} (f : A -> M B) (l : list A) : M (list B) :=
  match l with
  | [] => mret []
  | x :: l' => y ← f x; ys ← for_each f l'; mret (y :: ys)
  end.

(** ** Python containers used by the module *)

(** [set(l)]: the distinct elements of [l]. *)
Definition pyset (l : list string) : list string := remove_dups l.

(** [sorted(l)] on strings, which Python orders by code point. *)
Module StringOrder <: Orders.TotalLeBool.
Definition t := string.
Definition leb (a b : string) : bool := String.leb a b.
Definition leb_total (a b : string) : is_true (leb a b) \/ is_true (leb b a) :=
  String.leb_total a b.
End StringOrder.

Module StringSort := Mergesort.Sort StringOrder.

Definition sorted (l : list string) : list string := StringSort.sort l.

(** A keyword dictionary: the keys are distinct and keep the order in which
    they were first inserted. *)
Definition pydict (V : Type) : Type := list (string * V).

Fixpoint dict_setitem {V} (k : string) (v : V) (d : pydict V) : pydict V :=
  match d with
  | [] => [(k, v)]
  | (k', v') :: d' =>
      if String.eqb k k' then (k, v) :: d' else (k', v') :: dict_setitem k v d'
  end.

(** [{key: f(key) for key in keys}], started from [acc] *)
Fixpoint dict_comprehension {V} (f : string -> M V) (keys : list string)
    (acc : pydict V) : M (pydict V) :=
  match keys with
  | [] => mret acc
  | key :: keys' => v ← f key; dict_comprehension f keys' (dict_setitem key v acc)
  end.

(** [list(d)] for the override dictionary. *)
Definition keys (d : gmap string daskarray) : list string := (map_to_list d).*1.

(** ** The column registry *)

(** The [column_name]s of the members of one class dictionary. *)
Definition column_names (dict : list (string * member)) : list string :=
  flat_map (fun kv => match snd kv with
                      | column column_name _ => [column_name]
                      | plain => []
                      end) dict.

Fixpoint find_columns (cls : pyclass) : list string :=
  match cls with
  | Class _ dict bases =>
      (* search through the class dict for columns *)
      let hardcolumns := column_names dict in
      (* recursively search the base classes, too *)
      let hardcolumns := hardcolumns ++ flat_map find_columns bases in
      sorted (pyset hardcolumns)
  end.

(** The first member of a class dictionary whose [column_name] is [name]. *)
Fixpoint find_member (dict : list (string * member)) (name : string)
    : option (instance -> option daskarray) :=
  match dict with
  | [] => None
  | (_, column column_name getter) :: dict' =>
      if String.eqb column_name name then Some getter else find_member dict' name
  | (_, plain) :: dict' => find_member dict' name
  end.

Fixpoint find_column (cls : pyclass) (name : string)
    : result (instance -> option daskarray) :=
  match cls with
  | Class cname dict bases =>
      (* first search through class *)
      match find_member dict name with
      | Some getter => Ok getter
      | None =>
          (fix search (bases : list pyclass) :=
             match bases with
             | [] => Raise (AttributeError_find_column name cname)
             | base :: bases' =>
                 (* try: return find_column(base, name); except: pass *)
                 match find_column base name with
                 | Ok getter => Ok getter
                 | Raise _ => search bases'
                 end
             end) bases
      end
  end.

(** ** The classes of the module *)

(** A default column: [ConstantArray(value, self.size, chunks=100000)].  The
    length must be a number; with a size that is still [NotImplemented]
    no array can be built and the call fails. *)
Definition constant_column (value : scalar) (self : instance) : option daskarray :=
  match _size self with
  | Some size => Some (Array (ConstantArray value size))
  | None => None
  end.

Definition object_class : pyclass := Class "object" [] [].

Definition CatalogSourceBase_class : pyclass :=
  Class "CatalogSourceBase"
    [("logger", plain); ("make_column", plain); ("__init__", plain);
     ("__iter__", plain); ("__contains__", plain); ("__getitem__", plain);
     ("__setitem__", plain); ("use_cache", plain); ("hardcolumns", plain);
     ("columns", plain); ("attrs", plain); ("get_hardcolumn", plain);
     ("compute", plain); ("save", plain); ("read", plain); ("to_mesh", plain)]
    [object_class].

Definition CatalogSource_class : pyclass :=
  Class "CatalogSource"
    [("logger", plain); ("_from_columns", plain); ("__init__", plain);
     ("__repr__", plain); ("__len__", plain); ("__setitem__", plain);
     ("copy", plain); ("size", plain); ("csize", plain);
     ("Selection", column "Selection" (constant_column (SBool true)));
     ("Weight", column "Weight" (constant_column (SFloat 1)));
     ("Value", column "Value" (constant_column (SFloat 1)));
     ("update_csize", plain)]
    [CatalogSourceBase_class].

(** Attribute assignments on an instance *)
Definition set_overrides (o : gmap string daskarray) (c : catalog) : catalog :=
  Catalog (class_of c)
    (Instance (_size (self c)) (_csize (self c)) o (_attrs (self c))
       (_use_cache (self c)) (comm (self c))).

Definition set_attrs (l : ref) (c : catalog) : catalog :=
  Catalog (class_of c)
    (Instance (_size (self c)) (_csize (self c)) (_overrides (self c)) (Some l)
       (_use_cache (self c)) (comm (self c))).

Definition set_csize (n : nat) (c : catalog) : catalog :=
  Catalog (class_of c)
    (Instance (_size (self c)) (Some n) (_overrides (self c)) (_attrs (self c))
       (_use_cache (self c)) (comm (self c))).

Definition set_comm (k : communicator) (use_cache : bool) (c : catalog) : catalog :=
  Catalog (class_of c)
    (Instance (_size (self c)) (_csize (self c)) (_overrides (self c))
       (_attrs (self c)) use_cache k).

(** ** [CatalogSourceBase] *)

(** The value of [compute]: a tuple of length one is unwrapped. *)
Inductive computed :=
  | One (a : ndarray)
  | Tuple (l : list ndarray).

Module CatalogSourceBase.

(** A [ColumnAccessor] is an instance of [dask.array.Array] as well, so
    the first test of the source answers for it and the accessor is
    kept as it is; [as_daskarray] in the second branch is never applied. *)
Definition make_column (array : value) : result daskarray :=
  match array with
  | VDask x => Ok x
  | VArray a => Ok (Array (from_array a))
  | VScalar _ => Raise TypeError_from_array
  end.

(** [comm], [use_cache] and an empty override dictionary are set. *)
Definition __init__ (r : ref) (k : communicator) (use_cache : bool) : M unit :=
  c ← read r;
  write r (set_overrides ∅ (set_comm k use_cache c)).

Definition __setitem__ (r : ref) (col : string) (v : value) : M unit :=
  c ← read r;
  x ← lift (make_column v);
  write r (set_overrides (<[col := x]> (_overrides (self c))) c).

(** [find_columns(self.__class__)]; the list is kept in [_hardcolumns]
    after the first use, which does not change its value. *)
Definition hardcolumns (c : catalog) : list string :=
  find_columns (class_of c).

Definition columns (c : catalog) : list string :=
  let hcolumns := hardcolumns c in
  let overrides := keys (_overrides (self c)) in
  sorted (pyset (hcolumns ++ overrides)).

Definition __iter__ (c : catalog) : list string := columns c.

Definition __contains__ (c : catalog) (col : string) : bool :=
  bool_decide (col ∈ columns c).

(** The [attrs] property: the dictionary is created on first access. *)
Definition attrs (r : ref) : M ref :=
  c ← read r;
  match _attrs (self c) with
  | Some l => mret l
  | None => l ← new_dict ∅; _ ← write r (set_attrs l c); mret l
  end.

(** [toret.attrs.update(parent.attrs)]: both properties are read, the
    receiver first, then the entries of the argument are written into
    the receiver's dictionary. *)
Definition attrs_update (toret parent : ref) : M unit :=
  mine ← attrs toret;
  theirs ← attrs parent;
  d ← read_dict mine;
  u ← read_dict theirs;
  write_dict mine (u ∪ d).

Definition get_hardcolumn (c : catalog) (col : string) : result daskarray :=
  getter ← find_column (class_of c) col;
  match getter (self c) with
  | Some x => Ok x
  | None => Raise (ColumnError col)
  end.

(** [self[sel]] for a string [sel].  The resolved objects of this model
    are arrays, which are not callable. *)
Definition __getitem__ (r : ref) (sel : string) : M daskarray :=
  c ← read r;
  x ← match _overrides (self c) !! sel with
      | Some x => mret x
      | None =>
          if bool_decide (sel ∈ hardcolumns c)
          then lift (get_hardcolumn c sel)
          else raise (KeyError_undefined_column sel)
      end;
  mret (new_ColumnAccessor r x).

Definition dask_compute (args : list daskarray) : list ndarray :=
  map (fun x => da.evaluate (graph_of x)) args.

(** The cache only changes where the values come from. *)
Definition compute (r : ref) (args : list daskarray) : M computed :=
  c ← read r;
  let toret :=
    if _use_cache (self c) then dask_compute args else dask_compute args in
  mret (match toret with
        | [a] => One a
        | _ => Tuple toret
        end).

End CatalogSourceBase.

(** [ColumnAccessor.compute] *)
Definition ColumnAccessor_compute (x : daskarray) : M computed :=
  match x with
  | ColumnAccessor catalog _ _ => CatalogSourceBase.compute catalog [x]
  | Array _ => mret (Tuple (CatalogSourceBase.dask_compute [x]))
  end.

(** ** [CatalogSource] *)

Module CatalogSource.

(** The [size] property; [None] stands for [NotImplemented]. *)
Definition size (c : catalog) : option nat := _size (self c).

(** [len(self)]: the interpreter rejects a length that is not a number. *)
Definition __len__ (c : catalog) : result nat :=
  match size c with
  | Some n => Ok n
  | None => Raise TypeError_len
  end.

Definition update_csize (r : ref) : M unit :=
  c ← read r;
  match size c with
  | None => raise ValueError_csize
  | Some n =>
      (* sum size across all ranks *)
      write r (set_csize (allreduce (comm (self c)) n) c)
  end.

Definition __init__ (r : ref) (k : communicator) (use_cache : bool) : M unit :=
  (* init the base class *)
  _ ← CatalogSourceBase.__init__ r k use_cache;
  (* if size is already computed update csize *)
  c ← read r;
  match size c with
  | Some _ => update_csize r
  | None => mret tt
  end.

Definition __setitem__ (r : ref) (col : string) (v : value) : M unit :=
  c ← read r;
  (* handle scalar values *)
  v ← match v with
      | VScalar s =>
          match size c with
          | Some n => mret (VDask (Array (ConstantArray s n)))
          | None => raise AssertionError_scalar_size
          end
      | _ => mret v
      end;
  (* check the correct size, if we know the size *)
  _ ← match size c with
      | Some n =>
          l ← lift (len_value v);
          if Nat.eqb l n then mret tt else raise (AssertionError_column_size n)
      | None => mret tt
      end;
  (* call the base __setitem__ *)
  CatalogSourceBase.__setitem__ r col v.

(** The named parameters of [_from_columns]; a column of one of these
    names cannot be passed through [**columns]. *)
Definition parameters : list string := ["kls"; "size"; "comm"; "use_cache"].

Definition _from_columns (size : option nat) (k : communicator)
    (use_cache : bool) (columns : pydict value) : M ref :=
  match List.find (fun name => bool_decide (name ∈ parameters)) columns.*1 with
  | Some name => raise (TypeError_multiple_values name)
  | None =>
      r ← new_catalog (Catalog CatalogSource_class (Instance size None ∅ None false k));
      _ ← __init__ r k use_cache;
      (* store the column arrays *)
      _ ← for_each (fun nv => __setitem__ r (fst nv) (snd nv)) columns;
      mret r
  end.

(** What [copy] hands back: a catalog, or an exception object that is
    returned, not raised. *)
Inductive copied :=
  | copy_of (r : ref)
  | ValueError_object.
      (* ValueError("cannot copy a CatalogSource that does not have
         `size` implemented") *)

Definition copy (r : ref) : M copied :=
  c ← read r;
  match size c with
  | None => mret ValueError_object
  | Some _ =>
      data ← dict_comprehension
                (fun col => x ← CatalogSourceBase.__getitem__ r col; mret (VDask x))
                (CatalogSourceBase.columns c) [];
      toret ← _from_columns (size c) (comm (self c)) (_use_cache (self c)) data;
      _ ← CatalogSourceBase.attrs_update toret r;
      mret (copy_of toret)
  end.

End CatalogSource.

(** ** Derived catalogs *)

(** The branch of [CatalogSourceBase.__getitem__] for a list of column
    names: a catalog holding only the selected columns. *)
Definition select_columns (r : ref) (sel : list string) : M ref :=
  c ← read r;
  let invalid :=
    List.filter (fun col => negb (bool_decide (col ∈ pyset (CatalogSourceBase.columns c))))
      (pyset sel) in
  if negb (Nat.eqb (length invalid) 0) then raise (KeyError_invalid_columns invalid)
  else
    (* return a CatalogSource only holding the selected columns *)
    subset_data ← dict_comprehension
                     (fun col => x ← CatalogSourceBase.__getitem__ r col; mret (VDask x))
                     sel [];
    toret ← CatalogSource._from_columns (CatalogSource.size c) (comm (self c))
               (_use_cache (self c)) subset_data;
    _ ← CatalogSourceBase.attrs_update toret r;
    mret toret.

(** The index handed to [get_catalog_subset]: a dask array, a list, or a
    numpy array. *)
Inductive index_arg :=
  | IDask (x : daskarray)
  | IList (l : list scalar)
  | IArray (a : ndarray).

Definition get_catalog_subset (parent : ref) (index : index_arg) : M ref :=
  (* compute the index slice if needed and get the size *)
  index ← match index with
          | IDask x =>
              v ← CatalogSourceBase.compute parent [x];
              match v with
              | One a => mret a
              | Tuple _ => raise TypeError_len
              end
          | IList l => mret (numpy.array l)
          | IArray a => mret a
          end;
  c ← read parent;
  (* verify the index is a boolean array *)
  n ← lift (CatalogSource.__len__ c);
  if negb (Nat.eqb (numpy.len index) n)
  then raise (ValueError_slice_length (numpy.len index) n)
  else
    match index with
    | BoolArray mask =>
        (* new size is just number of True entries *)
        let size := numpy.sum mask in
        (* initialize subset Source of right size *)
        subset_data ← dict_comprehension
                         (fun col =>
                            x ← CatalogSourceBase.__getitem__ parent col;
                            y ← lift (da_getitem x mask);
                            mret (VDask y))
                         (CatalogSourceBase.__iter__ c) [];
        toret ← CatalogSource._from_columns (Some size) (comm (self c))
                   (_use_cache (self c)) subset_data;
        (* and the meta-data *)
        _ ← CatalogSourceBase.attrs_update toret parent;
        mret toret
    | _ => raise ValueError_not_boolean
    end.

(** ** Statements about a catalog: auxiliary definitions *)

(** [cat.attrs[...] = ...], [del cat.attrs[...]], [cat.attrs.update(...)]:
    any in-place change [f] of the dictionary behind the [attrs] property. *)
Definition attrs_modify (r : ref) (f : gmap string attr -> gmap string attr) : M unit :=
  l ← CatalogSourceBase.attrs r;
  d ← read_dict l;
  write_dict l (f d).

(** The content of the [attrs] dictionary of the catalog at [r], if the
    dictionary has been created. *)
Definition attrs_of (h : heap) (r : ref) : option (gmap string attr) :=
  c ← catalogs h !! r;
  l ← _attrs (self c);
  dicts h !! l.

(** The override dictionary of the catalog at [r]. *)
Definition overrides_of (h : heap) (r : ref) : option (gmap string daskarray) :=
  c ← catalogs h !! r;
  Some (_overrides (self c)).

(** The [attrs] reference of a catalog points into the heap. *)
Definition attrs_allocated (h : heap) (c : catalog) : Prop :=
  match _attrs (self c) with
  | Some l => is_Some (dicts h !! l)
  | None => True
  end.

(** The concrete array that an assigned value stands for on a catalog of
    the given size. *)
Definition materialize (size : option nat) (v : value) : ndarray :=
  match v with
  | VScalar s => numpy.full (default 0 size) s
  | VArray a => a
  | VDask x => da.evaluate (graph_of x)
  end.

(** The array that [CatalogSource.__setitem__] stores for [v], or the
    exception it raises before storing anything. *)
Definition stored_column (c : catalog) (v : value) : result daskarray :=
  v' ← match v with
       | VScalar s =>
           match CatalogSource.size c with
           | Some n => Ok (VDask (Array (ConstantArray s n)))
           | None => Raise AssertionError_scalar_size
           end
       | _ => Ok v
       end;
  _ ← match CatalogSource.size c with
      | Some n =>
          l ← len_value v';
          if Nat.eqb l n then Ok tt else Raise (AssertionError_column_size n)
      | None => Ok tt
      end;
  CatalogSourceBase.make_column v'.

(** The outcome of [self[sel]] on the catalog [c] stored at [r]. *)
Definition resolve (r : ref) (c : catalog) (sel : string) : result daskarray :=
  x ← match _overrides (self c) !! sel with
      | Some x => Ok x
      | None =>
          if bool_decide (sel ∈ CatalogSourceBase.hardcolumns c)
          then CatalogSourceBase.get_hardcolumn c sel
          else Raise (KeyError_undefined_column sel)
      end;
  Ok (new_ColumnAccessor r x).

(** Every visible column resolves to an array with [n] rows (the reference
    handed to the accessor plays no part in this). *)
Definition consistent (c : catalog) (n : nat) : Prop :=
  ∀ col, col ∈ CatalogSourceBase.columns c →
    ∃ x, resolve 0 c col = Ok x ∧ da.len (graph_of x) = n.

(** No visible column carries the name of a parameter of [_from_columns]. *)
Definition passable (c : catalog) : Prop :=
  ∀ col, col ∈ CatalogSourceBase.columns c → col ∉ CatalogSource.parameters.

(** The index of [get_catalog_subset] once computed. *)
Definition force (index : index_arg) : ndarray :=
  match index with
  | IDask x => da.evaluate (graph_of x)
  | IList l => numpy.array l
  | IArray a => a
  end.

(** A class, or one of its ancestors, has a member marked as the column
    [col]. *)
Inductive declares : pyclass -> string -> Prop :=
  | declares_here name dict bases key col getter :
      (key, column col getter) ∈ dict ->
      declares (Class name dict bases) col
  | declares_base name dict bases base col :
      base ∈ bases ->
      declares base col ->
      declares (Class name dict bases) col.

(** ** The loops of the module as functions

    Reading a column leaves the heap as it is, and an assignment changes
    one catalog only.  The loops over columns can therefore be followed on
    the catalog alone; the lemmas below relate these functions to the
    monadic code. *)

(** [{key: f(key) for key in keys}] for an [f] that does not touch the
    heap: the dictionary, or the first exception. *)
Fixpoint comprehend {V} (f : string -> result V) (keys : list string)
    (acc : pydict V) : result (pydict V) :=
  match keys with
  | [] => Ok acc
  | key :: keys' =>
      match f key with
      | Ok v => comprehend f keys' (dict_setitem key v acc)
      | Raise e => Raise e
      end
  end.

(** [for name in columns: self[name] = columns[name]] on the catalog [c]:
    the outcome of the loop and the catalog it leaves behind. *)
Fixpoint store_all (c : catalog) (cols : pydict value) : result unit * catalog :=
  match cols with
  | [] => (Ok tt, c)
  | (name, v) :: cols' =>
      match stored_column c v with
      | Ok x => store_all (set_overrides (<[name := x]> (_overrides (self c))) c) cols'
      | Raise e => (Raise e, c)
      end
  end.

(** The catalog that [_from_columns] has built when [__init__] returns. *)
Definition fresh (size : option nat) (k : communicator) (use_cache : bool) : catalog :=
  Catalog CatalogSource_class
    (Instance size (allreduce k <$> size) ∅ None use_cache k).

(** The common end of every derived view: build the catalog from the
    columns, copy the attributes of the parent, return it. *)
Definition derive (parent : ref) (size : option nat) (k : communicator) (use_cache : bool)
    (data : pydict value) : M ref :=
  toret ← CatalogSource._from_columns size k use_cache data;
  _ ← CatalogSourceBase.attrs_update toret parent;
  mret toret.

(** [self[col]] as a keyword value. *)
Definition whole_column (parent : ref) (c : catalog) (col : string) : result value :=
  match resolve parent c col with
  | Ok x => Ok (VDask x)
  | Raise e => Raise e
  end.

(** [parent[col][index]] as a keyword value. *)
Definition subset_column (parent : ref) (c : catalog) (mask : list bool) (col : string)
    : result value :=
  match resolve parent c col with
  | Ok x =>
      match da_getitem x mask with
      | Ok y => Ok (VDask y)
      | Raise e => Raise e
      end
  | Raise e => Raise e
  end.

(** Values that [_from_columns] can store on a catalog of [n] rows. *)
Definition rows (n : nat) (v : value) : Prop :=
  ∃ x, v = VDask x ∧ da.len (graph_of x) = n.

(** Errors that are neither a length mismatch nor a type mismatch. *)
Definition unrelated (e : exn) : Prop :=
  kind_of e ≠ LengthMismatch ∧ kind_of e ≠ TypeMismatch.

(** What holds of a catalog [toret] that was built as [built] and then
    given the attributes of [parent]: the two catalogs hold different
    dictionaries with the same content. *)
Definition derived (h : heap) (parent : ref) (c : catalog) (built : catalog)
    (h2 : heap) (toret : ref) : Prop :=
  ∃ l1 lp d,
    toret ≠ parent
    ∧ catalogs h2 !! toret = Some (set_attrs l1 built)
    ∧ catalogs h2 !! parent = Some (set_attrs lp c)
    ∧ l1 ≠ lp
    ∧ dicts h2 !! l1 = Some d
    ∧ dicts h2 !! lp = Some d
    ∧ d = default ∅ (attrs_of h parent).

(** The catalog at [toret] carries the attributes [d] of [parent] in a
    dictionary of its own: both read [d], and any change made through one
    of the two is seen through that one only. *)
Definition independent_copy (h : heap) (parent toret : ref) (d : gmap string attr) : Prop :=
  attrs_of h toret = Some d
  ∧ attrs_of h parent = Some d
  ∧ (∀ f, ∃ h', attrs_modify toret f h = (Ok tt, h')
                ∧ attrs_of h' toret = Some (f d)
                ∧ attrs_of h' parent = Some d)
  ∧ (∀ f, ∃ h', attrs_modify parent f h = (Ok tt, h')
                ∧ attrs_of h' parent = Some (f d)
                ∧ attrs_of h' toret = Some d).

(** ** Concrete catalogs *)

Definition world : communicator := {| rank := 0; allreduce := fun n => n |}.

(** A catalog of the class [CatalogSource] that has not read [attrs] yet. *)
Definition plain_catalog (size : option nat) (overrides : gmap string daskarray) : catalog :=
  Catalog CatalogSource_class (Instance size size overrides None false world).

Definition one_catalog (size : option nat) (overrides : gmap string daskarray) : heap :=
  Heap [plain_catalog size overrides] [].

(** A catalog of two rows receives a column called "size" and is then
    reduced with an all-[False] index. *)
Definition column_called_size : M ref :=
  r ← CatalogSource._from_columns (Some 2) world false [];
  _ ← CatalogSource.__setitem__ r "size" (VArray (IntArray [1; 2]%Z));
  get_catalog_subset r (IArray (BoolArray [false; false])).

(** A subclass with one hard column of its own, whose function raises (the
    file behind it cannot be read). *)
Definition FileCatalog_class : pyclass :=
  Class "FileCatalog" [("Position", column "Position" (fun _ => None))]
    [CatalogSource_class].

Definition file_catalog : heap :=
  Heap [Catalog FileCatalog_class (Instance (Some 3) (Some 3) ∅ None false world)] [].

(** Four rows, one column of its own, and a box size among the attributes. *)
Definition survey : heap :=
  Heap [Catalog CatalogSource_class
          (Instance (Some 4) (Some 4)
             {[ "Mass" := Array (from_array (IntArray [10; 20; 30; 40]%Z)) ]}
             (Some 0) false world)]
       [ {[ "BoxSize" := AScalar (SInt 100) ]} ].


(** ** Further methods: a wider set of exceptions *)

(** The exceptions of the methods below, next to those met so far. *)
Inductive exception :=
  | Earlier (e : exn)
  | KeyError_list_of_integers
      (* __getitem__: "array like indexing via a list should be a list of
         integers" *)
  | ValueError_selection_size
      (* __getitem__: "cannot perform selection due to NotImplemented size" *)
  | KeyError_unsupported_index
      (* __getitem__: "strings and boolean arrays are the only supported
         indexing methods" *)
  | IndexError_out_of_bounds (i : Z) (size : nat)
      (* numpy: an integer index outside of the array *)
  | ValueError_slice_step
      (* a slice whose step is zero *)
  | ValueError_missing_columns (missing : list string)
      (* read: "source does not contain columns: ..." *)
  | ValueError_mesh_column (col : string)
      (* to_mesh: "column '%s' missing; cannot create mesh" *)
  | ValueError_window
      (* to_mesh: "valid window methods: ..." *)
  | ValueError_BoxSize
      (* to_mesh: 'BoxSize' neither supplied nor in attrs *)
  | ValueError_Nmesh.
      (* to_mesh: 'Nmesh' neither supplied nor in attrs *)

Inductive outcome (A : Type) :=
  | Returned (x : A)
  | Thrown (e : exception).
Arguments Returned {A} x.
Arguments Thrown {A} e.

Definition X (A : Type) : Type := heap -> outcome A * heap.

#[global] Instance X_ret : MRet X := fun A x h => (Returned x, h).
#[global] Instance X_bind : MBind X := fun A B f m h =>
  match m h with
  | (Returned x, h') => f x h'
  | (Thrown e, h') => (Thrown e, h')
  end.

Definition throw {A} (e : exception) : X A := fun h => (Thrown e, h).

(** A method of the first part, run among the further ones. *)
Definition earlier {A} (m : M A) : X A := fun h =>
  match m h with
  | (Ok x, h') => (Returned x, h')
  | (Raise e, h') => (Thrown (Earlier e), h')
  end.

Fixpoint collect {A B} (f : A -> X B) (l : list A) : X (list B) :=
  match l with
  | [] => mret []
  | x :: l' => y ← f x; ys ← collect f l'; mret (y :: ys)
  end.

(** ** [CatalogSourceBase.read] *)

Definition CatalogSourceBase_read (r : ref) (columns : list string) : X (list daskarray) :=
  c ← earlier (read r);
  let missing :=
    List.filter (fun col => negb (bool_decide (col ∈ pyset (CatalogSourceBase.columns c))))
      (pyset columns) in
  if Nat.ltb 0 (length missing) then throw (ValueError_missing_columns missing)
  else collect (fun col => earlier (CatalogSourceBase.__getitem__ r col)) columns.

(** ** [CatalogSourceBase.__getitem__]: every kind of selector *)

(** An entry of a list used as a selector. *)
Inductive entry :=
  | EString (s : string)
  | ENumber (v : scalar).

Inductive selector :=
  | by_name (sel : string)
  | by_list (sel : list entry)
  | by_slice (start stop step : option Z)
  | by_array (sel : ndarray)
  | by_dask (sel : daskarray)
  | by_scalar (sel : scalar).

(** What [self[sel]] gives: a column or a catalog. *)
Inductive selected :=
  | a_column (x : daskarray)
  | a_catalog (r : ref).

Definition is_string (e : entry) : bool :=
  match e with EString _ => true | ENumber _ => false end.

Definition name_of (e : entry) : string :=
  match e with EString s => s | ENumber _ => "" end.

(** The integers that numpy stores in its default integer type, of 64
    bits. *)
Definition int64 (i : Z) : bool := (- 2 ^ 63 <=? i)%Z && (i <? 2 ^ 63)%Z.

(** [numpy.array(sel).dtype == numpy.integer] for a list with an entry that
    is not a string; [numpy.integer] stands for the default integer type
    in this comparison.  One string among the entries makes the array one
    of strings; numbers make an array of the default integer type when
    none is a float, not all are booleans and every one fits in 64 bits
    (larger ones give an unsigned or an object array). *)
Definition integer_list (sel : list entry) : option (list Z) :=
  if existsb is_string sel then None
  else
    match numpy.array (omap (fun e => match e with ENumber v => Some v | _ => None end) sel) with
    | IntArray l => if forallb int64 l then Some l else None
    | _ => None
    end.

(** The position that numpy gives to an integer index of an array of
    [size] entries: negative indices count from the end. *)
Definition position (size : nat) (i : Z) : option nat :=
  if (0 <=? i)%Z && (i <? Z.of_nat size)%Z then Some (Z.to_nat i)
  else if (- Z.of_nat size <=? i)%Z && (i <? 0)%Z then Some (Z.to_nat (i + Z.of_nat size))
  else None.

(** [index[sel] = True] for a list of integers *)
Fixpoint set_true (index : list bool) (sel : list Z) : outcome (list bool) :=
  match sel with
  | [] => Returned index
  | i :: sel' =>
      match position (length index) i with
      | Some k => set_true (<[k := true]> index) sel'
      | None => Thrown (IndexError_out_of_bounds i (length index))
      end
  end.

(** [slice(start, stop, step).indices(length)] *)
Definition slice_indices (start stop step : option Z) (length : Z) : outcome (Z * Z * Z) :=
  let step := default 1%Z step in
  if (step =? 0)%Z then Thrown ValueError_slice_step
  else
    let lower := if (step <? 0)%Z then (-1)%Z else 0%Z in
    let upper := if (step <? 0)%Z then (length - 1)%Z else length in
    let clip (i : Z) :=
      if (i <? 0)%Z then Z.max (i + length) lower else Z.min i upper in
    let start :=
      match start with
      | None => if (step <? 0)%Z then upper else lower
      | Some i => clip i
      end in
    let stop :=
      match stop with
      | None => if (step <? 0)%Z then lower else upper
      | Some i => clip i
      end in
    Returned (start, stop, step).

(** [len(range(start, stop, step))] *)
Definition range_length (start stop step : Z) : nat :=
  if (0 <? step)%Z && (start <? stop)%Z then Z.to_nat ((stop - start - 1) / step + 1)
  else if (step <? 0)%Z && (stop <? start)%Z then Z.to_nat ((start - stop - 1) / (- step) + 1)
  else 0.

(** [list(range(start, stop, step))] *)
Definition range (start stop step : Z) : list Z :=
  map (fun k => (start + Z.of_nat k * step)%Z) (seq 0 (range_length start stop step)).

(** [index[sel] = True] for a slice: the positions of the slice, all of
    which lie inside the array. *)
Definition set_slice (index : list bool) (start stop step : option Z) : outcome (list bool) :=
  match slice_indices start stop step (Z.of_nat (length index)) with
  | Returned (start, stop, step) =>
      Returned (foldl (fun index i => <[Z.to_nat i := true]> index) index (range start stop step))
  | Thrown e => Thrown e
  end.

Definition lift_outcome {A} (o : outcome A) : X A := fun h => (o, h).

Definition CatalogSourceBase_getitem (r : ref) (sel : selector) : X selected :=
  match sel with
  | by_name sel =>
      (* get the right column *)
      x ← earlier (CatalogSourceBase.__getitem__ r sel); mret (a_column x)
  | by_list sel =>
      (* select a subset of list of string column names *)
      if forallb is_string sel
      then toret ← earlier (select_columns r (map name_of sel)); mret (a_catalog toret)
      else
        (* list must be all integers *)
        match integer_list sel with
        | None => throw KeyError_list_of_integers
        | Some sel =>
            c ← earlier (read r);
            (* size must be implemented *)
            match CatalogSource.size c with
            | None => throw ValueError_selection_size
            | Some size =>
                (* convert into slice into boolean array *)
                index ← lift_outcome (set_true (repeat false size) sel);
                toret ← earlier (get_catalog_subset r (IArray (BoolArray index)));
                mret (a_catalog toret)
            end
        end
  | by_slice start stop step =>
      c ← earlier (read r);
      match CatalogSource.size c with
      | None => throw ValueError_selection_size
      | Some size =>
          index ← lift_outcome (set_slice (repeat false size) start stop step);
          toret ← earlier (get_catalog_subset r (IArray (BoolArray index)));
          mret (a_catalog toret)
      end
  | by_array sel =>
      toret ← earlier (get_catalog_subset r (IArray sel)); mret (a_catalog toret)
  | by_dask sel =>
      toret ← earlier (get_catalog_subset r (IDask sel)); mret (a_catalog toret)
  | by_scalar _ => throw KeyError_unsupported_index
  end.

(** ** [CatalogSourceBase.to_mesh] *)

(** Modelled from the spec: [CatalogMesh] (nbodykit.base.catalogmesh) is
    imported by [to_mesh] but defined in another module.  The specification
    describes the result as an opaque mesh-view object parameterized by the
    values handed to it; the three attributes set by [to_mesh] afterwards
    are part of the record. *)
Record CatalogMesh := Mesh {
  mesh_source : ref;
  mesh_Nmesh : attr;
  mesh_BoxSize : attr;
  mesh_dtype : string;
  mesh_weight : string;
  mesh_selection : string;
  mesh_value : string;
  mesh_position : string;
  mesh_interlaced : bool;
  mesh_compensated : bool;
  mesh_window : string
}.

(** The keyword arguments of [to_mesh], with their defaults. *)
Record mesh_arguments := {
  kw_Nmesh : option attr;
  kw_BoxSize : option attr;
  kw_dtype : string;
  kw_interlaced : bool;
  kw_compensated : bool;
  kw_window : string;
  kw_weight : string;
  kw_value : string;
  kw_selection : string;
  kw_position : string
}.

Definition mesh_defaults : mesh_arguments :=
  {| kw_Nmesh := None; kw_BoxSize := None; kw_dtype := "f4"; kw_interlaced := false;
     kw_compensated := false; kw_window := "cic"; kw_weight := "Weight"; kw_value := "Value";
     kw_selection := "Selection"; kw_position := "Position" |}.

(** [self.attrs[key]], with the [KeyError] of a missing key turned into
    the given exception. *)
Definition attrs_item (r : ref) (key : string) (missing : exception) : X attr :=
  l ← earlier (CatalogSourceBase.attrs r);
  d ← earlier (read_dict l);
  match d !! key with
  | Some v => mret v
  | None => throw missing
  end.

(** [methods] stands for [pmesh.window.methods], the names of the known
    windows. *)
Definition CatalogSourceBase_to_mesh (methods : list string) (r : ref) (args : mesh_arguments)
    : X CatalogMesh :=
  (* make sure all of the columns exist *)
  _ ← collect (fun col =>
                 c ← earlier (read r);
                 if CatalogSourceBase.__contains__ c col then mret tt
                 else throw (ValueError_mesh_column col))
              [kw_weight args; kw_selection args];
  if negb (bool_decide (kw_window args ∈ methods)) then throw ValueError_window
  else
    BoxSize ← match kw_BoxSize args with
              | Some b => mret b
              | None => attrs_item r "BoxSize" ValueError_BoxSize
              end;
    Nmesh ← match kw_Nmesh args with
            | Some n => mret n
            | None => attrs_item r "Nmesh" ValueError_Nmesh
            end;
    mret (Mesh r Nmesh BoxSize (kw_dtype args) (kw_weight args) (kw_selection args) (kw_value args)
            (kw_position args) (kw_interlaced args) (kw_compensated args) (kw_window args)).

(** ** Statements about the further methods: auxiliary definitions *)

(** Every stored column has [n] rows. *)
Definition sized (c : catalog) (n : nat) : Prop :=
  ∀ name x, _overrides (self c) !! name = Some x -> da.len (graph_of x) = n.

(** An array or a dask array: a value with a length. *)
Definition nonscalar (v : value) : Prop :=
  match v with VScalar _ => False | _ => True end.

(** The columns that [CatalogSource] declares. *)
Definition default_columns : list string := ["Selection"; "Value"; "Weight"].

(** The rows of a mask that are set. *)
Definition rows_set (mask : list bool) : list nat :=
  List.filter (fun k => bool_decide (mask !! k = Some true)) (seq 0 (length mask)).

(** [set(columns) - set(self.columns)] *)
Definition missing_columns (c : catalog) (columns : list string) : list string :=
  List.filter (fun col => negb (bool_decide (col ∈ pyset (CatalogSourceBase.columns c))))
    (pyset columns).

(** The weight and the selection column named by the arguments exist. *)
Definition checked (c : catalog) (args : mesh_arguments) : Prop :=
  kw_weight args ∈ CatalogSourceBase.columns c
  ∧ kw_selection args ∈ CatalogSourceBase.columns c.

(** The mesh for these arguments, once [Nmesh] and [BoxSize] are settled. *)
Definition mesh_of (r : ref) (args : mesh_arguments) (n b : attr) : CatalogMesh :=
  Mesh r n b (kw_dtype args) (kw_weight args) (kw_selection args) (kw_value args)
    (kw_position args) (kw_interlaced args) (kw_compensated args) (kw_window args).

(** An argument as given, or else the entry of [attrs]. *)
Definition supplied (given : option attr) (attrs : gmap string attr) (key : string)
    : option attr :=
  match given with
  | Some v => Some v
  | None => attrs !! key
  end.

(** * nbodykit.extensionpoints: extension points and their plugins

    The registries are module-level [argparse.Namespace] objects that the
    metaclass [PluginMount] fills while plugin classes are defined; they
    are the state of this part.  The schema of a plugin and its
    constructor come from [nbodykit.utils.config] and from the plugin
    itself: they are taken as given, see [external]. *)

Module extensionpoints.

(** The registries [algorithms], [datasources], [painters] and
    [transfers]. *)
Inductive namespace := algorithms | datasources | painters | transfers.

#[global] Instance namespace_eq_dec : EqDecision namespace.
Proof. solve_decision. Defined.

(** A value parsed from a YAML configuration; the keys of a mapping are
    strings. *)
Inductive yaml :=
  | YNone
  | YScalar (v : scalar)
  | YStr (s : string)
  | YList (l : list yaml)
  | YDict (d : list (string * yaml)).

Inductive error :=
  | NotImplementedError
      (* PluginInterface.register *)
  | RuntimeError_plugin_name
      (* "Plugin class must carry a 'plugin_name'" *)
  | ValueError_init (name : string)
      (* "please define an __init__ method for '%s'" *)
  | ValueError_plugin (plugin_name : yaml)
      (* "'%s' does not match the names of any loaded plugins" *)
  | TypeError_unhashable
      (* a list or a dict looked up in a Namespace *)
  | TypeError_attribute_name
      (* getattr with a name that is not a string *)
  | TypeError_keyword (arg : string)
      (* create() got multiple values for argument '%s' *)
  | AttributeError_namespace (name : string)
      (* 'Namespace' object has no attribute '%s' *)
  | ValueError_help (name : string)
      (* "'%s' is not a valid Plugin name" *)
  | Exception_
      (* raise Exception *)
  | ValueError_parse (parsed : yaml) (e : error)
      (* "failure to parse plugin with argument: %s; %s" *)
  | Error (tag : string).
      (* an exception, derived from Exception, raised by the code of a
         plugin: its register, its constructor, a cast of its schema *)

Inductive answer (A : Type) :=
  | Return (x : A)
  | Fail (e : error).
Arguments Return {A} x.
Arguments Fail {A} e.

#[global] Instance answer_ret : MRet answer := fun A x => Return x.
#[global] Instance answer_bind : MBind answer := fun A B f m =>
  match m with
  | Return x => f x
  | Fail e => Fail e
  end.

(** A class created by the metaclass, as the module looks at it: its name
    and the names of its bases, and what the attribute lookups of the
    module find.  [plugin_name] is [None] when [hasattr(cls, 'plugin_name')]
    is false; [registry] is the Namespace of the extension point the class
    belongs to; [defines_init] tells whether [cls.__init__] is another
    function than [object.__init__]; [register] is what a call of the
    class method of this name does when the class or a base below
    [PluginInterface] defines one.  Such a method declares the arguments
    of the plugin on the schema of the class, which is not part of the
    class as seen here, so that only its raising matters. *)
Record klass := Klass {
  __name__ : string;
  __bases__ : list string;
  plugin_name : option string;
  registry : namespace;
  defines_init : bool;
  register : option (answer unit)
}.

(** What comes from outside of the module: the objects that the
    constructors of the plugins build, [call klass kwargs] for
    the call of [klass] with the keywords [kwargs], [schema klass k] for the cast of the argument [k]
    when [k in klass.schema], [set_string] for the assignment of the
    attribute [string] and [schema_help klass] for
    [klass.schema.format_help()]. *)
Record external := External {
  object : Type;
  call : klass -> pydict yaml -> answer object;
  schema : klass -> string -> option (yaml -> answer yaml);
  set_string : object -> object;
  schema_help : klass -> string
}.

(** The state: the attributes of each of the four Namespaces, in the order
    in which they were set. *)
Definition registries : Type := namespace -> pydict klass.

(** [d[k]] and [d.get(k)] *)
Fixpoint dict_get {V} (k : string) (d : pydict V) : option V :=
  match d with
  | [] => None
  | (k', v) :: d' => if String.eqb k k' then Some v else dict_get k d'
  end.

(** [d.pop(k)]: the dictionary without the key *)
Fixpoint dict_pop {V} (k : string) (d : pydict V) : pydict V :=
  match d with
  | [] => []
  | (k', v) :: d' => if String.eqb k k' then d' else (k', v) :: dict_pop k d'
  end.

(** [key in registry], by [Namespace.__contains__]: the key is looked up
    in the dictionary of the Namespace, which hashes it. *)
Definition contains (registry : pydict klass) (key : yaml) : answer bool :=
  match key with
  | YStr name => Return (bool_decide (is_Some (dict_get name registry)))
  | YList _ | YDict _ => Fail TypeError_unhashable
  | YNone | YScalar _ => Return false
  end.

(** [getattr(registry, name)] *)
Definition getattr (registry : pydict klass) (name : yaml) : answer klass :=
  match name with
  | YStr name =>
      match dict_get name registry with
      | Some cls => Return cls
      | None => Fail (AttributeError_namespace name)
      end
  | _ => Fail TypeError_attribute_name
  end.

(** [setattr(registry, name, cls)] on one of the Namespaces *)
Definition setattr (s : registries) (registry : namespace) (name : string) (cls : klass)
    : registries :=
  fun ns => if decide (ns = registry) then dict_setitem name cls (s ns) else s ns.

(** [PluginInterface.register] *)
Definition PluginInterface_register : answer unit := Fail NotImplementedError.

(** [cls.register()] *)
Definition call_register (cls : klass) : answer unit :=
  match register cls with
  | Some method => method
  | None => PluginInterface_register
  end.

(** ** The metaclass *)

(** [PluginMount.__new__]: a class without bases, or with [object] as its
    only base, is given the base [PluginInterface]. *)
Definition PluginMount___new__ (cls : klass) : klass :=
  let bases := __bases__ cls in
  if Nat.eqb (length bases) 0 || (Nat.eqb (length bases) 1 && bool_decide (bases !! 0 = Some "object"))
  then Klass (__name__ cls) ["PluginInterface"] (plugin_name cls) (registry cls)
         (defines_init cls) (register cls)
  else cls.

(** [PluginMount.__init__].  The schema and the wrapping of [__init__] by
    [autoassign] change the class object, not the registries. *)
Definition PluginMount___init__ (cls : klass) (s : registries) : answer unit * registries :=
  (* only executes when processing the mount point itself *)
  if bool_decide (__bases__ cls = ["PluginInterface"]) then (Return tt, s)
  else
    match plugin_name cls with
    | None => (Fail RuntimeError_plugin_name, s)
    | Some name =>
        (* register, if this plugin isn't yet *)
        if bool_decide (is_Some (dict_get name (s (registry cls)))) then (Return tt, s)
        else if negb (defines_init cls) then (Fail (ValueError_init (__name__ cls)), s)
        else
          (* track names of classes *)
          let s := setattr s (registry cls) name cls in
          (* register the class *)
          match call_register cls with
          | Fail e => (Fail e, s)
          | Return _ => (Return tt, s)
          end
    end.

(** The class statement of a class with this metaclass: [__new__], then
    [__init__]; the class exists when [__init__] returns. *)
Definition PluginMount (cls : klass) (s : registries) : answer klass * registries :=
  let cls := PluginMount___new__ cls in
  match PluginMount___init__ cls s with
  | (Return _, s') => (Return cls, s')
  | (Fail e, s') => (Fail e, s')
  end.

(** The names that a keyword dictionary may not hold in
    [cls.create(plugin_name, use_schema=True, **kwargs)]. *)
Definition create_parameters : list string := ["cls"; "plugin_name"; "use_schema"].

Section methods.

Variable ext : external.

(** The casts of [create], one keyword after the other. *)
Fixpoint cast_all (klass : klass) (keys : list string) (kwargs : pydict yaml)
    : answer (pydict yaml) :=
  match keys with
  | [] => Return kwargs
  | k :: keys' =>
      match schema ext klass k, dict_get k kwargs with
      | Some cast, Some v =>
          v' ← cast v; cast_all klass keys' (dict_setitem k v' kwargs)
      | _, _ => cast_all klass keys' kwargs
      end
  end.

(** [cls.create(plugin_name, use_schema, **kwargs)], entered *)
Definition create (s : registries) (cls : klass) (plugin_name : yaml) (use_schema : bool)
    (kwargs : pydict yaml) : answer (object ext) :=
  present ← contains (s (registry cls)) plugin_name;
  if negb present then Fail (ValueError_plugin plugin_name)
  else
    klass ← getattr (s (registry cls)) plugin_name;
    (* cast the input values, using the class schema *)
    kwargs ← (if use_schema then cast_all klass kwargs.*1 kwargs else Return kwargs);
    toret ← call ext klass kwargs;
    Return (set_string ext toret).

(** The call [cls.create(plugin_name, use_schema=True, **kwargs)]: a
    keyword named like a parameter of [create] is given twice. *)
Definition create_with (s : registries) (cls : klass) (plugin_name : yaml)
    (kwargs : pydict yaml) : answer (object ext) :=
  match List.find (fun k => bool_decide (k ∈ create_parameters)) kwargs.*1 with
  | Some k => Fail (TypeError_keyword k)
  | None => create s cls plugin_name true kwargs
  end.

(** [try: ... except Exception as e: raise ValueError(...)] around the
    reading of [parsed] *)
Definition parsing {A} (parsed : yaml) (try : answer A) : answer A :=
  match try with
  | Return toret => Return toret
  | Fail e => Fail (ValueError_parse parsed e)
  end.

Definition from_config (s : registries) (cls : klass) (parsed : yaml) : answer (object ext) :=
  parsing parsed
    match parsed with
    | YDict d =>
        match dict_get "plugin" d with
        | Some plugin_name =>
            (* 'plugin' in parsed *)
            let kwargs := dict_pop "plugin" d in
            create_with s cls plugin_name kwargs
        | None =>
            if Nat.eqb (length d) 1 then
              match d with
              | (k, YDict arguments) :: _ => create_with s cls (YStr k) arguments
              | _ => Fail Exception_
              end
            else
              match plugin_name cls with
              | Some name => create_with s cls (YStr name) d
              | None => Fail Exception_
              end
        end
    | YStr name => create s cls (YStr name) false []
    | _ => Fail Exception_
    end.

End methods.

(** [__valid__], by the registries of the four extension points. *)
Definition __valid__ : list namespace := [datasources; painters; transfers; algorithms].

(** [isplugin(name)]: [True], or [None] when the loop ends. *)
Fixpoint isplugin_in (valid : list namespace) (s : registries) (name : string) : option bool :=
  match valid with
  | [] => None
  | extensionpt :: valid' =>
      if bool_decide (is_Some (dict_get name (s extensionpt))) then Some true
      else isplugin_in valid' s name
  end.

Definition isplugin (s : registries) (name : string) : option bool :=
  isplugin_in __valid__ s name.

Definition newline : string := String (Ascii.ascii_of_nat 10) EmptyString.

(** ["=" * n]; the length of a string is counted in bytes, which is the
    number of its characters when they are ASCII. *)
Fixpoint rule (n : nat) : string :=
  match n with
  | 0 => ""
  | S n' => ("=" ++ rule n')%string
  end.

Section help.

Variable ext : external.

Fixpoint help_lines (s : registries) (cls : klass) (plugins : list string)
    : answer (list string) :=
  match plugins with
  | [] => Return []
  | k :: plugins' =>
      match isplugin s k with
      | None => Fail (ValueError_help k)
      | Some _ =>
          let header := ("Plugin : " ++ k ++ "  ExtensionPoint : " ++ __name__ cls)%string in
          klass ← getattr (s (registry cls)) (YStr k);
          rest ← help_lines s cls plugins';
          Return (header :: rule (String.length header) :: schema_help ext klass :: rest)
      end
  end.

Definition format_help (s : registries) (cls : klass) (plugins : list string)
    : answer string :=
  let plugins := if Nat.eqb (length plugins) 0 then (s (registry cls)).*1 else plugins in
  lines ← help_lines s cls plugins;
  if Nat.eqb (length lines) 0
  then Return ("No available Plugins registered at " ++ __name__ cls)%string
  else Return (String.concat newline lines ++ newline)%string.

End help.

(** A class that derives from an extension point or from a plugin: the
    metaclass leaves its bases as they are and goes on to register it. *)
Definition subclass (cls : klass) : Prop :=
  __bases__ cls ≠ [] ∧ __bases__ cls ≠ ["object"] ∧ __bases__ cls ≠ ["PluginInterface"].

(** ** Concrete classes and registries *)

(** The extension point [DataSource], after [ExtensionPoint(datasources)]. *)
Definition DataSource : klass :=
  Klass "DataSource" ["PluginInterface"] None datasources false None.

(** A data source that defines [__init__] but no [register], and a second
    class of the same [plugin_name] that defines both. *)
Definition unfinished : klass :=
  Klass "FOFGroups" ["DataSource"] (Some "FOFGroups") datasources true None.

Definition finished : klass :=
  Klass "FOFGroups" ["DataSource"] (Some "FOFGroups") datasources true (Some (Return tt)).

Definition TSCPainter : klass :=
  Klass "TSCPainter" ["Painter"] (Some "TSC") painters true (Some (Return tt)).

Definition nothing_loaded : registries := fun _ => [].

Definition loaded : registries := fun ns =>
  match ns with
  | datasources => [("FOFGroups", finished)]
  | painters => [("TSC", TSCPainter)]
  | _ => []
  end.

(** Plugins that keep the name of their class and their keywords; the
    schema knows the argument [BoxSize], a number that is cast to a
    float. *)
Definition recorded : external :=
  External (string * pydict yaml)
    (fun klass kwargs => Return (__name__ klass, kwargs))
    (fun klass k =>
       if String.eqb k "BoxSize"
       then Some (fun v => match v with
                           | YScalar x => Return (YScalar (SFloat (numpy.as_float x)))
                           | _ => Fail (Error "cast")
                           end)
       else None)
    (fun toret => toret)
    (fun klass => __name__ klass).

End extensionpoints.

(** ** The monad *)

Lemma bind_Ok {A B} (m : M A) (f : A -> M B) h x h' :
  m h = (Ok x, h') -> (m ≫= f) h = f x h'.
Proof. intros E. unfold mbind, M_bind. now rewrite E. Qed.

Lemma read_Some h r c : catalogs h !! r = Some c -> read r h = (Ok c, h).
Proof. intros E. unfold read. now rewrite E. Qed.

(** ** Reading a column *)

Lemma getitem_resolve h r c sel :
  catalogs h !! r = Some c ->
  CatalogSourceBase.__getitem__ r sel h = (resolve r c sel, h).
Proof.
  intros Hr. unfold CatalogSourceBase.__getitem__, resolve.
  rewrite (bind_Ok _ _ _ _ _ (read_Some _ _ _ Hr)).
  destruct (_overrides (self c) !! sel) as [x|]; [reflexivity|].
  case_bool_decide; [|reflexivity].
  unfold mbind, M_bind, result_bind, lift.
  now destruct (CatalogSourceBase.get_hardcolumn c sel).
Qed.

(** ** Assigning a column *)

Lemma setitem_stored h r c col v :
  catalogs h !! r = Some c ->
  CatalogSource.__setitem__ r col v h =
    match stored_column c v with
    | Ok x =>
        (Ok tt, Heap (<[r := set_overrides (<[col := x]> (_overrides (self c))) c]> (catalogs h))
                  (dicts h))
    | Raise e => (Raise e, h)
    end.
Proof.
  intros Hr. unfold CatalogSource.__setitem__, stored_column.
  rewrite (bind_Ok _ _ _ _ _ (read_Some _ _ _ Hr)).
  assert (Hbase : ∀ v', CatalogSourceBase.__setitem__ r col v' h =
    match CatalogSourceBase.make_column v' with
    | Ok x => (Ok tt, Heap (<[r := set_overrides (<[col := x]> (_overrides (self c))) c]> (catalogs h))
                        (dicts h))
    | Raise e => (Raise e, h)
    end).
  { intros v'. unfold CatalogSourceBase.__setitem__.
    rewrite (bind_Ok _ _ _ _ _ (read_Some _ _ _ Hr)).
    unfold mbind, M_bind, lift. now destruct (CatalogSourceBase.make_column v'). }
  destruct v as [s|a|x]; destruct (CatalogSource.size c) as [n|] eqn:Hn;
    unfold mbind, M_bind, result_bind, mret, M_ret, raise, lift; simpl;
    repeat match goal with
           | |- context [Nat.eqb ?a ?b] => destruct (Nat.eqb a b) eqn:?
           end; simpl; try reflexivity; try apply Hbase.
Qed.

Lemma stored_column_scalar c s n :
  CatalogSource.size c = Some n ->
  stored_column c (VScalar s) = Ok (Array (ConstantArray s n)).
Proof.
  intros Hn. unfold stored_column. rewrite Hn. simpl.
  assert (Hlen : numpy.len (numpy.full n s) = n).
  { destruct s; simpl; apply repeat_length. }
  unfold mbind, result_bind. simpl. rewrite Hlen, Nat.eqb_refl. reflexivity.
Qed.

Lemma stored_column_materialize c v x :
  stored_column c v = Ok x ->
  da.evaluate (graph_of x) = materialize (CatalogSource.size c) v.
Proof.
  unfold stored_column. destruct v as [s|a|y]; simpl.
  - destruct (CatalogSource.size c) as [n|]; simpl; [|discriminate].
    unfold mbind, result_bind. simpl.
    destruct (Nat.eqb _ n); simpl; [|discriminate].
    intros E. inversion E. reflexivity.
  - destruct (CatalogSource.size c) as [n|]; unfold mbind, result_bind; simpl.
    + destruct (Nat.eqb _ n); simpl; [|discriminate]. intros E. now inversion E.
    + intros E. now inversion E.
  - destruct (CatalogSource.size c) as [n|]; unfold mbind, result_bind; simpl.
    + destruct (Nat.eqb _ n); simpl; [|discriminate]. intros E. now inversion E.
    + intros E. now inversion E.
Qed.

Lemma lookup_write (l : list catalog) r c c' :
  l !! r = Some c -> <[r := c']> l !! r = Some c'.
Proof. intros Hr. apply list_lookup_insert_eq. eapply lookup_lt_Some, Hr. Qed.

Lemma resolve_override r c sel x :
  _overrides (self c) !! sel = Some x ->
  resolve r c sel = Ok (new_ColumnAccessor r x).
Proof. intros E. unfold resolve. now rewrite E. Qed.

Lemma compute_accessor h r c x :
  catalogs h !! r = Some c ->
  ColumnAccessor_compute (new_ColumnAccessor r x) h = (Ok (One (da.evaluate (graph_of x))), h).
Proof.
  intros Hr. unfold ColumnAccessor_compute, new_ColumnAccessor, CatalogSourceBase.compute.
  rewrite (bind_Ok _ _ _ _ _ (read_Some _ _ _ Hr)).
  now destruct (_use_cache (self c)).
Qed.

(** ** Properties of column access and assignment *)

(** C10: an assignment that fails leaves the heap, and with it the override
    dictionary of the catalog, exactly as it was: the column keeps its
    previous array or stays absent. *)
Theorem setitem_failure_atomic h r col v e h' :
  CatalogSource.__setitem__ r col v h = (Raise e, h') ->
  h' = h ∧ overrides_of h' r = overrides_of h r.
Proof.
  intros E. assert (h' = h); [|now subst].
  destruct (catalogs h !! r) as [c|] eqn:Hr.
  - rewrite (setitem_stored _ _ _ _ _ Hr) in E.
    destruct (stored_column c v); inversion E; reflexivity.
  - unfold CatalogSource.__setitem__, mbind, M_bind, read in E.
    rewrite Hr in E. now inversion E.
Qed.

Lemma setitem_failure_atomic_witness :
  CatalogSource.__setitem__ 0 "X" (VArray (IntArray [1%Z; 2%Z])) (one_catalog (Some 5) ∅)
    = (Raise (AssertionError_column_size 5), one_catalog (Some 5) ∅)
  ∧ overrides_of (one_catalog (Some 5) ∅) 0 = overrides_of (one_catalog (Some 5) ∅) 0.
Proof.
  split; [reflexivity|].
  apply (setitem_failure_atomic (one_catalog (Some 5) ∅) 0 "X"
           (VArray (IntArray [1%Z; 2%Z])) (AssertionError_column_size 5)).
  reflexivity.
Defined.

(** C9: on a catalog whose size is not implemented, [copy] raises nothing:
    it returns the [ValueError] object as its value and leaves the heap
    untouched. *)
Theorem copy_without_size_returns_exception h r c :
  catalogs h !! r = Some c ->
  CatalogSource.size c = None ->
  CatalogSource.copy r h = (Ok CatalogSource.ValueError_object, h).
Proof.
  intros Hr Hn. unfold CatalogSource.copy.
  rewrite (bind_Ok _ _ _ _ _ (read_Some _ _ _ Hr)). now rewrite Hn.
Qed.

Lemma copy_without_size_returns_exception_witness :
  CatalogSource.copy 0 (one_catalog None ∅)
    = (Ok CatalogSource.ValueError_object, one_catalog None ∅).
Proof.
  apply (copy_without_size_returns_exception (one_catalog None ∅) 0 (plain_catalog None ∅));
    reflexivity.
Defined.

(** C3: on a catalog of known size [n], assigning a scalar succeeds and
    stores a constant array of length [n], so that reading the column back
    and computing it gives the scalar repeated [n] times; on a catalog
    whose size is not implemented the assignment fails, with the error the
    specification calls SizeRequired. *)
Theorem setitem_scalar_broadcast h r c name s :
  catalogs h !! r = Some c ->
  match CatalogSource.size c with
  | Some n =>
      ∃ h' x,
        CatalogSource.__setitem__ r name (VScalar s) h = (Ok tt, h')
        ∧ CatalogSourceBase.__getitem__ r name h' = (Ok x, h')
        ∧ da.len (graph_of x) = n
        ∧ ColumnAccessor_compute x h' = (Ok (One (numpy.full n s)), h')
  | None =>
      CatalogSource.__setitem__ r name (VScalar s) h = (Raise AssertionError_scalar_size, h)
      ∧ kind_of AssertionError_scalar_size = SizeRequired
  end.
Proof.
  intros Hr. destruct (CatalogSource.size c) as [n|] eqn:Hn.
  - rewrite (setitem_stored _ _ _ _ _ Hr), (stored_column_scalar _ _ _ Hn).
    set (c' := set_overrides _ c).
    assert (Hr' : <[r := c']> (catalogs h) !! r = Some c') by (eapply lookup_write, Hr).
    set (h' := Heap (<[r := c']> (catalogs h)) (dicts h)).
    exists h', (new_ColumnAccessor r (Array (ConstantArray s n))).
    split; [reflexivity|].
    rewrite (getitem_resolve h' r c' name Hr').
    rewrite (resolve_override r c' name (Array (ConstantArray s n)))
      by (apply lookup_insert_eq).
    split; [reflexivity|]. split.
    + destruct s; simpl; apply repeat_length.
    + now rewrite (compute_accessor h' r c' _ Hr').
  - rewrite (setitem_stored _ _ _ _ _ Hr). unfold stored_column. rewrite Hn. auto.
Qed.

Lemma setitem_scalar_broadcast_witness :
  ∃ h' x,
    CatalogSource.__setitem__ 0 "Flag" (VScalar (SBool true)) (one_catalog (Some 4) ∅) = (Ok tt, h')
    ∧ CatalogSourceBase.__getitem__ 0 "Flag" h' = (Ok x, h')
    ∧ da.len (graph_of x) = 4
    ∧ ColumnAccessor_compute x h' = (Ok (One (BoolArray [true; true; true; true])), h').
Proof.
  exact (setitem_scalar_broadcast (one_catalog (Some 4) ∅) 0 (plain_catalog (Some 4) ∅)
           "Flag" (SBool true) eq_refl).
Defined.

Lemma base_setitem_writes h r c col v x :
  catalogs h !! r = Some c ->
  CatalogSourceBase.make_column v = Ok x ->
  CatalogSourceBase.__setitem__ r col v h =
    (Ok tt, Heap (<[r := set_overrides (<[col := x]> (_overrides (self c))) c]> (catalogs h))
              (dicts h)).
Proof.
  intros Hr Hx. unfold CatalogSourceBase.__setitem__.
  rewrite (bind_Ok _ _ _ _ _ (read_Some _ _ _ Hr)).
  unfold mbind, M_bind, lift. now rewrite Hx.
Qed.

(** C2: a name found in the override dictionary is read from there, whether
    or not the class also declares a hard column of that name; whenever an
    assignment goes through, it has written the override dictionary, so
    that reading the name back gives an accessor on the assigned array,
    which computes to the assigned values; and the assignment of the base
    class writes the override dictionary without looking at the hard
    columns at all. *)
Theorem override_precedence h r c name :
  catalogs h !! r = Some c ->
  (∀ x, _overrides (self c) !! name = Some x ->
        CatalogSourceBase.__getitem__ r name h = (Ok (new_ColumnAccessor r x), h))
  ∧ (∀ v h', CatalogSource.__setitem__ r name v h = (Ok tt, h') ->
       ∃ x, overrides_of h' r = Some (<[name := x]> (_overrides (self c)))
          ∧ CatalogSourceBase.__getitem__ r name h' = (Ok (new_ColumnAccessor r x), h')
          ∧ ColumnAccessor_compute (new_ColumnAccessor r x) h'
              = (Ok (One (materialize (CatalogSource.size c) v)), h'))
  ∧ (∀ v x, CatalogSourceBase.make_column v = Ok x ->
       ∃ h', CatalogSourceBase.__setitem__ r name v h = (Ok tt, h')
             ∧ overrides_of h' r = Some (<[name := x]> (_overrides (self c)))).
Proof.
  intros Hr. split; [|split].
  - intros x Hx. rewrite (getitem_resolve _ _ _ _ Hr). now rewrite (resolve_override _ _ _ _ Hx).
  - intros v h' E. rewrite (setitem_stored _ _ _ _ _ Hr) in E.
    destruct (stored_column c v) as [x|e] eqn:Hx; [|discriminate].
    inversion E as [Hh]. clear E.
    set (c' := set_overrides (<[name := x]> (_overrides (self c))) c).
    set (h1 := Heap (<[r := c']> (catalogs h)) (dicts h)).
    assert (Hr' : catalogs h1 !! r = Some c') by (eapply lookup_write, Hr).
    exists x. split; [|split].
    + unfold overrides_of. now rewrite Hr'.
    + rewrite (getitem_resolve h1 r c' name Hr').
      now rewrite (resolve_override r c' name x) by (apply lookup_insert_eq).
    + rewrite (compute_accessor h1 r c' x Hr').
      now rewrite (stored_column_materialize _ _ _ Hx).
  - intros v x Hx. eexists. split; [exact (base_setitem_writes _ _ _ _ _ _ Hr Hx)|].
    unfold overrides_of. simpl. now rewrite (lookup_write _ _ _ _ Hr).
Qed.

Lemma override_precedence_witness :
  let weights := FloatArray [3 # 2; 2 # 1; 5 # 2]%Q in
  "Weight" ∈ CatalogSourceBase.hardcolumns (plain_catalog (Some 3) ∅)
  ∧ ∃ h', CatalogSource.__setitem__ 0 "Weight" (VArray weights) (one_catalog (Some 3) ∅) = (Ok tt, h')
        ∧ ∃ x, CatalogSourceBase.__getitem__ 0 "Weight" h' = (Ok (new_ColumnAccessor 0 x), h')
             ∧ ColumnAccessor_compute (new_ColumnAccessor 0 x) h' = (Ok (One weights), h').
Proof.
  intros weights. split.
  - vm_compute. repeat constructor.
  - eexists. split; [reflexivity|].
    destruct (override_precedence (one_catalog (Some 3) ∅) 0 (plain_catalog (Some 3) ∅)
                "Weight" eq_refl) as (_ & Hset & _).
    destruct (Hset (VArray weights) _ eq_refl) as (x & _ & Hget & Hcompute).
    exists x. split; [exact Hget | exact Hcompute].
Defined.

(** ** The column registry: sorted and complete *)

Lemma pyclass_induction (P : pyclass -> Prop) :
  (∀ name dict bases, Forall P bases -> P (Class name dict bases)) ->
  ∀ cls, P cls.
Proof.
  intros step. fix IH 1. intros [name dict bases]. apply step.
  induction bases as [|base bases' IHbases]; constructor; [apply IH | exact IHbases].
Qed.

Lemma elem_of_sorted x l : x ∈ sorted l ↔ x ∈ l.
Proof.
  unfold sorted. now rewrite <- (StringSort.Permuted_sort l).
Qed.

Lemma NoDup_sorted l : NoDup l -> NoDup (sorted l).
Proof.
  unfold sorted. intros Hl. now rewrite <- (StringSort.Permuted_sort l).
Qed.

Lemma Sorted_sorted l : Sorted (fun a b => is_true (String.leb a b)) (sorted l).
Proof. apply StringSort.Sorted_sort. Qed.

Lemma elem_of_sorted_pyset x l : x ∈ sorted (pyset l) ↔ x ∈ l.
Proof. unfold pyset. now rewrite elem_of_sorted, elem_of_remove_dups. Qed.

Lemma NoDup_sorted_pyset l : NoDup (sorted (pyset l)).
Proof. apply NoDup_sorted, NoDup_remove_dups. Qed.

Lemma elem_of_flat_map {A B} (f : A -> list B) (l : list A) (y : B) :
  y ∈ flat_map f l ↔ ∃ x, x ∈ l ∧ y ∈ f x.
Proof.
  rewrite list_elem_of_In, in_flat_map. split; intros (x & Hx & Hy); exists x.
  - now rewrite !list_elem_of_In.
  - now rewrite <- !list_elem_of_In.
Qed.

Lemma elem_of_column_names col dict :
  col ∈ column_names dict ↔ ∃ key getter, (key, column col getter) ∈ dict.
Proof.
  unfold column_names. rewrite elem_of_flat_map. split.
  - intros ([key [name getter|]] & Hin & Hcol); simpl in Hcol.
    + apply list_elem_of_singleton in Hcol. subst. eauto.
    + now apply not_elem_of_nil in Hcol.
  - intros (key & getter & Hin). exists (key, column col getter). split; [done|].
    simpl. now apply list_elem_of_singleton.
Qed.

Lemma elem_of_find_columns cls col : col ∈ find_columns cls ↔ declares cls col.
Proof.
  revert col. induction cls as [name dict bases IH] using pyclass_induction.
  intros col. simpl. rewrite elem_of_sorted_pyset, elem_of_app, elem_of_column_names,
    elem_of_flat_map.
  rewrite Forall_forall in IH. split.
  - intros [(key & getter & Hin) | (base & Hbase & Hcol)].
    + eapply declares_here, Hin.
    + eapply declares_base; [exact Hbase|]. now apply IH.
  - intros Hd. inversion Hd; subst.
    + left. eauto.
    + right. eexists. split; [eassumption|]. now apply IH.
Qed.

Lemma find_member_Some dict col :
  col ∈ column_names dict -> is_Some (find_member dict col).
Proof.
  induction dict as [|[key [name getter|]] dict' IH]; simpl.
  - intros H. now apply not_elem_of_nil in H.
  - intros H. destruct (String.eqb name col) eqn:E; [eauto|].
    apply IH. apply elem_of_cons in H as [->|H]; [|exact H].
    now rewrite String.eqb_refl in E.
  - exact IH.
Qed.

Lemma find_column_declared cls col :
  declares cls col -> ∃ getter, find_column cls col = Ok getter.
Proof.
  revert col. induction cls as [name dict bases IH] using pyclass_induction.
  intros col Hd. simpl.
  destruct (find_member dict col) as [getter|] eqn:Hm; [eauto|].
  assert (Hb : ∃ base, base ∈ bases ∧ declares base col).
  { inversion Hd; subst; [|eauto].
    destruct (find_member_Some dict col) as [g Hg]; [|congruence].
    apply elem_of_column_names. eauto. }
  clear Hd Hm. destruct Hb as (base & Hin & Hbase).
  induction bases as [|b bases' IHbases].
  - now apply not_elem_of_nil in Hin.
  - apply Forall_cons in IH as [IHb IHrest].
    destruct (find_column b col) as [g|e] eqn:Hb; [eauto|].
    apply elem_of_cons in Hin as [->|Hin].
    + destruct (IHb col Hbase) as [g Hg]. congruence.
    + now apply IHbases.
Qed.

Lemma elem_of_columns c col :
  col ∈ CatalogSourceBase.columns c
  ↔ declares (class_of c) col ∨ is_Some (_overrides (self c) !! col).
Proof.
  unfold CatalogSourceBase.columns, CatalogSourceBase.hardcolumns, keys.
  rewrite elem_of_sorted_pyset, elem_of_app, elem_of_find_columns.
  apply or_iff_compat_l. rewrite list_elem_of_fmap. split.
  - intros ([k x] & -> & Hkx). apply elem_of_map_to_list in Hkx. simpl. eauto.
  - intros [x Hx]. exists (col, x). split; [done|]. now apply elem_of_map_to_list.
Qed.

(** C4: the columns of a catalog are listed in ascending order and without
    repetition, and a name is listed exactly when the class or one of its
    ancestors declares it as a column or the override dictionary has it;
    the list of hard columns is likewise ascending, free of repetition, and
    made of exactly the names declared by the class and its ancestors. *)
Theorem columns_sorted_union (c : catalog) :
  let cols := CatalogSourceBase.columns c in
  let hard := find_columns (class_of c) in
  (Sorted (fun a b => is_true (String.leb a b)) cols
   ∧ NoDup cols
   ∧ ∀ col, col ∈ cols ↔ declares (class_of c) col ∨ is_Some (_overrides (self c) !! col))
  ∧ (CatalogSourceBase.hardcolumns c = hard
     ∧ Sorted (fun a b => is_true (String.leb a b)) hard
     ∧ NoDup hard
     ∧ ∀ col, col ∈ hard ↔ declares (class_of c) col).
Proof.
  intros cols hard. split; [split; [|split]|split; [|split; [|split]]].
  - apply Sorted_sorted.
  - apply NoDup_sorted_pyset.
  - intros col. apply elem_of_columns.
  - reflexivity.
  - destruct (class_of c) as [name dict bases]. apply Sorted_sorted.
  - destruct (class_of c) as [name dict bases]. apply NoDup_sorted_pyset.
  - intros col. apply elem_of_find_columns.
Qed.

(** ** Reading a column: the three outcomes *)

(** C8, as stated, fails: on a catalog of the class [CatalogSource] whose
    size is not implemented, "Weight" is a hard column and yet reading it
    fails, because the function of the column cannot build its array; and
    on a catalog of a subclass, of known size, a hard column whose function
    raises cannot be read either. *)
Lemma getitem_hard_column_fails :
  ("Weight" ∈ CatalogSourceBase.hardcolumns (plain_catalog None ∅)
   ∧ CatalogSourceBase.__getitem__ 0 "Weight" (one_catalog None ∅)
       = (Raise (ColumnError "Weight"), one_catalog None ∅))
  ∧ ("Position" ∈ find_columns FileCatalog_class
     ∧ CatalogSourceBase.__getitem__ 0 "Position" file_catalog
         = (Raise (ColumnError "Position"), file_catalog)).
Proof.
  repeat split; try reflexivity; vm_compute; repeat constructor.
Qed.

(** C8, amended: a name that is neither overridden nor a hard column is
    refused with the error the specification calls UnknownColumn; an
    overridden name always yields an accessor on the override; a name that
    is only a hard column is always found in the class, and reading it
    yields an accessor on the array that the function of the column
    builds, or fails when that function fails. *)
Theorem getitem_outcome h r c name :
  catalogs h !! r = Some c ->
  (_overrides (self c) !! name = None ->
   name ∉ CatalogSourceBase.hardcolumns c ->
     CatalogSourceBase.__getitem__ r name h = (Raise (KeyError_undefined_column name), h)
     ∧ kind_of (KeyError_undefined_column name) = UnknownColumn)
  ∧ (∀ x, _overrides (self c) !! name = Some x ->
     CatalogSourceBase.__getitem__ r name h = (Ok (new_ColumnAccessor r x), h))
  ∧ (_overrides (self c) !! name = None ->
     name ∈ CatalogSourceBase.hardcolumns c ->
     ∃ getter, find_column (class_of c) name = Ok getter
       ∧ CatalogSourceBase.__getitem__ r name h =
           (match getter (self c) with
            | Some x => Ok (new_ColumnAccessor r x)
            | None => Raise (ColumnError name)
            end, h)).
Proof.
  intros Hr. rewrite (getitem_resolve _ _ _ _ Hr). unfold resolve.
  split; [|split].
  - intros -> Hhard. now rewrite bool_decide_eq_false_2.
  - now intros x ->.
  - intros -> Hhard. rewrite bool_decide_eq_true_2 by exact Hhard.
    destruct (find_column_declared (class_of c) name) as [getter Hg].
    { now apply elem_of_find_columns. }
    exists getter. split; [exact Hg|].
    unfold CatalogSourceBase.get_hardcolumn. rewrite Hg. simpl.
    unfold mbind, result_bind. now destruct (getter (self c)).
Qed.

Lemma getitem_outcome_witness :
  CatalogSourceBase.__getitem__ 0 "DoesNotExist" (one_catalog (Some 5) ∅)
    = (Raise (KeyError_undefined_column "DoesNotExist"), one_catalog (Some 5) ∅)
  ∧ CatalogSourceBase.__getitem__ 0 "Selection" (one_catalog (Some 5) ∅)
    = (Ok (new_ColumnAccessor 0 (Array (ConstantArray (SBool true) 5))), one_catalog (Some 5) ∅).
Proof.
  destruct (getitem_outcome (one_catalog (Some 5) ∅) 0 (plain_catalog (Some 5) ∅)
              "DoesNotExist" eq_refl) as (Hnone & _ & _).
  destruct (getitem_outcome (one_catalog (Some 5) ∅) 0 (plain_catalog (Some 5) ∅)
              "Selection" eq_refl) as (_ & _ & Hhard).
  split.
  - apply Hnone; [reflexivity|]. vm_compute. intros H.
    repeat (apply elem_of_cons in H as [H|H]; [discriminate|]).
    now apply not_elem_of_nil in H.
  - destruct Hhard as (getter & Hg & Hget); [reflexivity | vm_compute; repeat constructor |].
    vm_compute in Hg. inversion Hg; subst getter. exact Hget.
Defined.

(** ** Derived catalogs: the loops and the shared construction *)

Lemma dict_comprehension_pure {V} (f : string -> M V) (g : string -> result V) keys acc h :
  (∀ key, f key h = (g key, h)) ->
  dict_comprehension f keys acc h = (comprehend g keys acc, h).
Proof.
  intros Hf. revert acc. induction keys as [|key keys' IH]; intros acc; simpl.
  - reflexivity.
  - unfold mbind, M_bind. rewrite Hf. destruct (g key) as [v|e]; [apply IH | reflexivity].
Qed.

Lemma insert_snoc {A} (l : list A) (x y : A) : <[length l := y]> (l ++ [x]) = l ++ [y].
Proof.
  rewrite insert_app_r_alt by lia. now rewrite Nat.sub_diag.
Qed.

Lemma lookup_snoc {A} (l : list A) (x : A) : (l ++ [x]) !! length l = Some x.
Proof. now apply list_lookup_middle. Qed.

Lemma for_each_setitem r cols : ∀ h c,
  catalogs h !! r = Some c ->
  for_each (fun nv => CatalogSource.__setitem__ r nv.1 nv.2) cols h =
    (match (store_all c cols).1 with
     | Ok _ => Ok ((fun _ => tt) <$> cols)
     | Raise e => Raise e
     end,
     Heap (<[r := (store_all c cols).2]> (catalogs h)) (dicts h)).
Proof.
  induction cols as [|[name v] cols' IH]; intros h c Hr; simpl.
  - rewrite list_insert_id by exact Hr. now destruct h.
  - unfold mbind at 1. unfold M_bind. rewrite (setitem_stored _ _ _ _ _ Hr). simpl.
    destruct (stored_column c v) as [x|e]; simpl.
    + set (c' := set_overrides _ c).
      unfold mbind at 1. unfold M_bind.
      rewrite (IH _ c') by (eapply lookup_write, Hr). simpl.
      rewrite list_insert_insert_eq.
      now destruct (store_all c' cols') as [[[]|e] c2].
    + rewrite list_insert_id by exact Hr. now destruct h.
Qed.

Lemma init_fresh size k uc l ds :
  CatalogSource.__init__ (length l) k uc
    (Heap (l ++ [Catalog CatalogSource_class (Instance size None ∅ None false k)]) ds)
  = (Ok tt, Heap (l ++ [fresh size k uc]) ds).
Proof.
  unfold CatalogSource.__init__, CatalogSourceBase.__init__, CatalogSource.update_csize.
  unfold mbind, M_bind, mret, M_ret, read, write, raise. simpl.
  rewrite lookup_snoc. simpl. rewrite insert_snoc, lookup_snoc.
  unfold CatalogSource.size. simpl.
  destruct size as [n|]; simpl; [|reflexivity].
  rewrite lookup_snoc. simpl. now rewrite insert_snoc.
Qed.

Lemma from_columns_eq size k uc cols h :
  CatalogSource._from_columns size k uc cols h =
    match List.find (fun name => bool_decide (name ∈ CatalogSource.parameters)) cols.*1 with
    | Some name => (Raise (TypeError_multiple_values name), h)
    | None =>
        (match (store_all (fresh size k uc) cols).1 with
         | Ok _ => Ok (length (catalogs h))
         | Raise e => Raise e
         end,
         Heap (catalogs h ++ [(store_all (fresh size k uc) cols).2]) (dicts h))
    end.
Proof.
  unfold CatalogSource._from_columns.
  destruct (List.find _ _); [reflexivity|].
  unfold mbind at 1. unfold M_bind, new_catalog.
  unfold mbind at 1. unfold M_bind. simpl. rewrite init_fresh.
  unfold mbind at 1. unfold M_bind.
  rewrite (for_each_setitem _ _ _ (fresh size k uc)) by (simpl; apply lookup_snoc).
  simpl. rewrite insert_snoc.
  now destruct ((store_all (fresh size k uc) cols).1).
Qed.

Lemma store_all_frame c cols :
  class_of (store_all c cols).2 = class_of c
  ∧ _size (self (store_all c cols).2) = _size (self c)
  ∧ _attrs (self (store_all c cols).2) = _attrs (self c).
Proof.
  revert c. induction cols as [|[name v] cols' IH]; intros c; simpl; [done|].
  destruct (stored_column c v); [|done].
  destruct (IH (set_overrides (<[name:=x]> (_overrides (self c))) c)) as (-> & -> & ->).
  done.
Qed.

Lemma stored_column_len c v x n :
  CatalogSource.size c = Some n -> stored_column c v = Ok x -> da.len (graph_of x) = n.
Proof.
  intros Hn. unfold stored_column. rewrite Hn.
  destruct v as [s|a|y]; unfold mbind, result_bind; simpl.
  - destruct (Nat.eqb _ n) eqn:E; [|discriminate]. intros H. inversion H. subst.
    now apply Nat.eqb_eq in E.
  - destruct (Nat.eqb _ n) eqn:E; [|discriminate]. intros H. inversion H. subst.
    now apply Nat.eqb_eq in E.
  - destruct (Nat.eqb _ n) eqn:E; [|discriminate]. intros H. inversion H. subst.
    now apply Nat.eqb_eq in E.
Qed.

Lemma stored_column_dask c x n :
  CatalogSource.size c = Some n -> da.len (graph_of x) = n ->
  stored_column c (VDask x) = Ok x.
Proof.
  intros Hn Hx. unfold stored_column. rewrite Hn. unfold mbind, result_bind. simpl.
  now rewrite Hx, Nat.eqb_refl.
Qed.

Lemma store_all_Ok c cols n :
  CatalogSource.size c = Some n ->
  Forall (fun nv => rows n nv.2) cols ->
  (store_all c cols).1 = Ok tt.
Proof.
  revert c. induction cols as [|[name v] cols' IH]; intros c Hn Hall; simpl; [done|].
  apply Forall_cons in Hall as [(x & Hv & Hx) Hall]. simpl in Hv. subst v.
  rewrite (stored_column_dask _ _ _ Hn Hx). now apply IH.
Qed.

Lemma store_all_overrides c cols :
  (store_all c cols).1 = Ok tt ->
  ∀ name, is_Some (_overrides (self (store_all c cols).2) !! name)
          ↔ is_Some (_overrides (self c) !! name) ∨ name ∈ cols.*1.
Proof.
  revert c. induction cols as [|[key v] cols' IH]; intros c Hok name; simpl in *.
  - rewrite elem_of_nil. tauto.
  - destruct (stored_column c v) as [x|e]; [|discriminate].
    rewrite (IH _ Hok name). simpl. rewrite elem_of_cons.
    destruct (decide (key = name)) as [->|Hne].
    + rewrite lookup_insert_eq. split; [auto|]. intros _. left. eauto.
    + rewrite lookup_insert_ne by exact Hne. split; [tauto|].
      intros [H|[H|H]]; [tauto|congruence|tauto].
Qed.

Lemma store_all_lengths c cols n :
  CatalogSource.size c = Some n ->
  (∀ name x, _overrides (self c) !! name = Some x -> da.len (graph_of x) = n) ->
  ∀ name x, _overrides (self (store_all c cols).2) !! name = Some x ->
            da.len (graph_of x) = n.
Proof.
  revert c. induction cols as [|[key v] cols' IH]; intros c Hn Hc; simpl; [exact Hc|].
  destruct (stored_column c v) as [y|e] eqn:Hy; [|exact Hc].
  apply IH; [exact Hn|]. intros name x. simpl.
  destruct (decide (key = name)) as [->|Hne].
  - rewrite lookup_insert_eq. intros E. inversion E. subst.
    eapply stored_column_len; eassumption.
  - rewrite lookup_insert_ne by exact Hne. apply Hc.
Qed.
Lemma set_attrs_id c l : _attrs (self c) = Some l -> set_attrs l c = c.
Proof. destruct c as [cls [a b o t u k]]. simpl. now intros ->. Qed.

Lemma attrs_update_spec h toret parent ct c :
  toret ≠ parent ->
  catalogs h !! toret = Some ct -> _attrs (self ct) = None ->
  catalogs h !! parent = Some c -> attrs_allocated h c ->
  ∃ h' l1 lp d,
    CatalogSourceBase.attrs_update toret parent h = (Ok tt, h')
    ∧ catalogs h' !! toret = Some (set_attrs l1 ct)
    ∧ catalogs h' !! parent = Some (set_attrs lp c)
    ∧ l1 ≠ lp
    ∧ dicts h' !! l1 = Some d ∧ dicts h' !! lp = Some d
    ∧ d = default ∅ (attrs_of h parent).
Proof.
  intros Hne Ht Hnone Hp Hal.
  unfold CatalogSourceBase.attrs_update, CatalogSourceBase.attrs.
  unfold mbind, M_bind, mret, M_ret, read, write, new_dict, read_dict, write_dict. simpl.
  rewrite Ht, Hnone. simpl.
  rewrite list_lookup_insert_ne by exact Hne. rewrite Hp.
  unfold attrs_allocated in Hal. unfold attrs_of. rewrite Hp. simpl.
  destruct (_attrs (self c)) as [lp|] eqn:Hlp; simpl.
  - destruct Hal as [d Hd]. rewrite Hd. simpl.
    assert (Hlt : lp < length (dicts h)) by (eapply lookup_lt_Some, Hd).
    rewrite list_lookup_middle by reflexivity. simpl.
    rewrite (lookup_app_l_Some _ _ _ _ Hd).
    eexists _, (length (dicts h)), lp, d. split; [reflexivity|]. simpl.
    split; [eapply lookup_write, Ht|].
    split; [rewrite list_lookup_insert_ne by exact Hne; now rewrite set_attrs_id|].
    split; [lia|].
    split; [rewrite list_lookup_insert_eq by (rewrite length_app; simpl; lia);
            now rewrite (right_id_L ∅ (∪))|].
    split; [|reflexivity].
    rewrite list_lookup_insert_ne by lia. now apply lookup_app_l_Some.
  - assert (E1 : ((dicts h ++ [∅]) ++ [∅]) !! length (dicts h) = Some (∅ : gmap string attr)).
    { rewrite <- (assoc_L (++)). now apply list_lookup_middle. }
    assert (E2 : ((dicts h ++ [∅]) ++ [∅]) !! length (dicts h ++ [∅])
                 = Some (∅ : gmap string attr)).
    { now apply list_lookup_middle. }
    rewrite E1. simpl. rewrite E2.
    eexists _, (length (dicts h)), (length (dicts h ++ [∅])), ∅.
    split; [reflexivity|]. simpl.
    assert (Hlen : length (dicts h ++ [∅]) = S (length (dicts h)))
      by (rewrite length_app; simpl; lia).
    split; [rewrite list_lookup_insert_ne by (intros E; apply Hne; now symmetry);
            eapply lookup_write, Ht|].
    split; [apply list_lookup_insert_eq; rewrite length_insert; eapply lookup_lt_Some, Hp|].
    split; [lia|].
    split; [rewrite list_lookup_insert_eq by (rewrite !length_app; simpl; lia);
            now rewrite (right_id_L ∅ (∪))|].
    split; [|reflexivity].
    rewrite list_lookup_insert_ne by lia. exact E2.
Qed.

Lemma elem_of_dict_setitem_keys {V} (k : string) (v : V) d x :
  x ∈ (dict_setitem k v d).*1 ↔ x = k ∨ x ∈ d.*1.
Proof.
  induction d as [|[k' v'] d' IH]; simpl.
  - rewrite list_elem_of_singleton, elem_of_nil. tauto.
  - destruct (String.eqb k k') eqn:E; simpl.
    + apply String.eqb_eq in E. subst k'. rewrite !elem_of_cons. tauto.
    + rewrite !elem_of_cons, IH. tauto.
Qed.

Lemma Forall_dict_setitem {V} (P : V -> Prop) (k : string) (v : V) d :
  P v -> Forall (fun kv => P kv.2) d -> Forall (fun kv => P kv.2) (dict_setitem k v d).
Proof.
  intros Hv. induction 1 as [|[k' v'] d' Hk' Hd' IH]; simpl.
  - now repeat constructor.
  - destruct (String.eqb k k'); constructor; auto.
Qed.

Lemma comprehend_keys {V} (g : string -> result V) keys : ∀ acc d,
  comprehend g keys acc = Ok d -> ∀ x, x ∈ d.*1 ↔ x ∈ acc.*1 ∨ x ∈ keys.
Proof.
  induction keys as [|key keys' IH]; intros acc d; simpl.
  - intros E x. inversion E. rewrite elem_of_nil. tauto.
  - destruct (g key) as [v|e]; [|discriminate]. intros E x.
    rewrite (IH _ _ E), elem_of_dict_setitem_keys, elem_of_cons. tauto.
Qed.

Lemma comprehend_values {V} (P : V -> Prop) (g : string -> result V) keys : ∀ acc d,
  (∀ key v, g key = Ok v -> P v) ->
  Forall (fun kv => P kv.2) acc ->
  comprehend g keys acc = Ok d -> Forall (fun kv => P kv.2) d.
Proof.
  induction keys as [|key keys' IH]; intros acc d Hg Hacc; simpl.
  - intros E. now inversion E; subst.
  - destruct (g key) as [v|e] eqn:Hv; [|discriminate].
    apply IH; [exact Hg|]. apply Forall_dict_setitem; [|exact Hacc]. eapply Hg, Hv.
Qed.

Lemma comprehend_Ok {V} (g : string -> result V) keys : ∀ acc,
  (∀ key, key ∈ keys -> ∃ v, g key = Ok v) -> ∃ d, comprehend g keys acc = Ok d.
Proof.
  induction keys as [|key keys' IH]; intros acc Hg; simpl; [eauto|].
  destruct (Hg key) as [v ->]; [left|]. apply IH. intros k Hk. apply Hg. now right.
Qed.

Lemma derive_outcome h parent c size k uc data :
  catalogs h !! parent = Some c ->
  attrs_allocated h c ->
  let built := store_all (fresh size k uc) data in
  match List.find (fun name => bool_decide (name ∈ CatalogSource.parameters)) data.*1 with
  | Some name => derive parent size k uc data h = (Raise (TypeError_multiple_values name), h)
  | None =>
      match built.1 with
      | Ok _ => ∃ toret h2, derive parent size k uc data h = (Ok toret, h2)
                            ∧ derived h parent c built.2 h2 toret
      | Raise e => ∃ h2, derive parent size k uc data h = (Raise e, h2)
      end
  end.
Proof.
  intros Hp Hal built.
  assert (Hfrom := from_columns_eq size k uc data h). fold built in Hfrom.
  unfold derive, mbind, M_bind.
  destruct (List.find _ _) as [name|]; [now rewrite Hfrom|].
  destruct (built.1) as [[]|e] eqn:Hb; rewrite Hfrom; [|eauto].
  set (h1 := Heap (catalogs h ++ [built.2]) (dicts h)).
  assert (Hlt : parent < length (catalogs h)) by (eapply lookup_lt_Some, Hp).
  destruct (attrs_update_spec h1 (length (catalogs h)) parent built.2 c)
    as (h2 & l1 & lp & d & Hrun & Ht & Hpar & Hne & Hl1 & Hlp & Hd).
  - lia.
  - apply lookup_snoc.
  - unfold built. now destruct (store_all_frame (fresh size k uc) data) as (_ & _ & ->).
  - simpl. now apply lookup_app_l_Some.
  - exact Hal.
  - fold h1. rewrite Hrun. eexists _, _. split; [reflexivity|].
    exists l1, lp, d. repeat split; try assumption; [lia|].
    rewrite Hd. unfold attrs_of, h1. simpl. now rewrite (lookup_app_l_Some _ _ _ _ Hp), Hp.
Qed.

Lemma derive_Ok h parent c size k uc data toret h2 :
  catalogs h !! parent = Some c ->
  attrs_allocated h c ->
  derive parent size k uc data h = (Ok toret, h2) ->
  derived h parent c (store_all (fresh size k uc) data).2 h2 toret.
Proof.
  intros Hp Hal Hrun. pose proof (derive_outcome h parent c size k uc data Hp Hal) as Hout.
  simpl in Hout. destruct (List.find _ _) as [name|]; [congruence|].
  destruct (store_all _ data).1 as [[]|e].
  - destruct Hout as (toret' & h2' & Hrun' & Hd). congruence.
  - destruct Hout as [h2' Hrun']. congruence.
Qed.

Lemma subset_eq h parent c index :
  catalogs h !! parent = Some c ->
  get_catalog_subset parent index h =
    match CatalogSource.size c with
    | None => (Raise TypeError_len, h)
    | Some n =>
        if negb (Nat.eqb (numpy.len (force index)) n)
        then (Raise (ValueError_slice_length (numpy.len (force index)) n), h)
        else
          match force index with
          | BoolArray mask =>
              match comprehend (subset_column parent c mask) (CatalogSourceBase.columns c) [] with
              | Ok data =>
                  derive parent (Some (numpy.sum mask)) (comm (self c)) (_use_cache (self c)) data h
              | Raise e => (Raise e, h)
              end
          | _ => (Raise ValueError_not_boolean, h)
          end
    end.
Proof.
  intros Hp. unfold get_catalog_subset.
  assert (Hforce : (match index with
          | IDask x =>
              v ← CatalogSourceBase.compute parent [x];
              match v with
              | One a => mret a
              | Tuple _ => raise TypeError_len
              end
          | IList l => mret (numpy.array l)
          | IArray a => mret a
          end) h = (Ok (force index), h)).
  { destruct index as [x|l|a]; try reflexivity.
    unfold CatalogSourceBase.compute.
    unfold mbind, M_bind. rewrite (read_Some _ _ _ Hp). simpl.
    now destruct (_use_cache (self c)). }
  rewrite (bind_Ok _ _ _ _ _ Hforce). clear Hforce.
  rewrite (bind_Ok _ _ _ _ _ (read_Some _ _ _ Hp)).
  unfold CatalogSource.__len__.
  destruct (CatalogSource.size c) as [n|]; [|reflexivity].
  unfold mbind at 1. unfold M_bind, lift.
  destruct (negb _); [reflexivity|].
  destruct (force index) as [mask|l|l]; try reflexivity.
  unfold mbind at 1. unfold M_bind.
  rewrite (dict_comprehension_pure _ (subset_column parent c mask)).
  - now destruct (comprehend _ _ _).
  - intros key. unfold mbind, M_bind, subset_column, lift, mret, M_ret.
    rewrite (getitem_resolve _ _ _ _ Hp).
    destruct (resolve parent c key) as [x|e]; [|reflexivity].
    now destruct (da_getitem x mask).
Qed.

Lemma select_columns_eq h parent c sel :
  catalogs h !! parent = Some c ->
  select_columns parent sel h =
    let invalid :=
      List.filter (fun col => negb (bool_decide (col ∈ pyset (CatalogSourceBase.columns c))))
        (pyset sel) in
    if negb (Nat.eqb (length invalid) 0) then (Raise (KeyError_invalid_columns invalid), h)
    else
      match comprehend (whole_column parent c) sel [] with
      | Ok data =>
          derive parent (CatalogSource.size c) (comm (self c)) (_use_cache (self c)) data h
      | Raise e => (Raise e, h)
      end.
Proof.
  intros Hp. unfold select_columns.
  rewrite (bind_Ok _ _ _ _ _ (read_Some _ _ _ Hp)). simpl.
  destruct (negb _); [reflexivity|].
  unfold mbind at 1. unfold M_bind.
  rewrite (dict_comprehension_pure _ (whole_column parent c)).
  - now destruct (comprehend _ _ _).
  - intros key. unfold mbind, M_bind, whole_column, mret, M_ret.
    rewrite (getitem_resolve _ _ _ _ Hp).
    now destruct (resolve parent c key).
Qed.

Lemma copy_eq h parent c :
  catalogs h !! parent = Some c ->
  CatalogSource.copy parent h =
    match CatalogSource.size c with
    | None => (Ok CatalogSource.ValueError_object, h)
    | Some _ =>
        match comprehend (whole_column parent c) (CatalogSourceBase.columns c) [] with
        | Ok data =>
            match derive parent (CatalogSource.size c) (comm (self c)) (_use_cache (self c)) data h with
            | (Ok toret, h2) => (Ok (CatalogSource.copy_of toret), h2)
            | (Raise e, h2) => (Raise e, h2)
            end
        | Raise e => (Raise e, h)
        end
    end.
Proof.
  intros Hp. unfold CatalogSource.copy.
  rewrite (bind_Ok _ _ _ _ _ (read_Some _ _ _ Hp)).
  destruct (CatalogSource.size c) as [n|] eqn:Hn; [|reflexivity].
  unfold mbind at 1. unfold M_bind.
  rewrite (dict_comprehension_pure _ (whole_column parent c)).
  - destruct (comprehend _ _ _) as [data|e]; [|reflexivity].
    unfold derive, mbind, M_bind.
    destruct (CatalogSource._from_columns _ _ _ data h) as [[toret|e] h1]; [|reflexivity].
    now destruct (CatalogSourceBase.attrs_update toret parent h1) as [[[]|e] h2].
  - intros key. unfold mbind, M_bind, whole_column, mret, M_ret.
    rewrite (getitem_resolve _ _ _ _ Hp).
    now destruct (resolve parent c key).
Qed.

Lemma resolve_graph r r' c col x :
  resolve r c col = Ok x -> resolve r' c col = Ok (new_ColumnAccessor r' (Array (graph_of x))).
Proof.
  unfold resolve, mbind, result_bind.
  destruct (match _overrides (self c) !! col with Some _ => _ | None => _ end) as [y|e];
    [|discriminate].
  intros E. inversion E. reflexivity.
Qed.

Lemma find_parameters_None (names : list string) :
  (∀ name, name ∈ names -> name ∉ CatalogSource.parameters) ->
  List.find (fun name => bool_decide (name ∈ CatalogSource.parameters)) names = None.
Proof.
  induction names as [|name names' IH]; intros H; simpl; [reflexivity|].
  rewrite bool_decide_eq_false_2 by (apply H; left).
  apply IH. intros x Hx. apply H. now right.
Qed.

Lemma subset_column_rows parent c mask col v :
  subset_column parent c mask col = Ok v -> rows (numpy.sum mask) v.
Proof.
  unfold subset_column, da_getitem.
  destruct (resolve parent c col) as [x|e]; [|discriminate].
  destruct (Nat.eqb _ _); [|discriminate].
  intros E. inversion E. eexists. split; reflexivity.
Qed.

Lemma subset_column_Ok parent c mask col :
  consistent c (length mask) -> col ∈ CatalogSourceBase.columns c ->
  ∃ v, subset_column parent c mask col = Ok v.
Proof.
  intros Hc Hcol. destruct (Hc col Hcol) as (x & Hx & Hlen).
  unfold subset_column, da_getitem. rewrite (resolve_graph _ parent _ _ _ Hx). simpl.
  rewrite Hlen, Nat.eqb_refl. eauto.
Qed.

Lemma fresh_size size k uc data :
  CatalogSource.size (store_all (fresh size k uc) data).2 = size.
Proof.
  unfold CatalogSource.size. now destruct (store_all_frame (fresh size k uc) data) as (_ & -> & _).
Qed.

Lemma subset_returned_size h parent c index mask :
  catalogs h !! parent = Some c ->
  attrs_allocated h c ->
  CatalogSource.size c = Some (length mask) ->
  force index = BoolArray mask ->
  ∀ toret h2, get_catalog_subset parent index h = (Ok toret, h2) ->
    ∃ c', catalogs h2 !! toret = Some c'
          ∧ CatalogSource.size c' = Some (numpy.sum mask).
Proof.
  intros Hp Hal Hn Hmask toret h2.
  rewrite (subset_eq _ _ _ _ Hp), Hn, Hmask. simpl. rewrite Nat.eqb_refl. simpl.
  destruct (comprehend _ _ _) as [data|e]; [|discriminate].
  intros Hrun.
  destruct (derive_Ok _ _ _ _ _ _ _ _ _ Hp Hal Hrun) as (l1 & lp & d & _ & Ht & _).
  eexists. split; [exact Ht|]. apply fresh_size.
Qed.

Lemma subset_total h parent c index mask :
  catalogs h !! parent = Some c ->
  attrs_allocated h c ->
  CatalogSource.size c = Some (length mask) ->
  force index = BoolArray mask ->
  consistent c (length mask) ->
  passable c ->
  ∃ toret h2, get_catalog_subset parent index h = (Ok toret, h2).
Proof.
  intros Hp Hal Hn Hmask Hc Hpass.
  rewrite (subset_eq _ _ _ _ Hp), Hn, Hmask. simpl. rewrite Nat.eqb_refl. simpl.
  destruct (comprehend_Ok (subset_column parent c mask) (CatalogSourceBase.columns c) [])
    as [data Hdata].
  { intros key Hkey. now apply subset_column_Ok. }
  rewrite Hdata.
  pose proof (derive_outcome h parent c (Some (numpy.sum mask)) (comm (self c))
                (_use_cache (self c)) data Hp Hal) as Hout.
  simpl in Hout. rewrite find_parameters_None in Hout.
  - rewrite (store_all_Ok _ _ (numpy.sum mask)) in Hout.
    + destruct Hout as (toret & h2 & Hrun & _). eauto.
    + reflexivity.
    + eapply (comprehend_values (rows (numpy.sum mask))); [|constructor|exact Hdata].
      intros key v. apply subset_column_rows.
  - intros name Hname. apply Hpass.
    apply (comprehend_keys _ _ _ _ Hdata) in Hname as [Hname|Hname]; [|exact Hname].
    now apply elem_of_nil in Hname.
Qed.

(** C1: on a catalog of known size, with a boolean index of that length,
    any catalog that [get_catalog_subset] returns has as its size the
    number of [True] entries of the index; and a catalog is returned
    whenever every column of the parent has that many rows and can be
    passed by keyword. *)
Theorem subset_size h parent c index mask :
  catalogs h !! parent = Some c ->
  attrs_allocated h c ->
  CatalogSource.size c = Some (length mask) ->
  force index = BoolArray mask ->
  (∀ toret h2, get_catalog_subset parent index h = (Ok toret, h2) ->
     ∃ c', catalogs h2 !! toret = Some c'
           ∧ CatalogSource.size c' = Some (numpy.sum mask))
  ∧ (consistent c (length mask) -> passable c ->
     ∃ toret h2, get_catalog_subset parent index h = (Ok toret, h2)).
Proof.
  intros Hp Hal Hn Hmask. split.
  - exact (subset_returned_size h parent c index mask Hp Hal Hn Hmask).
  - exact (subset_total h parent c index mask Hp Hal Hn Hmask).
Qed.

Lemma comprehend_Raise {V} (g : string -> result V) keys : ∀ acc e,
  comprehend g keys acc = Raise e -> ∃ key, key ∈ keys ∧ g key = Raise e.
Proof.
  induction keys as [|key keys' IH]; intros acc e; simpl; [discriminate|].
  destruct (g key) as [v|e'] eqn:Hg.
  - intros E. destruct (IH _ _ E) as (k & Hk & Hgk). exists k. split; [now right | exact Hgk].
  - intros E. inversion E. subst. exists key. split; [left | exact Hg].
Qed.

Lemma resolve_unrelated r c col e : resolve r c col = Raise e -> unrelated e.
Proof.
  unfold resolve. destruct (_overrides (self c) !! col) as [x|]; [discriminate|].
  case_bool_decide as Hhard.
  - destruct (find_column_declared (class_of c) col) as [getter Hg].
    { now apply elem_of_find_columns. }
    unfold CatalogSourceBase.get_hardcolumn, mbind, result_bind. rewrite Hg.
    destruct (getter (self c)); [discriminate|].
    intros E. inversion E. now split.
  - intros E. inversion E. now split.
Qed.

Lemma subset_column_unrelated parent c mask col e :
  subset_column parent c mask col = Raise e -> unrelated e.
Proof.
  unfold subset_column, da_getitem.
  destruct (resolve parent c col) as [x|e'] eqn:Hx.
  - destruct (Nat.eqb _ _); [discriminate|]. intros E. inversion E. now split.
  - intros E. inversion E. subst. eapply resolve_unrelated, Hx.
Qed.

(** C6, as stated, fails: on a catalog of five rows an integer index of
    length two is refused for its length, not for its element type; and on
    a catalog whose size is not implemented the length of the catalog
    cannot be taken at all, so that no index is refused for its length. *)
Lemma subset_validation_order :
  numpy.dtype_of (force (IList [SInt 1; SInt 2])) ≠ dt_bool
  ∧ get_catalog_subset 0 (IList [SInt 1; SInt 2]) (one_catalog (Some 5) ∅)
      = (Raise (ValueError_slice_length 2 5), one_catalog (Some 5) ∅)
  ∧ kind_of (ValueError_slice_length 2 5) ≠ TypeMismatch
  ∧ get_catalog_subset 0 (IArray (BoolArray [true])) (one_catalog None ∅)
      = (Raise TypeError_len, one_catalog None ∅)
  ∧ kind_of TypeError_len ≠ LengthMismatch.
Proof. repeat split; try reflexivity; discriminate. Qed.

(** C6, amended: on a catalog of known size, an index of another length is
    refused with the error the specification calls LengthMismatch; an
    index of the right length whose elements are not boolean is refused
    with TypeMismatch; and for a boolean index of the right length neither
    of the two errors is raised, whatever else happens. *)
Theorem subset_validation h parent c n index :
  catalogs h !! parent = Some c ->
  attrs_allocated h c ->
  CatalogSource.size c = Some n ->
  (numpy.len (force index) ≠ n ->
     ∃ e, get_catalog_subset parent index h = (Raise e, h) ∧ kind_of e = LengthMismatch)
  ∧ (numpy.len (force index) = n ->
     numpy.dtype_of (force index) ≠ dt_bool ->
     ∃ e, get_catalog_subset parent index h = (Raise e, h) ∧ kind_of e = TypeMismatch)
  ∧ (numpy.len (force index) = n ->
     numpy.dtype_of (force index) = dt_bool ->
     ∀ e h2, get_catalog_subset parent index h = (Raise e, h2) ->
             kind_of e ≠ LengthMismatch ∧ kind_of e ≠ TypeMismatch).
Proof.
  intros Hp Hal Hn. rewrite (subset_eq _ _ _ _ Hp), Hn. split; [|split].
  - intros Hlen. apply Nat.eqb_neq in Hlen. rewrite Hlen. simpl. eauto.
  - intros Hlen Hdt. rewrite Hlen, Nat.eqb_refl. simpl.
    destruct (force index); [now destruct Hdt| |]; eauto.
  - intros Hlen Hdt e h2. rewrite Hlen, Nat.eqb_refl. simpl.
    destruct (force index) as [mask| |]; try discriminate.
    destruct (comprehend _ _ _) as [data|e'] eqn:Hdata.
    + pose proof (derive_outcome h parent c (Some (numpy.sum mask)) (comm (self c))
                    (_use_cache (self c)) data Hp Hal) as Hout.
      simpl in Hout. intros Hrun.
      destruct (List.find _ _) as [name|].
      * rewrite Hrun in Hout. inversion Hout. now split.
      * rewrite (store_all_Ok _ _ (numpy.sum mask)) in Hout.
        -- destruct Hout as (toret & h2' & Hrun' & _). congruence.
        -- reflexivity.
        -- eapply (comprehend_values (rows (numpy.sum mask))); [|constructor|exact Hdata].
           intros key v. apply subset_column_rows.
    + intros E. inversion E. subst.
      destruct (comprehend_Raise _ _ _ _ Hdata) as (key & _ & Hkey).
      eapply subset_column_unrelated, Hkey.
Qed.

(** C7 fails on the code: a catalog of two rows is given a column called
    "size", and the all-[False] index of length two is applied to it.  The
    column cannot be handed to [_from_columns], whose second parameter has
    that name, and the call ends in a [TypeError] instead of a catalog of
    size zero. *)
Theorem subset_fails_on_parameter_name :
  column_called_size (Heap [] []) =
    (Raise (TypeError_multiple_values "size"),
     Heap [Catalog CatalogSource_class
             (Instance (Some 2) (Some 2)
                {[ "size" := Array (from_array (IntArray [1; 2]%Z)) ]} None false world)]
          []).
Proof. vm_compute. reflexivity. Qed.

Lemma attrs_modify_spec h r c l d f :
  catalogs h !! r = Some c -> _attrs (self c) = Some l -> dicts h !! l = Some d ->
  attrs_modify r f h = (Ok tt, Heap (catalogs h) (<[l := f d]> (dicts h))).
Proof.
  intros Hr Hl Hd. unfold attrs_modify, CatalogSourceBase.attrs.
  unfold mbind, M_bind, mret, M_ret, read, read_dict, write_dict.
  rewrite Hr, Hl. simpl. now rewrite Hd.
Qed.

Lemma attrs_of_lookup h r c l :
  catalogs h !! r = Some c -> _attrs (self c) = Some l -> attrs_of h r = dicts h !! l.
Proof. intros Hr Hl. unfold attrs_of. rewrite Hr. simpl. now rewrite Hl. Qed.

Lemma derived_independent h parent c built h2 toret :
  derived h parent c built h2 toret ->
  independent_copy h2 parent toret (default ∅ (attrs_of h parent)).
Proof.
  intros (l1 & lp & d & Hne & Ht & Hp & Hl & Hd1 & Hdp & ->).
  set (d := default ∅ (attrs_of h parent)) in *.
  assert (Hat : ∀ ds, attrs_of (Heap (catalogs h2) ds) toret = ds !! l1).
  { intros ds. now apply (attrs_of_lookup (Heap (catalogs h2) ds) _ _ _ Ht). }
  assert (Hap : ∀ ds, attrs_of (Heap (catalogs h2) ds) parent = ds !! lp).
  { intros ds. now apply (attrs_of_lookup (Heap (catalogs h2) ds) _ _ _ Hp). }
  assert (Hlt1 : l1 < length (dicts h2)) by (eapply lookup_lt_Some, Hd1).
  assert (Hltp : lp < length (dicts h2)) by (eapply lookup_lt_Some, Hdp).
  split; [|split; [|split]].
  - now rewrite (attrs_of_lookup _ _ _ _ Ht eq_refl).
  - now rewrite (attrs_of_lookup _ _ _ _ Hp eq_refl).
  - intros f. eexists. split; [exact (attrs_modify_spec _ _ _ _ _ f Ht eq_refl Hd1)|].
    rewrite Hat, Hap. split.
    + now apply list_lookup_insert_eq.
    + now rewrite list_lookup_insert_ne.
  - intros f. eexists. split; [exact (attrs_modify_spec _ _ _ _ _ f Hp eq_refl Hdp)|].
    rewrite Hat, Hap. split.
    + now apply list_lookup_insert_eq.
    + rewrite list_lookup_insert_ne; [exact Hd1 | congruence].
Qed.

(** C5: a catalog obtained from [parent] by a row subset, by a selection
    of columns or by [copy] reads the attributes that [parent] had, from a
    dictionary of its own: a change made through the derived catalog is not
    seen through the parent, and a change made through the parent is not
    seen through the derived catalog. *)
Theorem derived_attrs_independent h parent c :
  catalogs h !! parent = Some c ->
  attrs_allocated h c ->
  let d := default ∅ (attrs_of h parent) in
  (∀ index toret h2,
     get_catalog_subset parent index h = (Ok toret, h2) -> independent_copy h2 parent toret d)
  ∧ (∀ sel toret h2,
       select_columns parent sel h = (Ok toret, h2) -> independent_copy h2 parent toret d)
  ∧ (∀ toret h2,
       CatalogSource.copy parent h = (Ok (CatalogSource.copy_of toret), h2) ->
       independent_copy h2 parent toret d).
Proof.
  intros Hp Hal d. split; [|split].
  - intros index toret h2. rewrite (subset_eq _ _ _ _ Hp).
    destruct (CatalogSource.size c) as [n|]; [|discriminate].
    destruct (negb _); [discriminate|].
    destruct (force index) as [mask| |]; try discriminate.
    destruct (comprehend _ _ _) as [data|e]; [|discriminate].
    intros Hrun. eapply derived_independent, derive_Ok; eassumption.
  - intros sel toret h2. rewrite (select_columns_eq _ _ _ _ Hp). simpl.
    destruct (negb _); [discriminate|].
    destruct (comprehend _ _ _) as [data|e]; [|discriminate].
    intros Hrun. eapply derived_independent, derive_Ok; eassumption.
  - intros toret h2. rewrite (copy_eq _ _ _ Hp).
    destruct (CatalogSource.size c) as [n|]; [|discriminate].
    destruct (comprehend _ _ _) as [data|e]; [|discriminate].
    destruct (derive _ _ _ _ data h) as [[toret'|e] h2'] eqn:Hrun; [|discriminate].
    intros E. inversion E. subst.
    eapply derived_independent, derive_Ok; eassumption.
Qed.

(** ** Derived catalogs: columns kept, and the empty selection *)

Ltac each_column H :=
  vm_compute in H;
  repeat (apply elem_of_cons in H as [->|H]);
  try (now apply elem_of_nil in H).

Ltac not_listed H :=
  vm_compute in H;
  repeat (apply elem_of_cons in H as [H|H]; [discriminate H|]);
  now apply elem_of_nil in H.

Lemma full_len n v : numpy.len (numpy.full n v) = n.
Proof. destruct v; simpl; apply repeat_length. Qed.

(** A catalog of the class [CatalogSource] itself, of known size, whose
    overrides all have that many rows: every column has that many rows. *)
Lemma CatalogSource_consistent c n :
  class_of c = CatalogSource_class ->
  CatalogSource.size c = Some n ->
  (∀ name x, _overrides (self c) !! name = Some x -> da.len (graph_of x) = n) ->
  consistent c n.
Proof.
  intros Hcls Hn Hov col Hcol. unfold resolve.
  destruct (_overrides (self c) !! col) as [x|] eqn:Hx.
  - eexists. split; [reflexivity|]. simpl. eapply Hov, Hx.
  - apply elem_of_columns in Hcol as [Hd|[x Hx']]; [|congruence].
    apply elem_of_find_columns in Hd.
    rewrite bool_decide_eq_true_2 by exact Hd.
    unfold CatalogSourceBase.get_hardcolumn, CatalogSource.size in *.
    rewrite Hcls in *.
    each_column Hd; simpl; unfold mbind, result_bind, constant_column; rewrite Hn;
      (eexists; split; [reflexivity | apply full_len]).
Qed.


Lemma derive_Ok_built h parent c size k uc data toret h2 :
  catalogs h !! parent = Some c ->
  attrs_allocated h c ->
  derive parent size k uc data h = (Ok toret, h2) ->
  (store_all (fresh size k uc) data).1 = Ok tt.
Proof.
  intros Hp Hal Hrun. pose proof (derive_outcome h parent c size k uc data Hp Hal) as Hout.
  simpl in Hout. destruct (List.find _ _) as [name|]; [congruence|].
  destruct (store_all _ data).1 as [[]|e]; [reflexivity|].
  destruct Hout as [h2' Hrun']. congruence.
Qed.

Lemma sum_repeat_false n : numpy.sum (repeat false n) = 0.
Proof. unfold numpy.sum. induction n as [|n IH]; simpl; [reflexivity | exact IH]. Qed.

(** The catalog that [get_catalog_subset] returns has every column of the
    parent, and each of its columns has as many rows as the catalog. *)
Lemma subset_columns h parent c index toret h2 :
  catalogs h !! parent = Some c ->
  attrs_allocated h c ->
  get_catalog_subset parent index h = (Ok toret, h2) ->
  ∃ c' n, catalogs h2 !! toret = Some c'
          ∧ CatalogSource.size c' = Some n
          ∧ consistent c' n
          ∧ ∀ col, col ∈ CatalogSourceBase.columns c -> col ∈ CatalogSourceBase.columns c'.
Proof.
  intros Hp Hal. rewrite (subset_eq _ _ _ _ Hp).
  destruct (CatalogSource.size c) as [n|]; [|discriminate].
  destruct (negb _); [discriminate|].
  destruct (force index) as [mask| |]; try discriminate.
  destruct (comprehend _ _ _) as [data|e] eqn:Hdata; [|discriminate].
  intros Hrun.
  pose proof (derive_Ok_built _ _ _ _ _ _ _ _ _ Hp Hal Hrun) as Hb.
  destruct (derive_Ok _ _ _ _ _ _ _ _ _ Hp Hal Hrun) as (l1 & lp & d & _ & Ht & _).
  set (built := (store_all (fresh (Some (numpy.sum mask)) (comm (self c))
                              (_use_cache (self c))) data).2) in *.
  assert (Hsize : CatalogSource.size built = Some (numpy.sum mask)) by apply fresh_size.
  exists (set_attrs l1 built), (numpy.sum mask).
  split; [exact Ht|]. split; [exact Hsize|]. split.
  - apply CatalogSource_consistent.
    + simpl. unfold built. now destruct (store_all_frame
        (fresh (Some (numpy.sum mask)) (comm (self c)) (_use_cache (self c))) data) as (-> & _).
    + exact Hsize.
    + simpl. apply store_all_lengths; [reflexivity|].
      intros name x Hx. simpl in Hx. now rewrite lookup_empty in Hx.
  - intros col Hcol. apply elem_of_columns. right. simpl.
    apply (store_all_overrides _ _ Hb). right.
    apply (comprehend_keys _ _ _ _ Hdata). now right.
Qed.

(** Selecting no row at all: on a catalog whose columns all have [n] rows
    and can be passed by keyword, the all-[False] index gives a catalog of
    size zero that has every column of the parent, each with no row. *)
Lemma subset_all_false h parent c n :
  catalogs h !! parent = Some c ->
  attrs_allocated h c ->
  CatalogSource.size c = Some n ->
  consistent c n ->
  passable c ->
  ∃ toret h2 c',
    get_catalog_subset parent (IArray (BoolArray (repeat false n))) h = (Ok toret, h2)
    ∧ catalogs h2 !! toret = Some c'
    ∧ CatalogSource.size c' = Some 0
    ∧ consistent c' 0
    ∧ ∀ col, col ∈ CatalogSourceBase.columns c -> col ∈ CatalogSourceBase.columns c'.
Proof.
  intros Hp Hal Hn Hc Hpass.
  assert (Hlen : length (repeat false n) = n) by apply repeat_length.
  rewrite <- Hlen in Hn, Hc.
  destruct (subset_total h parent c (IArray (BoolArray (repeat false n))) (repeat false n)
              Hp Hal Hn eq_refl Hc Hpass) as (toret & h2 & Hrun).
  destruct (subset_returned_size h parent c (IArray (BoolArray (repeat false n)))
              (repeat false n) Hp Hal Hn eq_refl toret h2 Hrun)
    as (c' & Hc' & Hsize).
  destruct (subset_columns _ _ _ _ _ _ Hp Hal Hrun) as (c'' & m & Hc'' & Hm & Hvalid & Hcols).
  assert (c'' = c') by congruence. subst c''.
  rewrite sum_repeat_false in Hsize.
  assert (m = 0) by congruence. subst m.
  exists toret, h2, c'. auto.
Qed.

(** ** The statements on a concrete catalog *)

Lemma survey_consistent c :
  catalogs survey !! 0 = Some c -> consistent c 4 ∧ passable c.
Proof.
  intros E. inversion E. subst c. clear E. split.
  - intros col Hcol. each_column Hcol; eexists; (split; [reflexivity | reflexivity]).
  - intros col Hcol Hpar. each_column Hcol; not_listed Hpar.
Qed.

Lemma subset_size_witness :
  ∃ toret h2 c',
    get_catalog_subset 0 (IList [SBool true; SBool false; SBool true; SBool false]) survey
      = (Ok toret, h2)
    ∧ catalogs h2 !! toret = Some c'
    ∧ CatalogSource.size c' = Some 2.
Proof.
  destruct (survey_consistent _ eq_refl) as [Hc Hpass].
  destruct (subset_size survey 0 _ (IList [SBool true; SBool false; SBool true; SBool false])
              [true; false; true; false] eq_refl (ex_intro _ _ eq_refl) eq_refl eq_refl)
    as [Hsize Htotal].
  destruct (Htotal Hc Hpass) as (toret & h2 & Hrun).
  destruct (Hsize toret h2 Hrun) as (c' & Hc' & Hn).
  exists toret, h2, c'. auto.
Defined.

Lemma subset_validation_witness :
  (∃ e, get_catalog_subset 0 (IList [SBool true; SBool false]) survey = (Raise e, survey)
        ∧ kind_of e = LengthMismatch)
  ∧ (∃ e, get_catalog_subset 0 (IArray (IntArray [0; 1; 2; 3]%Z)) survey = (Raise e, survey)
          ∧ kind_of e = TypeMismatch).
Proof.
  destruct (subset_validation survey 0 _ 4 (IList [SBool true; SBool false])
              eq_refl (ex_intro _ _ eq_refl) eq_refl) as (Hlength & _ & _).
  destruct (subset_validation survey 0 _ 4 (IArray (IntArray [0; 1; 2; 3]%Z))
              eq_refl (ex_intro _ _ eq_refl) eq_refl) as (_ & Htype & _).
  split.
  - apply Hlength. vm_compute. discriminate.
  - apply Htype; [reflexivity | discriminate].
Defined.

Lemma derived_attrs_independent_witness :
  let index := IArray (BoolArray [true; false; true; false]) in
  get_catalog_subset 0 index survey = (Ok 1, (get_catalog_subset 0 index survey).2)
  ∧ independent_copy (get_catalog_subset 0 index survey).2 0 1
      {[ "BoxSize" := AScalar (SInt 100) ]}.
Proof.
  intros index.
  assert (Hrun : get_catalog_subset 0 index survey
                 = (Ok 1, (get_catalog_subset 0 index survey).2))
    by (vm_compute; reflexivity).
  split; [exact Hrun|].
  destruct (derived_attrs_independent survey 0 _ eq_refl (ex_intro _ _ eq_refl))
    as (Hsubset & _ & _).
  exact (Hsubset index 1 _ Hrun).
Defined.

(** ** The column registry: [find_column] against [find_columns] *)

Lemma find_member_column_names dict col getter :
  find_member dict col = Some getter -> col ∈ column_names dict.
Proof.
  induction dict as [|[key [name g|]] dict' IH]; simpl; [discriminate| |].
  - destruct (String.eqb name col) eqn:E.
    + intros _. apply String.eqb_eq in E. subst. left.
    + intros H. right. now apply IH.
  - exact IH.
Qed.

Lemma find_column_Ok_declares cls col getter :
  find_column cls col = Ok getter -> declares cls col.
Proof.
  revert col getter. induction cls as [name dict bases IH] using pyclass_induction.
  intros col getter. simpl.
  destruct (find_member dict col) as [g|] eqn:Hm.
  - intros _. apply find_member_column_names in Hm.
    apply elem_of_column_names in Hm as (key & g' & Hin). eapply declares_here, Hin.
  - induction bases as [|b bases' IHbases]; [discriminate|].
    apply Forall_cons in IH as [IHb IHrest].
    destruct (find_column b col) as [g|e] eqn:Hb.
    + intros _. eapply declares_base; [left|]. eapply IHb, Hb.
    + intros H. specialize (IHbases IHrest H). inversion IHbases; subst.
      * eapply declares_here. eassumption.
      * eapply declares_base; [right; eassumption | assumption].
Qed.

Lemma find_column_Raise cls col e :
  find_column cls col = Raise e ->
  e = AttributeError_find_column col (match cls with Class name _ _ => name end).
Proof.
  destruct cls as [name dict bases]. simpl.
  destruct (find_member dict col); [discriminate|].
  induction bases as [|b bases' IH]; simpl.
  - intros E. now inversion E.
  - destruct (find_column b col); [discriminate | exact IH].
Qed.

(** [find_columns] and [find_column] agree on every class: a name is listed
    by [find_columns] exactly when [find_column] returns a function for
    it, and for every other name [find_column] raises the
    [AttributeError] that names the class it was called on, not one of
    the bases searched on the way. *)
Theorem find_column_agrees cls col :
  (col ∈ find_columns cls ↔ ∃ getter, find_column cls col = Ok getter)
  ∧ (col ∉ find_columns cls ↔
     find_column cls col
       = Raise (AttributeError_find_column col (match cls with Class name _ _ => name end))).
Proof.
  assert (Hiff : col ∈ find_columns cls ↔ ∃ getter, find_column cls col = Ok getter).
  { rewrite elem_of_find_columns. split.
    - apply find_column_declared.
    - intros [getter Hg]. eapply find_column_Ok_declares, Hg. }
  split; [exact Hiff|]. rewrite Hiff. split.
  - intros Hno. destruct (find_column cls col) as [g|e] eqn:E.
    + destruct Hno. eauto.
    + now rewrite (find_column_Raise _ _ _ E).
  - intros E [g Hg]. congruence.
Qed.

Ltac listed := apply (bool_decide_unpack _); vm_compute; exact I.
Ltac unlisted := apply (proj1 (bool_decide_eq_false _)); vm_compute; reflexivity.

Lemma find_column_agrees_witness :
  (∃ getter, find_column FileCatalog_class "Weight" = Ok getter)
  ∧ find_column FileCatalog_class "Mass"
      = Raise (AttributeError_find_column "Mass" "FileCatalog").
Proof.
  split.
  - apply (proj1 (find_column_agrees FileCatalog_class "Weight")). listed.
  - apply (proj2 (find_column_agrees FileCatalog_class "Mass")). unlisted.
Defined.

(** ** Assignment to a [CatalogSource] *)

Lemma stored_column_array c v :
  nonscalar v ->
  stored_column c v =
    match CatalogSource.size c, len_value v, CatalogSourceBase.make_column v with
    | Some n, Ok l, Ok x => if Nat.eqb l n then Ok x else Raise (AssertionError_column_size n)
    | None, _, Ok x => Ok x
    | _, _, _ => Raise TypeError_from_array
    end.
Proof.
  destruct v as [s|a|x]; simpl; [tauto| |]; intros _; unfold stored_column;
    destruct (CatalogSource.size c) as [n|]; unfold mbind, result_bind; simpl;
    try reflexivity; now destruct (Nat.eqb _ n).
Qed.

(** Assigning an array or a dask array of [l] rows to a column of a
    [CatalogSource]: with a known size [n] the assignment goes through
    when [l = n] and otherwise fails the length assertion, leaving the
    heap as it was; while the size is not implemented any length is
    accepted. *)
Theorem setitem_length_check h r c col v l :
  catalogs h !! r = Some c ->
  len_value v = Ok l ->
  match CatalogSource.size c with
  | Some n =>
      if decide (l = n)
      then ∃ h', CatalogSource.__setitem__ r col v h = (Ok tt, h')
      else CatalogSource.__setitem__ r col v h = (Raise (AssertionError_column_size n), h)
           ∧ kind_of (AssertionError_column_size n) = LengthMismatch
  | None => ∃ h', CatalogSource.__setitem__ r col v h = (Ok tt, h')
  end.
Proof.
  intros Hr Hl. rewrite (setitem_stored _ _ _ _ _ Hr).
  assert (Hv : nonscalar v) by (destruct v; [discriminate | exact I | exact I]).
  rewrite (stored_column_array _ _ Hv), Hl.
  assert (Hm : ∃ x, CatalogSourceBase.make_column v = Ok x)
    by (destruct v; [destruct Hv | eauto | eauto]).
  destruct Hm as [x ->].
  destruct (CatalogSource.size c) as [n|]; [|eauto].
  destruct (decide (l = n)) as [->|Hne].
  - rewrite Nat.eqb_refl. eauto.
  - apply Nat.eqb_neq in Hne. rewrite Hne. auto.
Qed.

Lemma setitem_length_check_witness :
  (∃ h', CatalogSource.__setitem__ 0 "Charge" (VArray (IntArray [1; 2; 3; 4]%Z)) survey
          = (Ok tt, h'))
  ∧ CatalogSource.__setitem__ 0 "Charge" (VArray (IntArray [1; 2; 3]%Z)) survey
      = (Raise (AssertionError_column_size 4), survey).
Proof.
  split.
  - exact (setitem_length_check survey 0 _ "Charge" (VArray (IntArray [1; 2; 3; 4]%Z)) 4
             eq_refl eq_refl).
  - exact (proj1 (setitem_length_check survey 0 _ "Charge" (VArray (IntArray [1; 2; 3]%Z)) 3
                    eq_refl eq_refl)).
Defined.

Lemma columns_set_overrides c col x name :
  name ∈ CatalogSourceBase.columns (set_overrides (<[col := x]> (_overrides (self c))) c)
  ↔ name = col ∨ name ∈ CatalogSourceBase.columns c.
Proof.
  rewrite !elem_of_columns. simpl.
  destruct (decide (col = name)) as [->|Hne].
  - rewrite lookup_insert_eq. split; [auto|]. intros _. right. eauto.
  - rewrite lookup_insert_ne by exact Hne. split; [tauto|].
    intros [H|H]; [congruence | exact H].
Qed.

(** Assignment keeps a catalog well formed: on a catalog of size [n] whose
    stored columns all have [n] rows, an assignment that goes through
    leaves the size as it was and every stored column with [n] rows; only
    the assigned name changes, the columns are the old ones and the
    assigned name, and no other catalog and no [attrs] dictionary is
    touched. *)
Theorem setitem_invariant h r c col v n h' :
  catalogs h !! r = Some c ->
  CatalogSource.size c = Some n ->
  sized c n ->
  CatalogSource.__setitem__ r col v h = (Ok tt, h') ->
  ∃ c', catalogs h' !! r = Some c'
        ∧ CatalogSource.size c' = Some n
        ∧ sized c' n
        ∧ (∀ name, name ≠ col -> _overrides (self c') !! name = _overrides (self c) !! name)
        ∧ (∀ name, name ∈ CatalogSourceBase.columns c'
                   ↔ name = col ∨ name ∈ CatalogSourceBase.columns c)
        ∧ (∀ other, other ≠ r -> catalogs h' !! other = catalogs h !! other)
        ∧ dicts h' = dicts h.
Proof.
  intros Hr Hn Hs E. rewrite (setitem_stored _ _ _ _ _ Hr) in E.
  destruct (stored_column c v) as [x|e] eqn:Hx; [|discriminate].
  inversion E. subst h'. clear E. eexists. simpl.
  split; [eapply lookup_write, Hr|]. split; [exact Hn|]. split; [|split; [|split; [|split]]].
  - intros name y. simpl. destruct (decide (col = name)) as [->|Hne].
    + rewrite lookup_insert_eq. intros E. inversion E. subst.
      eapply stored_column_len; eassumption.
    + rewrite lookup_insert_ne by exact Hne. apply Hs.
  - intros name Hne. simpl. now rewrite lookup_insert_ne.
  - intros name. apply columns_set_overrides.
  - intros other Hne. now rewrite list_lookup_insert_ne.
  - reflexivity.
Qed.

Lemma survey_sized c : catalogs survey !! 0 = Some c -> sized c 4.
Proof.
  intros E. inversion E. subst c. clear E. intros name x. simpl.
  intros H. apply lookup_singleton_Some in H as [_ <-]. reflexivity.
Qed.

Lemma setitem_invariant_witness :
  let h' := (CatalogSource.__setitem__ 0 "Charge" (VScalar (SInt 1)) survey).2 in
  ∃ c', catalogs h' !! 0 = Some c'
        ∧ CatalogSource.size c' = Some 4
        ∧ sized c' 4
        ∧ "Charge" ∈ CatalogSourceBase.columns c'
        ∧ "Mass" ∈ CatalogSourceBase.columns c'.
Proof.
  intros h'.
  destruct (setitem_invariant survey 0 _ "Charge" (VScalar (SInt 1)) 4 h'
              eq_refl eq_refl (survey_sized _ eq_refl) eq_refl)
    as (c' & Hc' & Hsize & Hsized & _ & Hcols & _).
  exists c'. split; [exact Hc'|]. split; [exact Hsize|]. split; [exact Hsized|].
  split; apply Hcols; [now left | right; apply (bool_decide_unpack _); vm_compute; exact I].
Defined.

(** ** What derived catalogs hold *)

Lemma stored_column_size_only c c' v :
  CatalogSource.size c = CatalogSource.size c' -> stored_column c v = stored_column c' v.
Proof. intros E. unfold stored_column. now rewrite E. Qed.

Lemma stored_column_dask_inv c y x : stored_column c (VDask y) = Ok x -> x = y.
Proof.
  unfold stored_column. destruct (CatalogSource.size c) as [n|]; unfold mbind, result_bind; simpl.
  - destruct (Nat.eqb _ n); [|discriminate]. intros E. now inversion E.
  - intros E. now inversion E.
Qed.

Lemma store_all_other c data k :
  k ∉ data.*1 ->
  _overrides (self (store_all c data).2) !! k = _overrides (self c) !! k.
Proof.
  revert c. induction data as [|[k0 v0] data' IH]; intros c Hk; simpl; [reflexivity|].
  simpl in Hk. apply not_elem_of_cons in Hk as [Hne Hk].
  destruct (stored_column c v0) as [x|e]; [|reflexivity].
  rewrite (IH _ Hk). simpl. now rewrite lookup_insert_ne.
Qed.

Lemma store_all_lookup c data :
  NoDup data.*1 ->
  (store_all c data).1 = Ok tt ->
  ∀ k v, (k, v) ∈ data ->
    ∃ x, stored_column c v = Ok x ∧ _overrides (self (store_all c data).2) !! k = Some x.
Proof.
  revert c. induction data as [|[k0 v0] data' IH]; intros c Hnd Hok k v Hin; simpl in *.
  - now apply elem_of_nil in Hin.
  - apply NoDup_cons in Hnd as [Hk0 Hnd].
    destruct (stored_column c v0) as [x0|e] eqn:Hx0; [|discriminate].
    set (c' := set_overrides (<[k0 := x0]> (_overrides (self c))) c) in *.
    apply elem_of_cons in Hin as [E|Hin].
    + inversion E. subst k v. exists x0. split; [exact Hx0|].
      rewrite (store_all_other c' data' k0 Hk0). simpl. apply lookup_insert_eq.
    + destruct (IH c' Hnd Hok k v Hin) as (x & Hx & Hlook).
      exists x. split; [|exact Hlook].
      now rewrite (stored_column_size_only c c' v).
Qed.

Lemma NoDup_dict_setitem {V} (k : string) (v : V) d :
  NoDup d.*1 -> NoDup (dict_setitem k v d).*1.
Proof.
  induction d as [|[k' v'] d' IH]; simpl; intros Hnd.
  - apply NoDup_singleton.
  - apply NoDup_cons in Hnd as [Hk' Hnd]. destruct (String.eqb k k') eqn:E; simpl.
    + apply String.eqb_eq in E. subst k'. now apply NoDup_cons.
    + apply NoDup_cons. split; [|now apply IH].
      rewrite elem_of_dict_setitem_keys. intros [->|H]; [|contradiction].
      now rewrite String.eqb_refl in E.
Qed.

Lemma elem_of_dict_setitem {V} (k : string) (v : V) d kv :
  kv ∈ dict_setitem k v d -> kv = (k, v) ∨ kv ∈ d.
Proof.
  induction d as [|[k' v'] d' IH]; simpl.
  - intros H. apply list_elem_of_singleton in H. now left.
  - destruct (String.eqb k k').
    + intros H. apply elem_of_cons in H as [H|H]; [now left | right; now right].
    + intros H. apply elem_of_cons in H as [H|H]; [right; subst; left|].
      destruct (IH H) as [E|E]; [now left | right; now right].
Qed.

Lemma comprehend_entries {V} (g : string -> result V) keys : ∀ acc d,
  comprehend g keys acc = Ok d ->
  NoDup acc.*1 ->
  (∀ k v, (k, v) ∈ acc -> g k = Ok v) ->
  NoDup d.*1 ∧ ∀ k v, (k, v) ∈ d -> g k = Ok v.
Proof.
  induction keys as [|key keys' IH]; intros acc d; simpl.
  - intros E. inversion E. subst. auto.
  - destruct (g key) as [v0|e] eqn:Hg; [|discriminate].
    intros E Hnd Hacc. apply (IH _ _ E).
    + now apply NoDup_dict_setitem.
    + intros k v Hin. apply elem_of_dict_setitem in Hin as [Heq|Hin].
      * inversion Heq. now subst.
      * now apply Hacc.
Qed.

Lemma built_lookup (g : string -> result value) keys data c col :
  comprehend g keys [] = Ok data ->
  (store_all c data).1 = Ok tt ->
  col ∈ keys ->
  ∃ v x, g col = Ok v ∧ stored_column c v = Ok x
         ∧ _overrides (self (store_all c data).2) !! col = Some x.
Proof.
  intros Hdata Hok Hcol.
  destruct (comprehend_entries g keys [] data Hdata) as [Hnd Hent].
  { constructor. } { intros k v H. now apply elem_of_nil in H. }
  assert (Hk : col ∈ data.*1) by (apply (comprehend_keys _ _ _ _ Hdata); now right).
  apply list_elem_of_fmap in Hk as ([k v] & -> & Hin). simpl.
  destruct (store_all_lookup c data Hnd Hok k v Hin) as (x & Hx & Hlook).
  exists v, x. auto using Hent.
Qed.

Lemma getitem_built h r built l col x :
  catalogs h !! r = Some (set_attrs l built) ->
  _overrides (self built) !! col = Some x ->
  CatalogSourceBase.__getitem__ r col h = (Ok (new_ColumnAccessor r x), h).
Proof.
  intros Hr Hx. rewrite (getitem_resolve _ _ _ _ Hr).
  now rewrite (resolve_override r (set_attrs l built) col x).
Qed.

Lemma subset_stored h parent c index toret h2 :
  catalogs h !! parent = Some c ->
  attrs_allocated h c ->
  get_catalog_subset parent index h = (Ok toret, h2) ->
  ∃ mask c', force index = BoolArray mask
    ∧ CatalogSource.size c = Some (length mask)
    ∧ catalogs h2 !! toret = Some c'
    ∧ ∀ col, col ∈ CatalogSourceBase.columns c ->
        ∃ x, resolve parent c col = Ok x
           ∧ da.len (graph_of x) = length mask
           ∧ _overrides (self c') !! col = Some (Array (select (graph_of x) mask)).
Proof.
  intros Hp Hal. rewrite (subset_eq _ _ _ _ Hp).
  destruct (CatalogSource.size c) as [n|]; [|discriminate].
  destruct (negb _) eqn:Hn; [discriminate|].
  destruct (force index) as [mask| |]; try discriminate.
  destruct (comprehend _ _ _) as [data|e] eqn:Hdata; [|discriminate].
  intros Hrun.
  pose proof (derive_Ok_built _ _ _ _ _ _ _ _ _ Hp Hal Hrun) as Hb.
  destruct (derive_Ok _ _ _ _ _ _ _ _ _ Hp Hal Hrun) as (l1 & lp & d & _ & Ht & _).
  eexists mask, _. split; [reflexivity|]. split.
  { apply negb_false_iff, Nat.eqb_eq in Hn. simpl in Hn. now rewrite Hn. }
  split; [exact Ht|]. intros col Hcol.
  destruct (built_lookup _ _ _ _ col Hdata Hb Hcol) as (v & y & Hv & Hy & Hlook).
  unfold subset_column, da_getitem in Hv.
  destruct (resolve parent c col) as [x|e] eqn:Hx; [|discriminate].
  destruct (Nat.eqb (length mask) (da.len (graph_of x))) eqn:Hlen; [|discriminate].
  assert (Ev : v = VDask (Array (select (graph_of x) mask))) by congruence.
  subst v. apply stored_column_dask_inv in Hy. subst y.
  apply Nat.eqb_eq in Hlen. exists x. split; [reflexivity|]. split; [congruence | exact Hlook].
Qed.

(** What a row subset holds: when [get_catalog_subset] returns, the index
    was a boolean array, and every column of the parent is a column of
    the result whose graph is the parent's column restricted to the mask;
    it computes to the rows of the parent's column that the mask
    selects. *)
Theorem subset_content h parent c index toret h2 :
  catalogs h !! parent = Some c ->
  attrs_allocated h c ->
  get_catalog_subset parent index h = (Ok toret, h2) ->
  ∃ mask, force index = BoolArray mask
    ∧ ∀ col, col ∈ CatalogSourceBase.columns c ->
        ∃ x y, CatalogSourceBase.__getitem__ parent col h = (Ok x, h)
             ∧ da.len (graph_of x) = length mask
             ∧ CatalogSourceBase.__getitem__ toret col h2 = (Ok y, h2)
             ∧ graph_of y = select (graph_of x) mask
             ∧ ColumnAccessor_compute y h2
                 = (Ok (One (numpy.getitem (da.evaluate (graph_of x)) mask)), h2).
Proof.
  intros Hp Hal Hrun.
  destruct (subset_stored _ _ _ _ _ _ Hp Hal Hrun) as (mask & c' & Hmask & _ & Ht & Hcols).
  exists mask. split; [exact Hmask|]. intros col Hcol.
  destruct (Hcols col Hcol) as (x & Hx & Hlen & Hlook).
  exists x, (new_ColumnAccessor toret (Array (select (graph_of x) mask))).
  split; [now rewrite (getitem_resolve _ _ _ _ Hp), Hx|]. split; [exact Hlen|].
  split.
  - rewrite (getitem_resolve _ _ _ _ Ht). now rewrite (resolve_override _ _ _ _ Hlook).
  - split; [reflexivity|]. now rewrite (compute_accessor _ _ _ _ Ht).
Qed.

Lemma subset_content_witness :
  let index := IArray (BoolArray [true; false; true; false]) in
  let h2 := (get_catalog_subset 0 index survey).2 in
  ∃ x y, CatalogSourceBase.__getitem__ 0 "Mass" survey = (Ok x, survey)
       ∧ CatalogSourceBase.__getitem__ 1 "Mass" h2 = (Ok y, h2)
       ∧ graph_of y = select (graph_of x) [true; false; true; false]
       ∧ ColumnAccessor_compute y h2
           = (Ok (One (numpy.getitem (da.evaluate (graph_of x)) [true; false; true; false])), h2).
Proof.
  intros index h2.
  destruct (subset_content survey 0 _ index 1 h2 eq_refl (ex_intro _ _ eq_refl))
    as (mask & Hmask & Hcols); [vm_compute; reflexivity|].
  injection Hmask as <-.
  destruct (Hcols "Mass") as (x & y & Hx & _ & Hy & Hg & Hv); [listed|].
  exists x, y. auto.
Defined.

Lemma store_all_frame_more c cols :
  _csize (self (store_all c cols).2) = _csize (self c)
  ∧ _use_cache (self (store_all c cols).2) = _use_cache (self c)
  ∧ comm (self (store_all c cols).2) = comm (self c).
Proof.
  revert c. induction cols as [|[name v] cols' IH]; intros c; simpl; [done|].
  destruct (stored_column c v); [|done].
  destruct (IH (set_overrides (<[name:=x]> (_overrides (self c))) c)) as (-> & -> & ->).
  done.
Qed.

Lemma declares_CatalogSource col :
  declares CatalogSource_class col ↔ col ∈ default_columns.
Proof. rewrite <- elem_of_find_columns. reflexivity. Qed.

Lemma derive_content h parent c size k uc (g : string -> result value) keys data toret h2 :
  catalogs h !! parent = Some c ->
  attrs_allocated h c ->
  comprehend g keys [] = Ok data ->
  derive parent size k uc data h = (Ok toret, h2) ->
  ∃ c', catalogs h2 !! toret = Some c'
    ∧ class_of c' = CatalogSource_class
    ∧ CatalogSource.size c' = size
    ∧ _csize (self c') = allreduce k <$> size
    ∧ comm (self c') = k
    ∧ _use_cache (self c') = uc
    ∧ (∀ col, col ∈ CatalogSourceBase.columns c' ↔ col ∈ keys ∨ col ∈ default_columns)
    ∧ (∀ col, col ∈ keys ->
         ∃ v x, g col = Ok v ∧ stored_column (fresh size k uc) v = Ok x
                ∧ _overrides (self c') !! col = Some x).
Proof.
  intros Hp Hal Hdata Hrun.
  pose proof (derive_Ok_built _ _ _ _ _ _ _ _ _ Hp Hal Hrun) as Hb.
  destruct (derive_Ok _ _ _ _ _ _ _ _ _ Hp Hal Hrun) as (l1 & lp & d & _ & Ht & _).
  set (built := (store_all (fresh size k uc) data).2) in *.
  destruct (store_all_frame (fresh size k uc) data) as (Hcls & Hsize & _).
  destruct (store_all_frame_more (fresh size k uc) data) as (Hcs & Huc & Hcomm).
  fold built in Hcls, Hsize, Hcs, Huc, Hcomm.
  exists (set_attrs l1 built). simpl. repeat split; try assumption.
  - intros Hcol. apply elem_of_columns in Hcol as [Hd|Ho]; simpl in *.
    + right. rewrite Hcls in Hd. now apply declares_CatalogSource.
    + left. apply (store_all_overrides _ _ Hb) in Ho as [[x Hx]|Ho].
      * simpl in Hx. now rewrite lookup_empty in Hx.
      * apply (comprehend_keys _ _ _ _ Hdata) in Ho as [Ho|Ho]; [|exact Ho].
        now apply elem_of_nil in Ho.
  - intros [Hk|Hdflt]; apply elem_of_columns; simpl.
    + right. apply (store_all_overrides _ _ Hb). right.
      apply (comprehend_keys _ _ _ _ Hdata). now right.
    + left. rewrite Hcls. now apply declares_CatalogSource.
  - intros col Hcol. now apply (built_lookup g keys data).
Qed.

(** The catalog returned by [get_catalog_subset] is a plain
    [CatalogSource], whatever the class of the parent; its collective size
    is the all-reduce of the number of selected rows over the parent's
    communicator, it has the parent's communicator and cache setting, and
    its columns are those of the parent together with the three default
    columns. *)
Theorem subset_bookkeeping h parent c index toret h2 :
  catalogs h !! parent = Some c ->
  attrs_allocated h c ->
  get_catalog_subset parent index h = (Ok toret, h2) ->
  ∃ mask c', force index = BoolArray mask
    ∧ catalogs h2 !! toret = Some c'
    ∧ class_of c' = CatalogSource_class
    ∧ _csize (self c') = Some (allreduce (comm (self c)) (numpy.sum mask))
    ∧ comm (self c') = comm (self c)
    ∧ _use_cache (self c') = _use_cache (self c)
    ∧ (∀ col, col ∈ CatalogSourceBase.columns c'
              ↔ col ∈ CatalogSourceBase.columns c ∨ col ∈ default_columns).
Proof.
  intros Hp Hal. rewrite (subset_eq _ _ _ _ Hp).
  destruct (CatalogSource.size c) as [n|]; [|discriminate].
  destruct (negb _); [discriminate|].
  destruct (force index) as [mask| |]; try discriminate.
  destruct (comprehend _ _ _) as [data|e] eqn:Hdata; [|discriminate].
  intros Hrun.
  destruct (derive_content _ _ _ _ _ _ _ _ _ _ _ Hp Hal Hdata Hrun)
    as (c' & Hc' & Hcls & _ & Hcs & Hcomm & Huc & Hcols & _).
  exists mask, c'. auto 10.
Qed.

Lemma subset_bookkeeping_witness :
  let index := IArray (BoolArray [true; false; true; false]) in
  let h2 := (get_catalog_subset 0 index survey).2 in
  ∃ c', catalogs h2 !! 1 = Some c'
        ∧ class_of c' = CatalogSource_class
        ∧ _csize (self c') = Some 2
        ∧ ∀ col, col ∈ CatalogSourceBase.columns c' ↔ col ∈ ["Mass"; "Selection"; "Value"; "Weight"].
Proof.
  intros index h2.
  destruct (subset_bookkeeping survey 0 _ index 1 h2 eq_refl (ex_intro _ _ eq_refl))
    as (mask & c' & Hmask & Hc' & Hcls & Hcs & _ & _ & Hcols); [vm_compute; reflexivity|].
  injection Hmask as <-.
  exists c'. split; [exact Hc'|]. split; [exact Hcls|]. split; [exact Hcs|].
  intros col. rewrite Hcols. unfold default_columns.
  change (CatalogSourceBase.columns _) with ["Mass"; "Selection"; "Value"; "Weight"].
  rewrite !elem_of_cons. tauto.
Defined.

(** What [copy] holds: the copy is another object of the same size; its
    columns are those of the original and the default columns; under each
    name of the original it stores the very accessor read from the
    original, with its reference to the original catalog, so that no
    data is copied; and reading the name from the copy computes to the
    values of the original. *)
Theorem copy_content h parent c toret h2 :
  catalogs h !! parent = Some c ->
  attrs_allocated h c ->
  CatalogSource.copy parent h = (Ok (CatalogSource.copy_of toret), h2) ->
  ∃ c', catalogs h2 !! toret = Some c'
    ∧ toret ≠ parent
    ∧ CatalogSource.size c' = CatalogSource.size c
    ∧ (∀ col, col ∈ CatalogSourceBase.columns c'
              ↔ col ∈ CatalogSourceBase.columns c ∨ col ∈ default_columns)
    ∧ ∀ col, col ∈ CatalogSourceBase.columns c ->
        ∃ x, CatalogSourceBase.__getitem__ parent col h = (Ok x, h)
           ∧ _overrides (self c') !! col = Some x
           ∧ CatalogSourceBase.__getitem__ toret col h2
               = (Ok (new_ColumnAccessor toret x), h2)
           ∧ ColumnAccessor_compute (new_ColumnAccessor toret x) h2
               = (Ok (One (da.evaluate (graph_of x))), h2).
Proof.
  intros Hp Hal. rewrite (copy_eq _ _ _ Hp).
  destruct (CatalogSource.size c) as [n|] eqn:Hn; [|discriminate].
  destruct (comprehend _ _ _) as [data|e] eqn:Hdata; [|discriminate].
  destruct (derive _ _ _ _ data h) as [[toret'|e] h2'] eqn:Hrun; [|discriminate].
  intros E. inversion E. subst toret' h2'. clear E.
  destruct (derive_content _ _ _ _ _ _ _ _ _ _ _ Hp Hal Hdata Hrun)
    as (c' & Hc' & Hcls & Hsize & _ & _ & _ & Hcols & Hcontent).
  destruct (derive_Ok _ _ _ _ _ _ _ _ _ Hp Hal Hrun) as (l1 & lp & d & Hne & _).
  exists c'. repeat split; try assumption; try apply Hcols.
  intros col Hcol. destruct (Hcontent col Hcol) as (v & y & Hv & Hy & Hlook).
  unfold whole_column in Hv. destruct (resolve parent c col) as [x|e] eqn:Hx; [|discriminate].
  inversion Hv. subst v. apply stored_column_dask_inv in Hy. subst y.
  exists x. split; [now rewrite (getitem_resolve _ _ _ _ Hp), Hx|]. split; [exact Hlook|].
  split.
  - rewrite (getitem_resolve _ _ _ _ Hc'). now rewrite (resolve_override _ _ _ _ Hlook).
  - now rewrite (compute_accessor _ _ _ _ Hc').
Qed.

Lemma copy_content_witness :
  let h2 := (CatalogSource.copy 0 survey).2 in
  ∃ c' x, catalogs h2 !! 1 = Some c'
          ∧ CatalogSource.size c' = Some 4
          ∧ CatalogSourceBase.__getitem__ 0 "Mass" survey = (Ok x, survey)
          ∧ _overrides (self c') !! "Mass" = Some x
          ∧ ColumnAccessor_compute (new_ColumnAccessor 1 x) h2
              = (Ok (One (da.evaluate (graph_of x))), h2).
Proof.
  intros h2.
  destruct (copy_content survey 0 _ 1 h2 eq_refl (ex_intro _ _ eq_refl))
    as (c' & Hc' & _ & Hsize & _ & Hcols); [vm_compute; reflexivity|].
  destruct (Hcols "Mass") as (x & Hx & Hlook & _ & Hv); [listed|].
  exists c', x. auto.
Defined.

(** Selecting columns by a list of names: when the selection returns,
    every name was a column of the parent; the result has the size of the
    parent, its columns are the selected ones and the default columns,
    nothing else is stored in it, and each selected column computes to the
    values it has in the parent. *)
Theorem select_columns_content h parent c sel toret h2 :
  catalogs h !! parent = Some c ->
  attrs_allocated h c ->
  select_columns parent sel h = (Ok toret, h2) ->
  (∀ col, col ∈ sel -> col ∈ CatalogSourceBase.columns c)
  ∧ ∃ c', catalogs h2 !! toret = Some c'
    ∧ CatalogSource.size c' = CatalogSource.size c
    ∧ (∀ col, col ∈ CatalogSourceBase.columns c' ↔ col ∈ sel ∨ col ∈ default_columns)
    ∧ (∀ col, col ∉ sel -> _overrides (self c') !! col = None)
    ∧ ∀ col, col ∈ sel ->
        ∃ x, CatalogSourceBase.__getitem__ parent col h = (Ok x, h)
           ∧ CatalogSourceBase.__getitem__ toret col h2
               = (Ok (new_ColumnAccessor toret x), h2)
           ∧ ColumnAccessor_compute (new_ColumnAccessor toret x) h2
               = (Ok (One (da.evaluate (graph_of x))), h2).
Proof.
  intros Hp Hal. rewrite (select_columns_eq _ _ _ _ Hp). simpl.
  destruct (negb _) eqn:Hinv; [discriminate|].
  destruct (comprehend _ _ _) as [data|e] eqn:Hdata; [|discriminate].
  intros Hrun. split.
  - intros col Hcol. apply negb_false_iff, Nat.eqb_eq, nil_length_inv in Hinv.
    destruct (decide (col ∈ CatalogSourceBase.columns c)) as [Hin|Hout]; [exact Hin|].
    assert (Hbad : col ∈ List.filter
              (fun col => negb (bool_decide (col ∈ pyset (CatalogSourceBase.columns c))))
              (pyset sel)).
    { apply list_elem_of_In, filter_In. split.
      - apply list_elem_of_In. unfold pyset. now apply elem_of_remove_dups.
      - apply negb_true_iff, bool_decide_eq_false_2. unfold pyset.
        now rewrite elem_of_remove_dups. }
    rewrite Hinv in Hbad. now apply elem_of_nil in Hbad.
  - destruct (derive_content _ _ _ _ _ _ _ _ _ _ _ Hp Hal Hdata Hrun)
      as (c' & Hc' & Hcls & Hsize & _ & _ & _ & Hcols & Hcontent).
    pose proof (derive_Ok_built _ _ _ _ _ _ _ _ _ Hp Hal Hrun) as Hb.
    destruct (derive_Ok _ _ _ _ _ _ _ _ _ Hp Hal Hrun) as (l1 & lp & d & _ & Ht & _).
    exists c'. repeat split; try assumption; try apply Hcols.
    + intros col Hcol. assert (Hc'' : c' = set_attrs l1
          (store_all (fresh (CatalogSource.size c) (comm (self c)) (_use_cache (self c))) data).2)
        by congruence.
      subst c'. simpl. destruct (_overrides _ !! col) eqn:Hlook; [|reflexivity].
      destruct Hcol.
      assert (Hs : is_Some (_overrides (self (store_all
          (fresh (CatalogSource.size c) (comm (self c)) (_use_cache (self c))) data).2) !! col))
        by eauto.
      apply (store_all_overrides _ _ Hb) in Hs as [[x Hx]|Hs].
      * simpl in Hx. now rewrite lookup_empty in Hx.
      * apply (comprehend_keys _ _ _ _ Hdata) in Hs as [Hs|Hs]; [|exact Hs].
        now apply elem_of_nil in Hs.
    + intros col Hcol. destruct (Hcontent col Hcol) as (v & y & Hv & Hy & Hlook).
      unfold whole_column in Hv.
      destruct (resolve parent c col) as [x|e] eqn:Hx; [|discriminate].
      inversion Hv. subst v. apply stored_column_dask_inv in Hy. subst y.
      exists x. split; [now rewrite (getitem_resolve _ _ _ _ Hp), Hx|]. split.
      * rewrite (getitem_resolve _ _ _ _ Hc'). now rewrite (resolve_override _ _ _ _ Hlook).
      * exact (compute_accessor _ _ _ x Hc').
Qed.

Lemma select_columns_content_witness :
  let h2 := (select_columns 0 ["Mass"] survey).2 in
  ∃ c', catalogs h2 !! 1 = Some c'
        ∧ CatalogSource.size c' = Some 4
        ∧ (∀ col, col ∈ CatalogSourceBase.columns c'
                  ↔ col ∈ ["Mass"] ∨ col ∈ default_columns)
        ∧ _overrides (self c') !! "Weight" = None.
Proof.
  intros h2.
  destruct (select_columns_content survey 0 _ ["Mass"] 1 h2 eq_refl (ex_intro _ _ eq_refl))
    as (_ & c' & Hc' & Hsize & Hcols & Hnone & _); [vm_compute; reflexivity|].
  exists c'. split; [exact Hc'|]. split; [exact Hsize|]. split; [exact Hcols|].
  apply Hnone. unlisted.
Defined.

(** A list of names with one that is no column of the catalog is refused
    with the [KeyError] for invalid columns, which lists exactly the
    names of the selection that are no columns; the heap is left as it
    was. *)
Theorem select_columns_invalid h parent c sel col :
  catalogs h !! parent = Some c ->
  col ∈ sel ->
  col ∉ CatalogSourceBase.columns c ->
  ∃ invalid,
    select_columns parent sel h = (Raise (KeyError_invalid_columns invalid), h)
    ∧ kind_of (KeyError_invalid_columns invalid) = UnknownColumn
    ∧ ∀ name, name ∈ invalid ↔ name ∈ sel ∧ name ∉ CatalogSourceBase.columns c.
Proof.
  intros Hp Hsel Hout. rewrite (select_columns_eq _ _ _ _ Hp). simpl.
  set (invalid := List.filter _ _).
  assert (Hchar : ∀ name, name ∈ invalid ↔ name ∈ sel ∧ name ∉ CatalogSourceBase.columns c).
  { intros name. unfold invalid. rewrite list_elem_of_In, filter_In, <- list_elem_of_In.
    unfold pyset. rewrite elem_of_remove_dups, negb_true_iff, bool_decide_eq_false.
    now rewrite elem_of_remove_dups. }
  assert (Hne : negb (Nat.eqb (length invalid) 0) = true).
  { assert (Hcol : col ∈ invalid) by (apply Hchar; auto).
    destruct invalid as [|x l]; [now apply elem_of_nil in Hcol | reflexivity]. }
  rewrite Hne. exists invalid. auto.
Qed.

Lemma select_columns_invalid_witness :
  ∃ invalid,
    select_columns 0 ["Mass"; "Charge"] survey = (Raise (KeyError_invalid_columns invalid), survey)
    ∧ "Charge" ∈ invalid ∧ "Mass" ∉ invalid.
Proof.
  destruct (select_columns_invalid survey 0 _ ["Mass"; "Charge"] "Charge" eq_refl)
    as (invalid & Hrun & _ & Hchar); [listed | unlisted |].
  exists invalid. split; [exact Hrun|]. split.
  - apply Hchar. split; [listed | unlisted].
  - intros H. apply Hchar in H as [_ H]. apply H. listed.
Defined.

Lemma find_parameters_Some (names : list string) name :
  name ∈ names -> name ∈ CatalogSource.parameters ->
  ∃ first, List.find (fun name => bool_decide (name ∈ CatalogSource.parameters)) names
             = Some first
           ∧ first ∈ names ∧ first ∈ CatalogSource.parameters.
Proof.
  intros Hin Hpar.
  destruct (List.find _ names) as [first|] eqn:E.
  - apply find_some in E as [H1 H2]. exists first. split; [reflexivity|].
    split; [now apply list_elem_of_In|]. now apply bool_decide_eq_true in H2.
  - apply list_elem_of_In in Hin. apply (find_none _ _ E) in Hin.
    now apply bool_decide_eq_false in Hin.
Qed.

Lemma derive_collision parent size k uc data h name :
  name ∈ data.*1 -> name ∈ CatalogSource.parameters ->
  ∃ first, derive parent size k uc data h = (Raise (TypeError_multiple_values first), h)
           ∧ first ∈ data.*1 ∧ first ∈ CatalogSource.parameters.
Proof.
  intros Hin Hpar. destruct (find_parameters_Some _ _ Hin Hpar) as (first & Hf & H1 & H2).
  exists first. split; [|auto].
  unfold derive, mbind, M_bind. now rewrite from_columns_eq, Hf.
Qed.

(** The columns are handed to [_from_columns] as keyword arguments: on a
    catalog with a column named like one of its parameters ([kls],
    [size], [comm], [use_cache]), both a row subset with a valid index and
    [copy] fail with the [TypeError] of an argument given twice, naming
    such a column, and build nothing. *)
Theorem keyword_collision h parent c index mask name :
  catalogs h !! parent = Some c ->
  CatalogSource.size c = Some (length mask) ->
  force index = BoolArray mask ->
  consistent c (length mask) ->
  name ∈ CatalogSourceBase.columns c ->
  name ∈ CatalogSource.parameters ->
  (∃ first, get_catalog_subset parent index h = (Raise (TypeError_multiple_values first), h)
            ∧ first ∈ CatalogSourceBase.columns c ∧ first ∈ CatalogSource.parameters)
  ∧ (∃ first, CatalogSource.copy parent h = (Raise (TypeError_multiple_values first), h)
              ∧ first ∈ CatalogSourceBase.columns c ∧ first ∈ CatalogSource.parameters).
Proof.
  intros Hp Hn Hmask Hc Hname Hpar. split.
  - rewrite (subset_eq _ _ _ _ Hp), Hn, Hmask. simpl. rewrite Nat.eqb_refl. simpl.
    destruct (comprehend_Ok (subset_column parent c mask) (CatalogSourceBase.columns c) [])
      as [data Hdata].
    { intros key Hkey. now apply subset_column_Ok. }
    rewrite Hdata.
    assert (Hkeys : ∀ x, x ∈ data.*1 ↔ x ∈ CatalogSourceBase.columns c).
    { intros x. rewrite (comprehend_keys _ _ _ _ Hdata). simpl. rewrite elem_of_nil. tauto. }
    destruct (derive_collision parent (Some (numpy.sum mask)) (comm (self c))
                (_use_cache (self c)) data h name) as (first & Hrun & H1 & H2);
      [now apply Hkeys | exact Hpar |].
    exists first. rewrite <- Hkeys. auto.
  - rewrite (copy_eq _ _ _ Hp), Hn.
    destruct (comprehend_Ok (whole_column parent c) (CatalogSourceBase.columns c) [])
      as [data Hdata].
    { intros key Hkey. destruct (Hc key Hkey) as (x & Hx & _).
      unfold whole_column. rewrite (resolve_graph _ parent _ _ _ Hx). eauto. }
    rewrite Hdata.
    assert (Hkeys : ∀ x, x ∈ data.*1 ↔ x ∈ CatalogSourceBase.columns c).
    { intros x. rewrite (comprehend_keys _ _ _ _ Hdata). simpl. rewrite elem_of_nil. tauto. }
    destruct (derive_collision parent (Some (length mask)) (comm (self c))
                (_use_cache (self c)) data h name) as (first & Hrun & H1 & H2);
      [now apply Hkeys | exact Hpar |].
    exists first. rewrite Hrun. rewrite <- Hkeys. auto.
Qed.

Lemma keyword_collision_witness :
  let h := one_catalog (Some 2) {[ "size" := Array (from_array (IntArray [1; 2]%Z)) ]} in
  (∃ first, get_catalog_subset 0 (IArray (BoolArray [true; false])) h
              = (Raise (TypeError_multiple_values first), h))
  ∧ (∃ first, CatalogSource.copy 0 h = (Raise (TypeError_multiple_values first), h)).
Proof.
  intros h.
  assert (Hc : consistent (plain_catalog (Some 2)
                 {[ "size" := Array (from_array (IntArray [1; 2]%Z)) ]}) 2).
  { apply CatalogSource_consistent; [reflexivity | reflexivity |].
    intros name x H. simpl in H. apply lookup_singleton_Some in H as [_ <-]. reflexivity. }
  destruct (keyword_collision h 0 _ (IArray (BoolArray [true; false])) [true; false] "size"
              eq_refl eq_refl eq_refl Hc)
    as [(first & Hrun & _) (first' & Hrun' & _)]; [listed | listed |].
  split; eauto.
Defined.

Lemma sum_app m1 m2 : numpy.sum (m1 ++ m2) = numpy.sum m1 + numpy.sum m2.
Proof. unfold numpy.sum. now rewrite List.filter_app, length_app. Qed.

Lemma sum_rows_set mask : numpy.sum mask = length (rows_set mask).
Proof.
  unfold rows_set. induction mask as [|b mask IH] using rev_ind; [reflexivity|].
  rewrite sum_app, length_app. simpl. rewrite Nat.add_1_r, seq_S, List.filter_app, length_app.
  simpl. rewrite IH. f_equal.
  - f_equal. apply List.filter_ext_in. intros k Hk. apply in_seq in Hk.
    now rewrite lookup_app_l by lia.
  - rewrite list_lookup_middle by reflexivity. unfold numpy.sum. simpl.
    destruct b; reflexivity.
Qed.

Lemma elem_of_rows_set mask k : k ∈ rows_set mask ↔ mask !! k = Some true.
Proof.
  unfold rows_set. rewrite list_elem_of_In, filter_In, in_seq, bool_decide_eq_true.
  split; [tauto|]. intros H. split; [|exact H]. apply lookup_lt_Some in H. lia.
Qed.

Lemma NoDup_rows_set mask : NoDup (rows_set mask).
Proof. apply NoDup_ListNoDup, List.NoDup_filter, seq_NoDup. Qed.

Lemma sum_distinct mask (ps : list nat) :
  (∀ k, mask !! k = Some true ↔ k ∈ ps) ->
  numpy.sum mask = length (remove_dups ps).
Proof.
  intros H. rewrite sum_rows_set. apply Permutation_length, NoDup_Permutation.
  - apply NoDup_rows_set.
  - apply NoDup_remove_dups.
  - intros k. now rewrite elem_of_rows_set, elem_of_remove_dups.
Qed.

Lemma lookup_repeat_false n k : repeat false n !! k ≠ Some true.
Proof.
  intros H. apply list_elem_of_lookup_2, list_elem_of_In, repeat_spec in H. discriminate.
Qed.

Lemma position_lt n i k : position n i = Some k -> k < n.
Proof.
  unfold position.
  destruct ((0 <=? i)%Z && (i <? Z.of_nat n)%Z) eqn:E1.
  - intros E. inversion E. lia.
  - destruct ((- Z.of_nat n <=? i)%Z && (i <? 0)%Z) eqn:E2; [|discriminate].
    intros E. inversion E. lia.
Qed.

Lemma set_true_spec sel : ∀ index,
  (∀ i, i ∈ sel -> is_Some (position (length index) i)) ->
  ∃ mask, set_true index sel = Returned mask
    ∧ length mask = length index
    ∧ ∀ k, mask !! k = Some true
           ↔ index !! k = Some true ∨ ∃ i, i ∈ sel ∧ position (length index) i = Some k.
Proof.
  induction sel as [|i sel' IH]; intros index Hall; simpl.
  - exists index. split; [reflexivity|]. split; [reflexivity|]. intros k. split; [auto|].
    intros [H|(i & Hi & _)]; [exact H | now apply elem_of_nil in Hi].
  - destruct (Hall i) as [p Hp]; [left|]. rewrite Hp.
    destruct (IH (<[p := true]> index)) as (mask & Hrun & Hlen & Hchar).
    { intros j Hj. rewrite length_insert. apply Hall. now right. }
    rewrite length_insert in Hlen, Hchar.
    exists mask. split; [exact Hrun|]. split; [exact Hlen|]. intros k. rewrite Hchar.
    assert (Hplt := position_lt _ _ _ Hp).
    destruct (decide (p = k)) as [->|Hne].
    + rewrite list_lookup_insert_eq by exact Hplt. split; [|auto].
      intros _. right. exists i. split; [left | exact Hp].
    + rewrite list_lookup_insert_ne by exact Hne. split.
      * intros [H|(j & Hj & Hjk)]; [auto|]. right. exists j. split; [now right | exact Hjk].
      * intros [H|(j & Hj & Hjk)]; [auto|].
        apply elem_of_cons in Hj as [->|Hj]; [congruence|]. right. eauto.
Qed.

Lemma set_true_out_of_bounds sel : ∀ index i,
  i ∈ sel -> position (length index) i = None ->
  ∃ j, set_true index sel = Thrown (IndexError_out_of_bounds j (length index))
       ∧ j ∈ sel ∧ position (length index) j = None.
Proof.
  induction sel as [|i0 sel' IH]; intros index i Hi Hnone; simpl.
  - now apply elem_of_nil in Hi.
  - destruct (position (length index) i0) as [p|] eqn:Hp.
    + apply elem_of_cons in Hi as [->|Hi]; [congruence|].
      destruct (IH (<[p := true]> index) i Hi) as (j & Hrun & Hj & Hjn).
      { now rewrite length_insert. }
      rewrite length_insert in Hrun, Hjn. exists j. split; [exact Hrun|]. split; [now right|exact Hjn].
    + exists i0. split; [reflexivity|]. split; [left | exact Hp].
Qed.

Lemma earlier_subset r index h :
  (toret ← earlier (get_catalog_subset r index); mret (a_catalog toret)) h =
    match get_catalog_subset r index h with
    | (Ok toret, h2) => (Returned (a_catalog toret), h2)
    | (Raise e, h2) => (Thrown (Earlier e), h2)
    end.
Proof.
  unfold mbind, X_bind, earlier, mret, X_ret.
  now destruct (get_catalog_subset r index h) as [[toret|e] h2].
Qed.

Lemma earlier_read r c h : catalogs h !! r = Some c -> earlier (read r) h = (Returned c, h).
Proof. intros Hr. unfold earlier. now rewrite (read_Some _ _ _ Hr). Qed.

Lemma getitem_integers_eq h r c n sel ints :
  catalogs h !! r = Some c ->
  CatalogSource.size c = Some n ->
  forallb is_string sel = false ->
  integer_list sel = Some ints ->
  CatalogSourceBase_getitem r (by_list sel) h =
    match set_true (repeat false n) ints with
    | Returned mask =>
        (toret ← earlier (get_catalog_subset r (IArray (BoolArray mask)));
         mret (a_catalog toret)) h
    | Thrown e => (Thrown e, h)
    end.
Proof.
  intros Hr Hn Hstr Hint. unfold CatalogSourceBase_getitem. rewrite Hstr, Hint.
  unfold mbind at 1. unfold X_bind. rewrite (earlier_read _ _ _ Hr), Hn.
  unfold mbind at 1. unfold X_bind, lift_outcome.
  now destruct (set_true (repeat false n) ints).
Qed.

(** Selecting rows by a list of integers, all within the bounds: the list
    is turned into a boolean mask of the size of the catalog, set at the
    positions the integers denote (negative ones count from the end), and
    the selection is the row subset for this mask.  The catalog returned
    has as many rows as there are distinct positions: a row named twice
    is taken once. *)
Theorem getitem_integer_list h r c n sel ints :
  catalogs h !! r = Some c ->
  attrs_allocated h c ->
  CatalogSource.size c = Some n ->
  forallb is_string sel = false ->
  integer_list sel = Some ints ->
  (∀ i, i ∈ ints -> is_Some (position n i)) ->
  ∃ mask,
    length mask = n
    ∧ (∀ k, mask !! k = Some true ↔ ∃ i, i ∈ ints ∧ position n i = Some k)
    ∧ CatalogSourceBase_getitem r (by_list sel) h
        = (toret ← earlier (get_catalog_subset r (IArray (BoolArray mask)));
           mret (a_catalog toret)) h
    ∧ ∀ toret h2,
        CatalogSourceBase_getitem r (by_list sel) h = (Returned (a_catalog toret), h2) ->
        ∃ c', catalogs h2 !! toret = Some c'
              ∧ CatalogSource.size c' = Some (length (remove_dups (omap (position n) ints))).
Proof.
  intros Hr Hal Hn Hstr Hint Hall.
  destruct (set_true_spec ints (repeat false n)) as (mask & Hrun & Hlen & Hchar).
  { intros i Hi. rewrite repeat_length. now apply Hall. }
  rewrite repeat_length in Hlen, Hchar.
  assert (Hmask : ∀ k, mask !! k = Some true ↔ ∃ i, i ∈ ints ∧ position n i = Some k).
  { intros k. rewrite Hchar. split; [|auto].
    intros [H|H]; [|exact H]. now apply lookup_repeat_false in H. }
  assert (Heq := getitem_integers_eq h r c n sel ints Hr Hn Hstr Hint). rewrite Hrun in Heq.
  exists mask. split; [exact Hlen|]. split; [exact Hmask|]. split; [exact Heq|].
  intros toret h2. rewrite Heq, earlier_subset.
  destruct (get_catalog_subset r (IArray (BoolArray mask)) h) as [[toret'|e] h2'] eqn:Hsub;
    [|discriminate].
  intros E. inversion E. subst toret' h2'.
  rewrite <- Hlen in Hn.
  destruct (subset_returned_size h r c (IArray (BoolArray mask)) mask Hr Hal Hn eq_refl
              toret h2 Hsub) as (c' & Hc' & Hsize).
  exists c'. split; [exact Hc'|]. rewrite Hsize. f_equal.
  apply sum_distinct. intros k. rewrite Hmask, list_elem_of_omap. reflexivity.
Qed.

Lemma getitem_integer_list_witness :
  let sel := by_list [ENumber (SInt 0); ENumber (SInt (-1)); ENumber (SInt 0)] in
  let h2 := (CatalogSourceBase_getitem 0 sel survey).2 in
  ∃ c', CatalogSourceBase_getitem 0 sel survey = (Returned (a_catalog 1), h2)
        ∧ catalogs h2 !! 1 = Some c'
        ∧ CatalogSource.size c' = Some 2.
Proof.
  intros sel h2.
  destruct (getitem_integer_list survey 0 _ 4
              [ENumber (SInt 0); ENumber (SInt (-1)); ENumber (SInt 0)] [0; -1; 0]%Z
              eq_refl (ex_intro _ _ eq_refl) eq_refl eq_refl eq_refl)
    as (mask & _ & _ & _ & Hsize).
  { intros i Hi. repeat (apply elem_of_cons in Hi as [->|Hi]); try (eexists; reflexivity).
    now apply elem_of_nil in Hi. }
  assert (Hrun : CatalogSourceBase_getitem 0 sel survey = (Returned (a_catalog 1), h2))
    by (vm_compute; reflexivity).
  destruct (Hsize 1 h2 Hrun) as (c' & Hc' & Hn).
  exists c'. auto.
Defined.

(** A list of integers with one outside of [-n .. n-1], on a catalog of
    [n] rows, is refused with an [IndexError] for such an integer, and
    the heap is left as it was. *)
Theorem getitem_index_out_of_bounds h r c n sel ints i :
  catalogs h !! r = Some c ->
  CatalogSource.size c = Some n ->
  forallb is_string sel = false ->
  integer_list sel = Some ints ->
  i ∈ ints ->
  position n i = None ->
  ∃ j, CatalogSourceBase_getitem r (by_list sel) h = (Thrown (IndexError_out_of_bounds j n), h)
       ∧ j ∈ ints ∧ ¬ (- Z.of_nat n <= j < Z.of_nat n)%Z.
Proof.
  intros Hr Hn Hstr Hint Hi Hnone.
  destruct (set_true_out_of_bounds ints (repeat false n) i Hi) as (j & Hrun & Hj & Hjn).
  { now rewrite repeat_length. }
  rewrite repeat_length in Hrun, Hjn.
  exists j. rewrite (getitem_integers_eq h r c n sel ints Hr Hn Hstr Hint), Hrun.
  split; [reflexivity|]. split; [exact Hj|].
  unfold position in Hjn.
  destruct ((0 <=? j)%Z && (j <? Z.of_nat n)%Z) eqn:E1; [discriminate|].
  destruct ((- Z.of_nat n <=? j)%Z && (j <? 0)%Z) eqn:E2; [discriminate|].
  apply andb_false_iff in E1, E2. lia.
Qed.

Lemma getitem_index_out_of_bounds_witness :
  ∃ j, CatalogSourceBase_getitem 0 (by_list [ENumber (SInt 1); ENumber (SInt 4)]) survey
         = (Thrown (IndexError_out_of_bounds j 4), survey).
Proof.
  destruct (getitem_index_out_of_bounds survey 0 _ 4 [ENumber (SInt 1); ENumber (SInt 4)]
              [1; 4]%Z 4%Z eq_refl eq_refl eq_refl eq_refl)
    as (j & Hrun & _); [listed | reflexivity |].
  exists j. exact Hrun.
Defined.

Lemma range_length_pos st sp stp k :
  (0 < stp)%Z -> k < range_length st sp stp -> (st + Z.of_nat k * stp < sp)%Z.
Proof.
  intros Hstp. unfold range_length.
  assert (E : (0 <? stp)%Z = true) by (apply Z.ltb_lt; lia). rewrite E. simpl.
  assert (E' : (stp <? 0)%Z = false) by (apply Z.ltb_ge; lia). rewrite E'. simpl.
  destruct (st <? sp)%Z eqn:Hlt; [|lia]. apply Z.ltb_lt in Hlt.
  intros Hk.
  assert (Hq : (0 <= (sp - st - 1) / stp)%Z) by (apply Z.div_pos; lia).
  assert (Hm := Z.mul_div_le (sp - st - 1) stp Hstp).
  assert (Hk' : (Z.of_nat k <= (sp - st - 1) / stp)%Z) by lia.
  nia.
Qed.

Lemma range_length_neg st sp stp k :
  (stp < 0)%Z -> k < range_length st sp stp -> (sp < st + Z.of_nat k * stp)%Z.
Proof.
  intros Hstp. unfold range_length.
  assert (E : (0 <? stp)%Z = false) by (apply Z.ltb_ge; lia). rewrite E. simpl.
  assert (E' : (stp <? 0)%Z = true) by (apply Z.ltb_lt; lia). rewrite E'. simpl.
  destruct (sp <? st)%Z eqn:Hlt; [|lia]. apply Z.ltb_lt in Hlt.
  intros Hk.
  assert (Hpos : (0 < - stp)%Z) by lia.
  assert (Hq : (0 <= (st - sp - 1) / (- stp))%Z) by (apply Z.div_pos; lia).
  assert (Hm := Z.mul_div_le (st - sp - 1) (- stp) Hpos).
  assert (Hk' : (Z.of_nat k <= (st - sp - 1) / (- stp))%Z) by lia.
  nia.
Qed.

Lemma slice_indices_bounds a b s n st sp stp :
  slice_indices a b s (Z.of_nat n) = Returned (st, sp, stp) ->
  stp = default 1%Z s ∧ stp ≠ 0%Z
  ∧ ∀ k, k < range_length st sp stp -> (0 <= st + Z.of_nat k * stp < Z.of_nat n)%Z.
Proof.
  unfold slice_indices. set (step := default 1%Z s).
  destruct (step =? 0)%Z eqn:Hz; [discriminate|]. apply Z.eqb_neq in Hz.
  intros E. inversion E as [[Hst Hsp Hstp]]. clear E.
  split; [reflexivity|]. split; [exact Hz|]. intros k Hk.
  destruct (step <? 0)%Z eqn:Hneg.
  - apply Z.ltb_lt in Hneg.
    assert (Hlow := range_length_neg _ _ _ _ Hneg Hk).
    assert (Hk0 : (Z.of_nat k * step <= 0)%Z) by nia.
    split.
    + destruct b as [j|]; [|lia].
      destruct (j <? 0)%Z eqn:Hj; [lia|]. apply Z.ltb_ge in Hj.
      destruct (Z.min_spec j (Z.of_nat n - 1)) as [[_ Hm]|[_ Hm]]; rewrite Hm in Hlow; lia.
    + destruct a as [i|]; [|lia].
      destruct (i <? 0)%Z eqn:Hi.
      * apply Z.ltb_lt in Hi. lia.
      * lia.
  - apply Z.ltb_ge in Hneg. assert (Hpos : (0 < step)%Z) by lia.
    assert (Hup := range_length_pos _ _ _ _ Hpos Hk).
    assert (Hk0 : (0 <= Z.of_nat k * step)%Z) by nia.
    split.
    + destruct a as [i|]; [|lia].
      destruct (i <? 0)%Z eqn:Hi; lia.
    + destruct b as [j|]; [|lia].
      destruct (j <? 0)%Z eqn:Hj.
      * apply Z.ltb_lt in Hj. lia.
      * lia.
Qed.

Lemma sum_NoDup mask (ps : list nat) :
  NoDup ps ->
  (∀ k, mask !! k = Some true ↔ k ∈ ps) ->
  numpy.sum mask = length ps.
Proof.
  intros Hnd H. rewrite sum_rows_set. apply Permutation_length, NoDup_Permutation.
  - apply NoDup_rows_set.
  - exact Hnd.
  - intros k. now rewrite elem_of_rows_set.
Qed.

Lemma foldl_set_true (ps : list Z) : ∀ index,
  (∀ i, i ∈ ps -> (0 <= i < Z.of_nat (length index))%Z) ->
  length (foldl (fun index i => <[Z.to_nat i := true]> index) index ps) = length index
  ∧ ∀ k, foldl (fun index i => <[Z.to_nat i := true]> index) index ps !! k = Some true
         ↔ index !! k = Some true ∨ Z.of_nat k ∈ ps.
Proof.
  induction ps as [|i ps' IH]; intros index Hall; simpl.
  - split; [reflexivity|]. intros k. rewrite elem_of_nil. tauto.
  - destruct (IH (<[Z.to_nat i := true]> index)) as [Hlen Hchar].
    { intros j Hj. rewrite length_insert. apply Hall. now right. }
    rewrite length_insert in Hlen. split; [exact Hlen|].
    intros k. rewrite Hchar, elem_of_cons.
    assert (Hi : (0 <= i < Z.of_nat (length index))%Z) by (apply Hall; left).
    destruct (decide (Z.to_nat i = k)) as [E|Hne].
    + subst k. rewrite list_lookup_insert_eq by lia. split; [|auto].
      intros _. right. left. lia.
    + rewrite list_lookup_insert_ne by exact Hne. split; [tauto|].
      intros [H|[H|H]]; [auto | lia | auto].
Qed.

Lemma elem_of_range st sp stp z :
  z ∈ range st sp stp ↔ ∃ k, k < range_length st sp stp ∧ z = (st + Z.of_nat k * stp)%Z.
Proof.
  unfold range. rewrite list_elem_of_In, in_map_iff. split.
  - intros (k & <- & Hk). apply in_seq in Hk. exists k. split; [lia | reflexivity].
  - intros (k & Hk & ->). exists k. split; [reflexivity|]. apply in_seq. lia.
Qed.

Lemma NoDup_range st sp stp : stp ≠ 0%Z -> NoDup (range st sp stp).
Proof.
  intros Hstp. unfold range. apply NoDup_ListNoDup, Finite.Injective_map_NoDup.
  - intros k1 k2 E. nia.
  - apply seq_NoDup.
Qed.

Lemma range_length_range st sp stp : length (range st sp stp) = range_length st sp stp.
Proof. unfold range. now rewrite length_map, length_seq. Qed.

Lemma set_slice_spec n a b s :
  default 1%Z s ≠ 0%Z ->
  ∃ st sp mask,
    slice_indices a b s (Z.of_nat n) = Returned (st, sp, default 1%Z s)
    ∧ set_slice (repeat false n) a b s = Returned mask
    ∧ length mask = n
    ∧ (∀ k, mask !! k = Some true ↔ Z.of_nat k ∈ range st sp (default 1%Z s))
    ∧ numpy.sum mask = range_length st sp (default 1%Z s).
Proof.
  intros Hstep.
  destruct (slice_indices a b s (Z.of_nat n)) as [[[st sp] stp]|e] eqn:Hidx.
  2:{ unfold slice_indices in Hidx. apply Z.eqb_neq in Hstep. rewrite Hstep in Hidx.
      discriminate. }
  destruct (slice_indices_bounds _ _ _ _ _ _ _ Hidx) as (-> & Hnz & Hb).
  set (stp := default 1%Z s) in *.
  assert (Hin : ∀ i, i ∈ range st sp stp -> (0 <= i < Z.of_nat (length (repeat false n)))%Z).
  { intros i Hi. apply elem_of_range in Hi as (k & Hk & ->). rewrite repeat_length. now apply Hb. }
  destruct (foldl_set_true (range st sp stp) (repeat false n) Hin) as [Hlen Hchar].
  set (mask := foldl _ _ _) in *. rewrite repeat_length in Hlen.
  assert (Hmask : ∀ k, mask !! k = Some true ↔ Z.of_nat k ∈ range st sp stp).
  { intros k. rewrite Hchar. split; [|auto].
    intros [H|H]; [|exact H]. now apply lookup_repeat_false in H. }
  exists st, sp, mask. split; [reflexivity|]. split.
  { unfold set_slice. rewrite repeat_length, Hidx. reflexivity. }
  split; [exact Hlen|]. split; [exact Hmask|].
  rewrite <- range_length_range, <- (length_map Z.to_nat).
  apply sum_NoDup.
  - apply NoDup_ListNoDup, Finite.Injective_map_NoDup_in.
    + intros z1 z2 H1 H2 E. apply list_elem_of_In, Hin in H1. apply list_elem_of_In, Hin in H2.
      lia.
    + apply NoDup_ListNoDup, NoDup_range, Hnz.
  - intros k. rewrite Hmask, (list_elem_of_In _ k), in_map_iff. split.
    + intros H. exists (Z.of_nat k). split; [lia | now apply list_elem_of_In].
    + intros (z & <- & Hz). apply list_elem_of_In in Hz.
      specialize (Hin z Hz). now rewrite Z2Nat.id by lia.
Qed.

Lemma getitem_slice_eq h r c n a b s :
  catalogs h !! r = Some c ->
  CatalogSource.size c = Some n ->
  CatalogSourceBase_getitem r (by_slice a b s) h =
    match set_slice (repeat false n) a b s with
    | Returned mask =>
        (toret ← earlier (get_catalog_subset r (IArray (BoolArray mask)));
         mret (a_catalog toret)) h
    | Thrown e => (Thrown e, h)
    end.
Proof.
  intros Hr Hn. unfold CatalogSourceBase_getitem.
  unfold mbind at 1. unfold X_bind. rewrite (earlier_read _ _ _ Hr), Hn.
  unfold mbind at 1. unfold X_bind, lift_outcome.
  now destruct (set_slice (repeat false n) a b s).
Qed.

(** Selecting rows by a slice with a step other than zero: the mask is set
    exactly at the positions of the [range] with the start, stop and step
    of [slice.indices(n)], all of which lie within the catalog, and the
    catalog returned has as many rows as this range has entries.  No
    slice is out of bounds. *)
Theorem getitem_slice h r c n a b s :
  catalogs h !! r = Some c ->
  attrs_allocated h c ->
  CatalogSource.size c = Some n ->
  default 1%Z s ≠ 0%Z ->
  ∃ st sp mask,
    slice_indices a b s (Z.of_nat n) = Returned (st, sp, default 1%Z s)
    ∧ length mask = n
    ∧ (∀ k, mask !! k = Some true ↔ Z.of_nat k ∈ range st sp (default 1%Z s))
    ∧ numpy.sum mask = range_length st sp (default 1%Z s)
    ∧ CatalogSourceBase_getitem r (by_slice a b s) h
        = (toret ← earlier (get_catalog_subset r (IArray (BoolArray mask)));
           mret (a_catalog toret)) h
    ∧ ∀ toret h2,
        CatalogSourceBase_getitem r (by_slice a b s) h = (Returned (a_catalog toret), h2) ->
        ∃ c', catalogs h2 !! toret = Some c'
              ∧ CatalogSource.size c' = Some (range_length st sp (default 1%Z s)).
Proof.
  intros Hr Hal Hn Hstep.
  destruct (set_slice_spec n a b s Hstep) as (st & sp & mask & Hidx & Hset & Hlen & Hmask & Hsum).
  assert (Heq := getitem_slice_eq h r c n a b s Hr Hn). rewrite Hset in Heq.
  exists st, sp, mask. repeat split; try assumption; try (now apply Hmask).
  intros toret h2. rewrite Heq, earlier_subset.
  destruct (get_catalog_subset r (IArray (BoolArray mask)) h) as [[toret'|e] h2'] eqn:Hsub;
    [|discriminate].
  intros E. inversion E. subst toret' h2'.
  rewrite <- Hlen in Hn.
  destruct (subset_returned_size h r c (IArray (BoolArray mask)) mask Hr Hal Hn eq_refl
              toret h2 Hsub) as (c' & Hc' & Hsize).
  exists c'. split; [exact Hc'|]. now rewrite Hsize, Hsum.
Qed.

Lemma getitem_slice_witness :
  let sel := by_slice (Some 1%Z) None (Some 2%Z) in
  let h2 := (CatalogSourceBase_getitem 0 sel survey).2 in
  ∃ c', CatalogSourceBase_getitem 0 sel survey = (Returned (a_catalog 1), h2)
        ∧ catalogs h2 !! 1 = Some c'
        ∧ CatalogSource.size c' = Some 2.
Proof.
  intros sel h2.
  destruct (getitem_slice survey 0 _ 4 (Some 1%Z) None (Some 2%Z)
              eq_refl (ex_intro _ _ eq_refl) eq_refl)
    as (st & sp & mask & Hidx & _ & _ & _ & _ & Hsize); [discriminate|].
  injection Hidx as <- <-.
  assert (Hrun : CatalogSourceBase_getitem 0 sel survey = (Returned (a_catalog 1), h2))
    by (vm_compute; reflexivity).
  destruct (Hsize 1 h2 Hrun) as (c' & Hc' & Hn).
  exists c'. auto.
Defined.

Lemma integer_list_booleans b bs :
  integer_list (map (fun b => ENumber (SBool b)) (b :: bs)) = None.
Proof.
  unfold integer_list.
  assert (Hs : ∀ l, existsb is_string (map (fun b => ENumber (SBool b)) l) = false)
    by (induction l; simpl; auto).
  assert (Ho : ∀ l, omap (fun e => match e with ENumber v => Some v | EString _ => None end)
                      (map (fun b => ENumber (SBool b)) l) = map SBool l).
  { induction l as [|b' l' IH]; [reflexivity|]. simpl. now rewrite <- IH. }
  assert (Hf : ∀ l, existsb numpy.is_float (map SBool l) = false)
    by (induction l; simpl; auto).
  assert (Hb : ∀ l, forallb numpy.is_bool (map SBool l) = true)
    by (induction l; simpl; auto).
  rewrite Hs, Ho. unfold numpy.array. rewrite Hf, Hb. reflexivity.
Qed.

(** The selectors that [__getitem__] refuses, leaving the heap as it was: a
    scalar; a list that is neither one of strings nor one of integers,
    and with it every list of booleans, although a boolean array is
    accepted; a list of integers or a slice on a catalog whose size is
    not implemented; a slice of step zero. *)
Theorem getitem_refused h r c :
  catalogs h !! r = Some c ->
  (∀ v, CatalogSourceBase_getitem r (by_scalar v) h = (Thrown KeyError_unsupported_index, h))
  ∧ (∀ sel, forallb is_string sel = false -> integer_list sel = None ->
       CatalogSourceBase_getitem r (by_list sel) h = (Thrown KeyError_list_of_integers, h))
  ∧ (∀ b bs, CatalogSourceBase_getitem r (by_list (map (fun b => ENumber (SBool b)) (b :: bs))) h
             = (Thrown KeyError_list_of_integers, h))
  ∧ (CatalogSource.size c = None ->
       (∀ sel ints, forallb is_string sel = false -> integer_list sel = Some ints ->
          CatalogSourceBase_getitem r (by_list sel) h = (Thrown ValueError_selection_size, h))
       ∧ ∀ a b s, CatalogSourceBase_getitem r (by_slice a b s) h
                  = (Thrown ValueError_selection_size, h))
  ∧ (∀ n a b, CatalogSource.size c = Some n ->
       CatalogSourceBase_getitem r (by_slice a b (Some 0%Z)) h = (Thrown ValueError_slice_step, h)).
Proof.
  intros Hr. split; [reflexivity|]. split; [|split; [|split]].
  - intros sel Hstr Hint. unfold CatalogSourceBase_getitem. now rewrite Hstr, Hint.
  - intros b bs. unfold CatalogSourceBase_getitem.
    rewrite (integer_list_booleans b bs). reflexivity.
  - intros Hn. split.
    + intros sel ints Hstr Hint. unfold CatalogSourceBase_getitem. rewrite Hstr, Hint.
      unfold mbind, X_bind. now rewrite (earlier_read _ _ _ Hr), Hn.
    + intros a b s. unfold CatalogSourceBase_getitem.
      unfold mbind, X_bind. now rewrite (earlier_read _ _ _ Hr), Hn.
  - intros n a b Hn. now rewrite (getitem_slice_eq h r c n a b (Some 0%Z) Hr Hn).
Qed.

Lemma getitem_refused_witness :
  CatalogSourceBase_getitem 0 (by_scalar (SInt 2)) survey
    = (Thrown KeyError_unsupported_index, survey)
  ∧ CatalogSourceBase_getitem 0
      (by_list [ENumber (SBool true); ENumber (SBool false); ENumber (SBool true);
                ENumber (SBool false)]) survey
    = (Thrown KeyError_list_of_integers, survey)
  ∧ CatalogSourceBase_getitem 0 (by_slice None None (Some 0%Z)) survey
    = (Thrown ValueError_slice_step, survey).
Proof.
  destruct (getitem_refused survey 0 _ eq_refl) as (Hscalar & _ & Hbool & _ & Hstep).
  split; [apply Hscalar|]. split.
  - exact (Hbool true [false; true; false]).
  - exact (Hstep 4 None None eq_refl).
Defined.

Lemma derive_nothing h parent c size k uc :
  catalogs h !! parent = Some c ->
  attrs_allocated h c ->
  ∃ toret h2, derive parent size k uc [] h = (Ok toret, h2).
Proof.
  intros Hp Hal. pose proof (derive_outcome h parent c size k uc [] Hp Hal) as Hout.
  simpl in Hout. destruct Hout as (toret & h2 & Hrun & _). eauto.
Qed.

(** The empty list counts as a list of column names: [cat[[]]] is a
    catalog of the same size that stores no column and has only the
    default columns. *)
Theorem getitem_empty_list h r c :
  catalogs h !! r = Some c ->
  attrs_allocated h c ->
  ∃ toret h2 c',
    CatalogSourceBase_getitem r (by_list []) h = (Returned (a_catalog toret), h2)
    ∧ catalogs h2 !! toret = Some c'
    ∧ CatalogSource.size c' = CatalogSource.size c
    ∧ _overrides (self c') = ∅
    ∧ ∀ col, col ∈ CatalogSourceBase.columns c' ↔ col ∈ default_columns.
Proof.
  intros Hr Hal.
  assert (Hsel : select_columns r [] h
                 = derive r (CatalogSource.size c) (comm (self c)) (_use_cache (self c)) [] h).
  { now rewrite (select_columns_eq _ _ _ _ Hr). }
  destruct (derive_nothing h r c (CatalogSource.size c) (comm (self c)) (_use_cache (self c))
              Hr Hal) as (toret & h2 & Hrun).
  destruct (derive_content h r c _ _ _ (whole_column r c) [] [] toret h2 Hr Hal eq_refl Hrun)
    as (c' & Hc' & _ & Hsize & _ & _ & _ & Hcols & _).
  destruct (derive_Ok _ _ _ _ _ _ _ _ _ Hr Hal Hrun) as (l1 & lp & d & _ & Ht & _).
  exists toret, h2, c'. split.
  - unfold CatalogSourceBase_getitem. simpl. unfold mbind, X_bind, earlier.
    now rewrite Hsel, Hrun.
  - split; [exact Hc'|]. split; [exact Hsize|]. split.
    + rewrite Hc' in Ht. inversion Ht. reflexivity.
    + intros col. rewrite Hcols, elem_of_nil. tauto.
Qed.

Lemma getitem_empty_list_witness :
  ∃ toret h2 c',
    CatalogSourceBase_getitem 0 (by_list []) survey = (Returned (a_catalog toret), h2)
    ∧ catalogs h2 !! toret = Some c'
    ∧ CatalogSource.size c' = Some 4
    ∧ "Mass" ∉ CatalogSourceBase.columns c'.
Proof.
  destruct (getitem_empty_list survey 0 _ eq_refl (ex_intro _ _ eq_refl))
    as (toret & h2 & c' & Hrun & Hc' & Hsize & _ & Hcols).
  exists toret, h2, c'. split; [exact Hrun|]. split; [exact Hc'|]. split; [exact Hsize|].
  rewrite Hcols. unlisted.
Defined.

(** ** A selection of rows is a set of rows *)

Lemma mask_ext (m1 m2 : list bool) :
  length m1 = length m2 ->
  (∀ k, m1 !! k = Some true ↔ m2 !! k = Some true) ->
  m1 = m2.
Proof.
  intros Hlen H. apply list_eq. intros k.
  destruct (m1 !! k) as [b1|] eqn:E1; destruct (m2 !! k) as [b2|] eqn:E2.
  - destruct b1, b2; try reflexivity.
    + apply H in E1. congruence.
    + apply H in E2. congruence.
  - apply lookup_lt_Some in E1. apply lookup_ge_None in E2. lia.
  - apply lookup_ge_None in E1. apply lookup_lt_Some in E2. lia.
  - reflexivity.
Qed.

Lemma set_true_zeros n ints :
  (∀ i, i ∈ ints -> is_Some (position n i)) ->
  ∃ mask, set_true (repeat false n) ints = Returned mask
    ∧ length mask = n
    ∧ ∀ k, mask !! k = Some true ↔ ∃ i, i ∈ ints ∧ position n i = Some k.
Proof.
  intros Hall.
  destruct (set_true_spec ints (repeat false n)) as (mask & Hrun & Hlen & Hchar).
  { intros i Hi. rewrite repeat_length. now apply Hall. }
  rewrite repeat_length in Hlen, Hchar.
  exists mask. split; [exact Hrun|]. split; [exact Hlen|].
  intros k. rewrite Hchar. split; [|auto].
  intros [H|H]; [|exact H]. now apply lookup_repeat_false in H.
Qed.

(** A selection of rows is a set of rows: the catalog returned holds the
    selected rows once each and in the order of the parent, whatever the
    order and the repetitions in the selector.  Two lists of integers that
    denote the same positions give the same result, and so do two slices
    whose ranges have the same members; a slice that runs backwards does
    not reverse the catalog. *)
Theorem selection_keeps_catalog_order h r c n :
  catalogs h !! r = Some c ->
  CatalogSource.size c = Some n ->
  (∀ sel1 ints1 sel2 ints2,
     forallb is_string sel1 = false -> integer_list sel1 = Some ints1 ->
     forallb is_string sel2 = false -> integer_list sel2 = Some ints2 ->
     (∀ i, i ∈ ints1 ++ ints2 -> is_Some (position n i)) ->
     (∀ k, (∃ i, i ∈ ints1 ∧ position n i = Some k)
           ↔ (∃ i, i ∈ ints2 ∧ position n i = Some k)) ->
     CatalogSourceBase_getitem r (by_list sel1) h = CatalogSourceBase_getitem r (by_list sel2) h)
  ∧ (∀ a1 b1 s1 a2 b2 s2 st1 sp1 st2 sp2,
       default 1%Z s1 ≠ 0%Z -> default 1%Z s2 ≠ 0%Z ->
       slice_indices a1 b1 s1 (Z.of_nat n) = Returned (st1, sp1, default 1%Z s1) ->
       slice_indices a2 b2 s2 (Z.of_nat n) = Returned (st2, sp2, default 1%Z s2) ->
       (∀ z, z ∈ range st1 sp1 (default 1%Z s1) ↔ z ∈ range st2 sp2 (default 1%Z s2)) ->
       CatalogSourceBase_getitem r (by_slice a1 b1 s1) h
         = CatalogSourceBase_getitem r (by_slice a2 b2 s2) h).
Proof.
  intros Hr Hn. split.
  - intros sel1 ints1 sel2 ints2 Hs1 Hi1 Hs2 Hi2 Hall Hsame.
    destruct (set_true_zeros n ints1) as (m1 & Hrun1 & Hlen1 & Hchar1).
    { intros i Hi. apply Hall, elem_of_app. now left. }
    destruct (set_true_zeros n ints2) as (m2 & Hrun2 & Hlen2 & Hchar2).
    { intros i Hi. apply Hall, elem_of_app. now right. }
    rewrite (getitem_integers_eq h r c n sel1 ints1 Hr Hn Hs1 Hi1), Hrun1.
    rewrite (getitem_integers_eq h r c n sel2 ints2 Hr Hn Hs2 Hi2), Hrun2.
    assert (E : m1 = m2).
    { apply mask_ext; [congruence|]. intros k. now rewrite Hchar1, Hchar2. }
    now rewrite E.
  - intros a1 b1 s1 a2 b2 s2 st1 sp1 st2 sp2 Hz1 Hz2 Hidx1 Hidx2 Hsame.
    destruct (set_slice_spec n a1 b1 s1 Hz1) as (st1' & sp1' & m1 & Hidx1' & Hset1 & Hlen1 & Hm1 & _).
    destruct (set_slice_spec n a2 b2 s2 Hz2) as (st2' & sp2' & m2 & Hidx2' & Hset2 & Hlen2 & Hm2 & _).
    assert (st1' = st1 ∧ sp1' = sp1) as [-> ->] by (split; congruence).
    assert (st2' = st2 ∧ sp2' = sp2) as [-> ->] by (split; congruence).
    rewrite (getitem_slice_eq h r c n a1 b1 s1 Hr Hn), Hset1.
    rewrite (getitem_slice_eq h r c n a2 b2 s2 Hr Hn), Hset2.
    assert (E : m1 = m2).
    { apply mask_ext; [congruence|]. intros k. now rewrite Hm1, Hm2. }
    now rewrite E.
Qed.

Lemma selection_keeps_catalog_order_witness :
  CatalogSourceBase_getitem 0
      (by_list [ENumber (SInt 3); ENumber (SInt 0); ENumber (SInt 3)]) survey
    = CatalogSourceBase_getitem 0 (by_list [ENumber (SInt 0); ENumber (SInt (-1))]) survey
  ∧ CatalogSourceBase_getitem 0 (by_slice None None (Some (-1)%Z)) survey
    = CatalogSourceBase_getitem 0 (by_slice None None None) survey.
Proof.
  destruct (selection_keeps_catalog_order survey 0 _ 4 eq_refl eq_refl) as [Hlist Hslice].
  split.
  - apply (Hlist _ [3; 0; 3]%Z _ [0; -1]%Z); try reflexivity.
    + intros i Hi. repeat (apply elem_of_cons in Hi as [->|Hi]); try (eexists; reflexivity).
      now apply elem_of_nil in Hi.
    + intros k. split; intros (i & Hi & Hk);
        repeat (apply elem_of_cons in Hi as [->|Hi]); try (now apply elem_of_nil in Hi);
        vm_compute in Hk; inversion Hk; subst k.
      * exists (-1)%Z. split; [listed | reflexivity].
      * exists 0%Z. split; [listed | reflexivity].
      * exists (-1)%Z. split; [listed | reflexivity].
      * exists 0%Z. split; [listed | reflexivity].
      * exists 3%Z. split; [listed | reflexivity].
  - apply (Hslice None None (Some (-1)%Z) None None None 3%Z (-1)%Z 0%Z 4%Z);
      try reflexivity; try discriminate.
    intros z. change (range 3 (-1) (default 1%Z (Some (-1)%Z))) with [3; 2; 1; 0]%Z.
    change (range 0 4 (default 1%Z None)) with [0; 1; 2; 3]%Z.
    rewrite !elem_of_cons, !elem_of_nil. tauto.
Defined.

Lemma take_all {A} (l : list A) : ∀ n, length l <= n -> numpy.take l (repeat true n) = l.
Proof.
  induction l as [|x l IH]; intros n Hn; [now destruct n|].
  destruct n as [|n]; simpl in *; [lia|]. rewrite IH by lia. reflexivity.
Qed.

Lemma getitem_all a n : numpy.len a <= n -> numpy.getitem a (repeat true n) = a.
Proof. destruct a; simpl; intros Hn; now rewrite take_all. Qed.

Lemma take_length {A} (l : list A) : ∀ index, length (numpy.take l index) <= numpy.sum index.
Proof.
  unfold numpy.sum. induction l as [|x l IH]; intros index; [destruct index; simpl; lia|].
  destruct index as [|[] index]; simpl; [lia | specialize (IH index); lia | exact (IH index)].
Qed.

Lemma evaluate_len g : numpy.len (da.evaluate g) <= da.len g.
Proof.
  destruct g as [a|d index]; simpl; [lia|].
  destruct (da.evaluate d); simpl; apply take_length.
Qed.

Lemma lookup_repeat {A} (x : A) n : ∀ k, repeat x n !! k = Some x ↔ k < n.
Proof.
  induction n as [|n IH]; intros k; simpl.
  - split; [discriminate | lia].
  - destruct k as [|k]; simpl; [split; [lia | reflexivity]|]. rewrite IH. lia.
Qed.

Lemma full_range n z : z ∈ range 0 (Z.of_nat n) 1 ↔ (0 <= z < Z.of_nat n)%Z.
Proof.
  rewrite elem_of_range. unfold range_length. simpl.
  destruct (0 <? Z.of_nat n)%Z eqn:E.
  - apply Z.ltb_lt in E. rewrite Z.div_1_r. split.
    + intros (k & Hk & ->). lia.
    + intros Hz. exists (Z.to_nat z). split; lia.
  - apply Z.ltb_ge in E. split; [intros (k & Hk & _); lia | lia].
Qed.

Lemma backward_range n z :
  z ∈ range (Z.of_nat n - 1) (-1) (-1) ↔ (0 <= z < Z.of_nat n)%Z.
Proof.
  rewrite elem_of_range. unfold range_length. simpl.
  destruct (-1 <? Z.of_nat n - 1)%Z eqn:E.
  - apply Z.ltb_lt in E. change (- -1)%Z with 1%Z. rewrite Z.div_1_r. split.
    + intros (k & Hk & ->). lia.
    + intros Hz. exists (Z.to_nat (Z.of_nat n - 1 - z)). split; lia.
  - apply Z.ltb_ge in E. split; [intros (k & Hk & _); lia | lia].
Qed.

(** The slices [cat[:]] and [cat[::-1]] both select every row: whenever
    one of them returns, the catalog has the size of the parent, and
    every column of the parent computes, read from the result, to the
    values it has in the parent, in the same order. *)
Theorem full_slice_is_identity h r c n s toret h2 :
  catalogs h !! r = Some c ->
  attrs_allocated h c ->
  CatalogSource.size c = Some n ->
  s = None ∨ s = Some 1%Z ∨ s = Some (-1)%Z ->
  CatalogSourceBase_getitem r (by_slice None None s) h = (Returned (a_catalog toret), h2) ->
  ∃ c', catalogs h2 !! toret = Some c'
    ∧ CatalogSource.size c' = Some n
    ∧ ∀ col, col ∈ CatalogSourceBase.columns c ->
        ∃ x y, CatalogSourceBase.__getitem__ r col h = (Ok x, h)
             ∧ CatalogSourceBase.__getitem__ toret col h2 = (Ok y, h2)
             ∧ ColumnAccessor_compute y h2 = (Ok (One (da.evaluate (graph_of x))), h2).
Proof.
  intros Hr Hal Hn Hs.
  assert (Hstep : default 1%Z s ≠ 0%Z) by (destruct Hs as [->|[->| ->]]; discriminate).
  destruct (set_slice_spec n None None s Hstep) as (st & sp & mask & Hidx & Hset & Hlen & Hm & Hsum).
  assert (Hall : mask = repeat true n).
  { apply mask_ext; [now rewrite repeat_length|]. intros k. rewrite Hm.
    assert (Hrange : ∀ z, z ∈ range st sp (default 1%Z s) ↔ (0 <= z < Z.of_nat n)%Z).
    { destruct Hs as [->|[->| ->]]; inversion Hidx; subst st sp; intros z;
        [apply full_range | apply full_range | apply backward_range]. }
    rewrite Hrange. split.
    - intros Hk. apply lookup_repeat. lia.
    - intros Hk. apply lookup_repeat in Hk. lia. }
  rewrite (getitem_slice_eq h r c n None None s Hr Hn), Hset, earlier_subset.
  destruct (get_catalog_subset r (IArray (BoolArray mask)) h) as [[toret'|e] h2'] eqn:Hsub;
    [|discriminate].
  intros E. inversion E. subst toret' h2'. clear E.
  destruct (subset_stored _ _ _ _ _ _ Hr Hal Hsub) as (mask' & c' & Hmask' & _ & Ht & Hcols).
  inversion Hmask'. subst mask'.
  assert (Hn' : CatalogSource.size c = Some (length mask)) by congruence.
  destruct (subset_returned_size h r c (IArray (BoolArray mask)) mask Hr Hal Hn' eq_refl
              toret h2 Hsub) as (c'' & Hc'' & Hsize).
  assert (c'' = c') by congruence. subst c''.
  exists c'. split; [exact Ht|]. split.
  { rewrite Hsize, Hsum. f_equal.
    destruct Hs as [->|[->| ->]]; inversion Hidx; subst st sp; unfold range_length; simpl.
    - destruct (0 <? Z.of_nat n)%Z eqn:E; [rewrite Z.div_1_r; lia | apply Z.ltb_ge in E; lia].
    - destruct (0 <? Z.of_nat n)%Z eqn:E; [rewrite Z.div_1_r; lia | apply Z.ltb_ge in E; lia].
    - destruct (-1 <? Z.of_nat n - 1)%Z eqn:E;
        [change (- -1)%Z with 1%Z; rewrite Z.div_1_r; lia | apply Z.ltb_ge in E; lia]. }
  intros col Hcol. destruct (Hcols col Hcol) as (x & Hx & Hlenx & Hlook).
  exists x, (new_ColumnAccessor toret (Array (select (graph_of x) mask))).
  split; [now rewrite (getitem_resolve _ _ _ _ Hr), Hx|]. split.
  - rewrite (getitem_resolve _ _ _ _ Ht). now rewrite (resolve_override _ _ _ _ Hlook).
  - rewrite (compute_accessor _ _ _ _ Ht). simpl. rewrite Hall.
    rewrite getitem_all; [reflexivity|].
    pose proof (evaluate_len (graph_of x)). lia.
Qed.

Lemma full_slice_is_identity_witness :
  let h2 := (CatalogSourceBase_getitem 0 (by_slice None None (Some (-1)%Z)) survey).2 in
  ∃ c' y, catalogs h2 !! 1 = Some c'
          ∧ CatalogSource.size c' = Some 4
          ∧ CatalogSourceBase.__getitem__ 1 "Mass" h2 = (Ok y, h2)
          ∧ ColumnAccessor_compute y h2 = (Ok (One (IntArray [10; 20; 30; 40]%Z)), h2).
Proof.
  intros h2.
  destruct (full_slice_is_identity survey 0 _ 4 (Some (-1)%Z) 1 h2 eq_refl (ex_intro _ _ eq_refl)
              eq_refl) as (c' & Hc' & Hsize & Hcols); [auto | vm_compute; reflexivity |].
  destruct (Hcols "Mass") as (x & y & Hx & Hy & Hv); [listed|].
  exists c', y. split; [exact Hc'|]. split; [exact Hsize|]. split; [exact Hy|].
  rewrite Hv. inversion Hx. reflexivity.
Defined.

(** ** [read] *)

Lemma resolve_present r c col :
  col ∈ CatalogSourceBase.columns c ->
  (∃ x, resolve r c col = Ok x) ∨ resolve r c col = Raise (ColumnError col).
Proof.
  intros Hcol. unfold resolve.
  destruct (_overrides (self c) !! col) as [x|] eqn:Hx; [left; eauto|].
  apply elem_of_columns in Hcol as [Hd|[x Hx']]; [|congruence].
  rewrite bool_decide_eq_true_2 by (now apply elem_of_find_columns).
  destruct (find_column_declared _ _ Hd) as [getter Hg].
  unfold CatalogSourceBase.get_hardcolumn, mbind, result_bind. rewrite Hg.
  destruct (getter (self c)); [left; eauto | right; reflexivity].
Qed.

Lemma collect_cons {A B} (f : A -> X B) x l h :
  collect f (x :: l) h =
    match f x h with
    | (Returned y, h') =>
        match collect f l h' with
        | (Returned ys, h'') => (Returned (y :: ys), h'')
        | (Thrown e, h'') => (Thrown e, h'')
        end
    | (Thrown e, h') => (Thrown e, h')
    end.
Proof.
  simpl. unfold mbind, X_bind. destruct (f x h) as [[y|e] h']; [|reflexivity].
  now destruct (collect f l h') as [[ys|e] h''].
Qed.

Lemma earlier_getitem h r c col :
  catalogs h !! r = Some c ->
  earlier (CatalogSourceBase.__getitem__ r col) h =
    match resolve r c col with
    | Ok x => (Returned x, h)
    | Raise e => (Thrown (Earlier e), h)
    end.
Proof.
  intros Hr. unfold earlier. rewrite (getitem_resolve _ _ _ _ Hr).
  now destruct (resolve r c col).
Qed.

Lemma collect_getitem h r c : ∀ columns,
  catalogs h !! r = Some c ->
  (∀ col, col ∈ columns -> col ∈ CatalogSourceBase.columns c) ->
  (∃ xs, collect (fun col => earlier (CatalogSourceBase.__getitem__ r col)) columns h
           = (Returned xs, h)
         ∧ Forall2 (fun col x => CatalogSourceBase.__getitem__ r col h = (Ok x, h)) columns xs)
  ∨ (∃ col, col ∈ columns
        ∧ collect (fun col => earlier (CatalogSourceBase.__getitem__ r col)) columns h
            = (Thrown (Earlier (ColumnError col)), h)).
Proof.
  intros columns Hr. induction columns as [|col columns' IH]; intros Hall.
  - left. exists []. split; [reflexivity | constructor].
  - rewrite collect_cons, (earlier_getitem _ _ _ _ Hr).
    destruct (resolve_present r c col) as [[x Hx]|Hx]; [apply Hall; left | |]; rewrite Hx.
    + destruct IH as [(xs & Hrun & Hxs)|(bad & Hbad & Hrun)].
      { intros k Hk. apply Hall. now right. }
      * left. exists (x :: xs). rewrite Hrun. split; [reflexivity|].
        constructor; [|exact Hxs]. now rewrite (getitem_resolve _ _ _ _ Hr), Hx.
      * right. exists bad. split; [now right|]. now rewrite Hrun.
    + right. exists col. split; [left | reflexivity].
Qed.

Lemma elem_of_missing_columns c columns col :
  col ∈ missing_columns c columns ↔ col ∈ columns ∧ col ∉ CatalogSourceBase.columns c.
Proof.
  unfold missing_columns, pyset.
  rewrite list_elem_of_In, filter_In, <- list_elem_of_In, elem_of_remove_dups,
    negb_true_iff, bool_decide_eq_false.
  now rewrite elem_of_remove_dups.
Qed.

Lemma read_eq h r c columns :
  catalogs h !! r = Some c ->
  CatalogSourceBase_read r columns h =
    if Nat.ltb 0 (length (missing_columns c columns))
    then (Thrown (ValueError_missing_columns (missing_columns c columns)), h)
    else collect (fun col => earlier (CatalogSourceBase.__getitem__ r col)) columns h.
Proof.
  intros Hr. unfold CatalogSourceBase_read.
  unfold mbind at 1. unfold X_bind. rewrite (earlier_read _ _ _ Hr).
  fold (missing_columns c columns). now destruct (Nat.ltb _ _).
Qed.

(** [read]: when every requested name is a column, the accessors are
    returned in the order of the request, each the one [self[col]] gives,
    unless the function of a hard column fails; when some name is no
    column, nothing is read and the [ValueError] lists exactly the
    requested names that are no columns.  The heap is left as it was in
    each case. *)
Theorem read_columns h r c columns :
  catalogs h !! r = Some c ->
  if decide (Forall (fun col => col ∈ CatalogSourceBase.columns c) columns)
  then
    (∃ xs, CatalogSourceBase_read r columns h = (Returned xs, h)
           ∧ Forall2 (fun col x => CatalogSourceBase.__getitem__ r col h = (Ok x, h)) columns xs)
    ∨ (∃ col, col ∈ columns
          ∧ CatalogSourceBase_read r columns h = (Thrown (Earlier (ColumnError col)), h))
  else
    CatalogSourceBase_read r columns h
      = (Thrown (ValueError_missing_columns (missing_columns c columns)), h)
    ∧ ∀ col, col ∈ missing_columns c columns
             ↔ col ∈ columns ∧ col ∉ CatalogSourceBase.columns c.
Proof.
  intros Hr. rewrite (read_eq _ _ _ _ Hr).
  destruct (decide _) as [Hall|Hsome].
  - rewrite Forall_forall in Hall.
    assert (Hnone : missing_columns c columns = []).
    { destruct (missing_columns c columns) as [|x l] eqn:E; [reflexivity|].
      assert (Hx : x ∈ missing_columns c columns) by (rewrite E; left).
      apply elem_of_missing_columns in Hx as [Hx Hout]. destruct Hout. now apply Hall. }
    rewrite Hnone. simpl. now apply (collect_getitem h r c).
  - split; [|apply elem_of_missing_columns].
    apply not_Forall_Exists in Hsome; [|intros x; apply _].
    apply Exists_exists in Hsome as (col & Hcol & Hout).
    assert (Hx : col ∈ missing_columns c columns) by (apply elem_of_missing_columns; auto).
    destruct (missing_columns c columns) as [|x l]; [now apply elem_of_nil in Hx | reflexivity].
Qed.

Lemma read_columns_witness :
  ∃ missing,
    CatalogSourceBase_read 0 ["Mass"; "Charge"; "Weight"] survey
      = (Thrown (ValueError_missing_columns missing), survey)
    ∧ "Charge" ∈ missing ∧ "Mass" ∉ missing.
Proof.
  pose proof (read_columns survey 0 _ ["Mass"; "Charge"; "Weight"] eq_refl) as H.
  destruct (decide _) as [Hall|_] in H.
  - exfalso. apply Forall_cons in Hall as [_ Hall]. apply Forall_cons in Hall as [Hin _].
    revert Hin. unlisted.
  - destruct H as [Hrun Hchar]. eexists. split; [exact Hrun|]. split.
    + apply Hchar. split; [listed | unlisted].
    + intros Hin. apply Hchar in Hin as [_ Hout]. apply Hout. listed.
Defined.

(** ** [to_mesh] *)

Lemma to_mesh_columns methods h r c args :
  catalogs h !! r = Some c ->
  CatalogSourceBase_to_mesh methods r args h =
    if negb (bool_decide (kw_weight args ∈ CatalogSourceBase.columns c))
    then (Thrown (ValueError_mesh_column (kw_weight args)), h)
    else if negb (bool_decide (kw_selection args ∈ CatalogSourceBase.columns c))
    then (Thrown (ValueError_mesh_column (kw_selection args)), h)
    else if negb (bool_decide (kw_window args ∈ methods)) then (Thrown ValueError_window, h)
    else
      (BoxSize ← match kw_BoxSize args with
                 | Some b => mret b
                 | None => attrs_item r "BoxSize" ValueError_BoxSize
                 end;
       Nmesh ← match kw_Nmesh args with
               | Some n => mret n
               | None => attrs_item r "Nmesh" ValueError_Nmesh
               end;
       mret (mesh_of r args Nmesh BoxSize)) h.
Proof.
  intros Hr. unfold CatalogSourceBase_to_mesh.
  assert (Hcheck : ∀ col,
    (c ← earlier (read r);
     if CatalogSourceBase.__contains__ c col then mret tt
     else throw (ValueError_mesh_column col)) h
    = if bool_decide (col ∈ CatalogSourceBase.columns c) then (Returned tt, h)
      else (Thrown (ValueError_mesh_column col), h)).
  { intros col. unfold mbind, X_bind. rewrite (earlier_read _ _ _ Hr).
    unfold CatalogSourceBase.__contains__. now destruct (bool_decide _). }
  unfold mbind at 1. unfold X_bind. rewrite collect_cons, Hcheck.
  destruct (bool_decide (kw_weight args ∈ _)); [|reflexivity].
  rewrite collect_cons, Hcheck.
  destruct (bool_decide (kw_selection args ∈ _)); [|reflexivity].
  simpl. destruct (bool_decide (kw_window args ∈ methods)); reflexivity.
Qed.

(** The checks of [to_mesh], in their order: the weight column, then the
    selection column, then the window; none of them looks at the value or
    the position column.  With the three in order and both [Nmesh] and
    [BoxSize] supplied, the mesh is built from the arguments as given and
    the heap is left as it was. *)
Theorem to_mesh_checks methods h r c args :
  catalogs h !! r = Some c ->
  (kw_weight args ∉ CatalogSourceBase.columns c ->
     CatalogSourceBase_to_mesh methods r args h
       = (Thrown (ValueError_mesh_column (kw_weight args)), h))
  ∧ (kw_weight args ∈ CatalogSourceBase.columns c ->
     kw_selection args ∉ CatalogSourceBase.columns c ->
     CatalogSourceBase_to_mesh methods r args h
       = (Thrown (ValueError_mesh_column (kw_selection args)), h))
  ∧ (checked c args -> kw_window args ∉ methods ->
     CatalogSourceBase_to_mesh methods r args h = (Thrown ValueError_window, h))
  ∧ (checked c args -> kw_window args ∈ methods ->
     ∀ n b, kw_Nmesh args = Some n -> kw_BoxSize args = Some b ->
       CatalogSourceBase_to_mesh methods r args h = (Returned (mesh_of r args n b), h)).
Proof.
  intros Hr. rewrite (to_mesh_columns _ _ _ _ _ Hr). split; [|split; [|split]].
  - intros Hw. now rewrite bool_decide_eq_false_2.
  - intros Hw Hs. rewrite bool_decide_eq_true_2 by exact Hw. simpl.
    now rewrite bool_decide_eq_false_2.
  - intros [Hw Hs] Hwin. rewrite !bool_decide_eq_true_2 by assumption. simpl.
    now rewrite bool_decide_eq_false_2.
  - intros [Hw Hs] Hwin n b Hn Hb. rewrite !bool_decide_eq_true_2 by assumption. simpl.
    now rewrite Hn, Hb.
Qed.

Lemma to_mesh_checks_witness :
  let args := {| kw_Nmesh := Some (AScalar (SInt 64)); kw_BoxSize := Some (AScalar (SFloat 250));
                 kw_dtype := "f4"; kw_interlaced := false; kw_compensated := true;
                 kw_window := "tsc"; kw_weight := "Mass"; kw_value := "Value";
                 kw_selection := "Selection"; kw_position := "Position" |} in
  CatalogSourceBase_to_mesh ["cic"; "tsc"] 0 args survey
    = (Returned (mesh_of 0 args (AScalar (SInt 64)) (AScalar (SFloat 250))), survey)
  ∧ CatalogSourceBase_to_mesh ["cic"] 0 args survey = (Thrown ValueError_window, survey).
Proof.
  intros args.
  destruct (to_mesh_checks ["cic"; "tsc"] survey 0 _ args eq_refl) as (_ & _ & _ & Hok).
  destruct (to_mesh_checks ["cic"] survey 0 _ args eq_refl) as (_ & _ & Hwin & _).
  split.
  - apply Hok; [split; listed | listed | reflexivity | reflexivity].
  - apply Hwin; [split; listed | unlisted].
Defined.

Lemma attrs_item_spec h r c key missing :
  catalogs h !! r = Some c ->
  attrs_allocated h c ->
  ∃ h' c',
    attrs_item r key missing h =
      (match default ∅ (attrs_of h r) !! key with
       | Some v => Returned v
       | None => Thrown missing
       end, h')
    ∧ catalogs h' !! r = Some c'
    ∧ attrs_allocated h' c'
    ∧ CatalogSourceBase.columns c' = CatalogSourceBase.columns c
    ∧ default ∅ (attrs_of h' r) = default ∅ (attrs_of h r).
Proof.
  intros Hr Hal.
  assert (Hof : attrs_of h r = _attrs (self c) ≫= fun l => dicts h !! l).
  { unfold attrs_of. now rewrite Hr. }
  unfold attrs_item, CatalogSourceBase.attrs, attrs_allocated in *.
  unfold mbind at 1. unfold X_bind, earlier at 1. unfold mbind at 1. unfold M_bind.
  rewrite (read_Some _ _ _ Hr), Hof.
  destruct (_attrs (self c)) as [l|] eqn:Hl.
  - destruct Hal as [d Hd]. exists h, c. unfold mret, M_ret. simpl.
    unfold mbind at 1. unfold X_bind, earlier, read_dict. rewrite Hd. simpl.
    split; [now destruct (d !! key)|]. split; [exact Hr|]. split; [|split; [reflexivity|]].
    + rewrite Hl. eauto.
    + unfold attrs_of. rewrite Hr. simpl. rewrite Hl. simpl. rewrite Hd. reflexivity.
  - unfold mbind at 1. unfold M_bind, new_dict, write, mret, M_ret. simpl.
    unfold mbind at 1. unfold X_bind, earlier, read_dict. simpl.
    rewrite lookup_snoc. simpl.
    exists (Heap (<[r := set_attrs (length (dicts h)) c]> (catalogs h)) (dicts h ++ [∅])),
      (set_attrs (length (dicts h)) c). simpl.
    split; [rewrite lookup_empty; reflexivity|].
    split; [eapply lookup_write, Hr|]. simpl.
    split; [rewrite lookup_snoc; eauto|]. split; [reflexivity|].
    unfold attrs_of. simpl. rewrite (lookup_write _ _ _ _ Hr). simpl.
    now rewrite lookup_snoc.
Qed.

(** [BoxSize] and [Nmesh] in [to_mesh]: a supplied argument is used as it
    is, a missing one is looked up in [attrs]; a missing [BoxSize] is
    reported before a missing [Nmesh].  Reading [attrs] may create the
    dictionary, but the entries and the columns of the catalog stay as
    they were. *)
Theorem to_mesh_from_attrs methods h r c args :
  catalogs h !! r = Some c ->
  attrs_allocated h c ->
  checked c args ->
  kw_window args ∈ methods ->
  ∃ h' c',
    CatalogSourceBase_to_mesh methods r args h =
      (match supplied (kw_BoxSize args) (default ∅ (attrs_of h r)) "BoxSize" with
       | None => Thrown ValueError_BoxSize
       | Some b =>
           match supplied (kw_Nmesh args) (default ∅ (attrs_of h r)) "Nmesh" with
           | None => Thrown ValueError_Nmesh
           | Some n => Returned (mesh_of r args n b)
           end
       end, h')
    ∧ catalogs h' !! r = Some c'
    ∧ CatalogSourceBase.columns c' = CatalogSourceBase.columns c
    ∧ default ∅ (attrs_of h' r) = default ∅ (attrs_of h r).
Proof.
  intros Hr Hal [Hw Hs] Hwin. rewrite (to_mesh_columns _ _ _ _ _ Hr).
  rewrite !bool_decide_eq_true_2 by assumption. simpl.
  destruct (kw_BoxSize args) as [b|]; simpl.
  - destruct (kw_Nmesh args) as [n|]; simpl; [exists h, c; auto|].
    destruct (attrs_item_spec h r c "Nmesh" ValueError_Nmesh Hr Hal)
      as (h1 & c1 & Hrun & Hr1 & _ & Hcols & Hattrs).
    exists h1, c1. unfold mbind, X_bind, mret, X_ret. rewrite Hrun.
    split; [now destruct (default ∅ (attrs_of h r) !! "Nmesh") | auto].
  - destruct (attrs_item_spec h r c "BoxSize" ValueError_BoxSize Hr Hal)
      as (h1 & c1 & Hrun & Hr1 & Hal1 & Hcols & Hattrs).
    unfold mbind at 1. unfold X_bind. rewrite Hrun.
    destruct (_ !! "BoxSize") as [b|]; [|exists h1, c1; auto].
    destruct (kw_Nmesh args) as [n|]; simpl; [exists h1, c1; auto|].
    destruct (attrs_item_spec h1 r c1 "Nmesh" ValueError_Nmesh Hr1 Hal1)
      as (h2 & c2 & Hrun2 & Hr2 & _ & Hcols2 & Hattrs2).
    exists h2, c2. unfold mbind, X_bind, mret, X_ret. rewrite Hrun2, Hattrs.
    split; [now destruct (default ∅ (attrs_of h r) !! "Nmesh")|]. split; [exact Hr2|].
    split; congruence.
Qed.

Lemma to_mesh_from_attrs_witness :
  let args := {| kw_Nmesh := Some (AScalar (SInt 64)); kw_BoxSize := None;
                 kw_dtype := "f4"; kw_interlaced := false; kw_compensated := false;
                 kw_window := "cic"; kw_weight := "Weight"; kw_value := "Value";
                 kw_selection := "Selection"; kw_position := "Position" |} in
  (∃ h', CatalogSourceBase_to_mesh ["cic"; "tsc"] 0 args survey
           = (Returned (mesh_of 0 args (AScalar (SInt 64)) (AScalar (SInt 100))), h'))
  ∧ (∃ h', CatalogSourceBase_to_mesh ["cic"; "tsc"] 0 mesh_defaults survey
             = (Thrown ValueError_Nmesh, h')).
Proof.
  intros args. split.
  - destruct (to_mesh_from_attrs ["cic"; "tsc"] survey 0 _ args eq_refl (ex_intro _ _ eq_refl))
      as (h' & c' & Hrun & _); [split; listed | listed |].
    exists h'. exact Hrun.
  - destruct (to_mesh_from_attrs ["cic"; "tsc"] survey 0 _ mesh_defaults eq_refl
                (ex_intro _ _ eq_refl))
      as (h' & c' & Hrun & _); [split; listed | listed |].
    exists h'. exact Hrun.
Defined.

(** ** Initialisation *)

(** [CatalogSource.__init__] never fails, although [update_csize] raises a
    [ValueError] on a catalog whose size is not implemented: it calls
    [update_csize] only when the size is known.  It empties the stored
    columns, sets the communicator and the cache setting, keeps the class,
    the size and [attrs], and sets the collective size to the all-reduce
    of the size over the new communicator when the size is known. *)
Theorem init_outcome h r c k uc :
  catalogs h !! r = Some c ->
  (CatalogSource.size c = None -> CatalogSource.update_csize r h = (Raise ValueError_csize, h))
  ∧ ∃ c',
      CatalogSource.__init__ r k uc h = (Ok tt, Heap (<[r := c']> (catalogs h)) (dicts h))
      ∧ class_of c' = class_of c
      ∧ CatalogSource.size c' = CatalogSource.size c
      ∧ _attrs (self c') = _attrs (self c)
      ∧ _overrides (self c') = ∅
      ∧ comm (self c') = k
      ∧ _use_cache (self c') = uc
      ∧ _csize (self c') = match CatalogSource.size c with
                           | Some n => Some (allreduce k n)
                           | None => _csize (self c)
                           end.
Proof.
  intros Hr. split.
  - intros Hn. unfold CatalogSource.update_csize, mbind, M_bind.
    now rewrite (read_Some _ _ _ Hr), Hn.
  - set (c1 := set_overrides ∅ (set_comm k uc c)).
    assert (Hr1 : catalogs (Heap (<[r := c1]> (catalogs h)) (dicts h)) !! r = Some c1)
      by (eapply lookup_write, Hr).
    unfold CatalogSource.__init__, CatalogSourceBase.__init__.
    unfold mbind, M_bind. rewrite (read_Some _ _ _ Hr). unfold write at 1. fold c1.
    rewrite (read_Some _ _ _ Hr1).
    destruct (CatalogSource.size c) as [n|] eqn:Hn.
    + assert (Hn1 : CatalogSource.size c1 = Some n) by exact Hn. rewrite Hn1.
      unfold CatalogSource.update_csize, mbind, M_bind. rewrite (read_Some _ _ _ Hr1), Hn1.
      unfold write. simpl. rewrite list_insert_insert_eq.
      exists (set_csize (allreduce k n) c1). auto 10.
    + assert (Hn1 : CatalogSource.size c1 = None) by exact Hn. rewrite Hn1.
      exists c1. unfold mret, M_ret. auto 10.
Qed.

Lemma init_outcome_witness :
  let several := {| rank := 1; allreduce := fun n => 3 * n |} in
  ∃ c', (CatalogSource.__init__ 0 several true survey).1 = Ok tt
        ∧ catalogs (CatalogSource.__init__ 0 several true survey).2 !! 0 = Some c'
        ∧ _overrides (self c') = ∅
        ∧ _csize (self c') = Some 12.
Proof.
  intros several.
  destruct (init_outcome survey 0 _ several true eq_refl) as (_ & c' & Hrun & _ & _ & _ & Ho & _ & _ & Hcs).
  exists c'. rewrite Hrun. simpl. auto.
Defined.

(** * Properties of [nbodykit.extensionpoints] *)

Import extensionpoints.

(** ** Extension points: dictionaries *)

Lemma dict_get_setitem {V} (k k' : string) (v : V) d :
  dict_get k (dict_setitem k' v d) = if String.eqb k k' then Some v else dict_get k d.
Proof.
  induction d as [|[k0 v0] d' IH]; simpl.
  - now destruct (String.eqb k k').
  - destruct (String.eqb k' k0) eqn:E0; simpl.
    + apply String.eqb_eq in E0. subst k0. now destruct (String.eqb k k').
    + destruct (String.eqb k k0) eqn:E1.
      * apply String.eqb_eq in E1. subst k0. rewrite String.eqb_sym in E0. now rewrite E0.
      * exact IH.
Qed.

Lemma dict_get_cons {V} (k k' : string) (v : V) d :
  dict_get k ((k', v) :: d) = if String.eqb k k' then Some v else dict_get k d.
Proof. reflexivity. Qed.

Lemma dict_get_is_Some {V} (k : string) (d : pydict V) : is_Some (dict_get k d) ↔ k ∈ d.*1.
Proof.
  induction d as [|[k0 v0] d' IH]; simpl.
  - rewrite elem_of_nil. split; [intros [x H]; discriminate | tauto].
  - rewrite elem_of_cons. destruct (String.eqb k k0) eqn:E.
    + apply String.eqb_eq in E. split; [auto | eauto].
    + apply String.eqb_neq in E. rewrite IH. tauto.
Qed.

Lemma dict_get_None {V} (k : string) (d : pydict V) : dict_get k d = None ↔ k ∉ d.*1.
Proof. rewrite <- dict_get_is_Some, eq_None_not_Some. tauto. Qed.

Lemma dict_pop_absent {V} (k : string) (d : pydict V) : k ∉ d.*1 -> dict_pop k d = d.
Proof.
  induction d as [|[k0 v0] d' IH]; simpl; [reflexivity|].
  intros H. apply not_elem_of_cons in H as [Hne H].
  apply String.eqb_neq in Hne. rewrite Hne. now rewrite IH.
Qed.

Lemma dict_get_middle {V} (k : string) (v : V) d1 d2 :
  k ∉ d1.*1 -> dict_get k (d1 ++ (k, v) :: d2) = Some v.
Proof.
  induction d1 as [|[k0 v0] d1' IH]; simpl.
  - intros _. now rewrite String.eqb_refl.
  - intros H. apply not_elem_of_cons in H as [Hne H].
    apply String.eqb_neq in Hne. rewrite Hne. now apply IH.
Qed.

Lemma dict_pop_middle {V} (k : string) (v : V) d1 d2 :
  k ∉ d1.*1 -> dict_pop k (d1 ++ (k, v) :: d2) = d1 ++ d2.
Proof.
  induction d1 as [|[k0 v0] d1' IH]; simpl.
  - intros _. now rewrite String.eqb_refl.
  - intros H. apply not_elem_of_cons in H as [Hne H].
    apply String.eqb_neq in Hne. rewrite Hne. now rewrite IH.
Qed.

(** ** Extension points: registration *)

Lemma setattr_get s registry name cls ns k :
  dict_get k (setattr s registry name cls ns) =
    if decide (ns = registry)
    then (if String.eqb k name then Some cls else dict_get k (s ns))
    else dict_get k (s ns).
Proof.
  unfold setattr. destruct (decide (ns = registry)); [apply dict_get_setitem | reflexivity].
Qed.

Lemma isplugin_in_Some valid s name :
  isplugin_in valid s name = Some true ↔ ∃ ns, ns ∈ valid ∧ is_Some (dict_get name (s ns)).
Proof.
  induction valid as [|ns valid' IH]; simpl.
  - split; [discriminate|]. intros (ns & H & _). now apply elem_of_nil in H.
  - destruct (bool_decide (is_Some (dict_get name (s ns)))) eqn:E.
    + apply bool_decide_eq_true in E. split; [|reflexivity]. intros _. exists ns. split; [left | exact E].
    + apply bool_decide_eq_false in E. rewrite IH. split.
      * intros (ns' & H & Hs). exists ns'. split; [now right | exact Hs].
      * intros (ns' & H & Hs). apply elem_of_cons in H as [->|H]; [contradiction|]. eauto.
Qed.

Lemma valid_all ns : ns ∈ __valid__.
Proof. unfold __valid__. destruct ns; repeat constructor. Qed.

Lemma isplugin_Some s name :
  isplugin s name = Some true ↔ ∃ ns, is_Some (dict_get name (s ns)).
Proof.
  unfold isplugin. rewrite isplugin_in_Some. split.
  - intros (ns & _ & H). eauto.
  - intros (ns & H). exists ns. split; [apply valid_all | exact H].
Qed.


Lemma new_subclass cls : subclass cls -> PluginMount___new__ cls = cls.
Proof.
  intros (H0 & H1 & _). unfold PluginMount___new__.
  destruct (__bases__ cls) as [|b [|b' l]] eqn:E; simpl; try reflexivity; [congruence|].
  destruct (bool_decide (Some b = Some "object")) eqn:Hb; [|reflexivity].
  apply bool_decide_eq_true in Hb. congruence.
Qed.

Lemma new_mount cls :
  ¬ subclass cls -> __bases__ (PluginMount___new__ cls) = ["PluginInterface"].
Proof.
  intros Hn. unfold PluginMount___new__.
  destruct (__bases__ cls) as [|b [|b' l]] eqn:E; simpl; try reflexivity.
  - destruct (bool_decide (Some b = Some "object")) eqn:Hb; [reflexivity|].
    apply bool_decide_eq_false in Hb. rewrite E.
    destruct (decide (b = "PluginInterface")) as [->|Hne]; [reflexivity|].
    destruct Hn. unfold subclass. rewrite E. repeat split; congruence.
  - destruct Hn. unfold subclass. rewrite E. repeat split; congruence.
Qed.

Lemma init_registries cls s :
  (PluginMount___init__ cls s).2 = s
  ∨ (∃ name, plugin_name cls = Some name ∧ dict_get name (s (registry cls)) = None
       ∧ __bases__ cls ≠ ["PluginInterface"]
       ∧ (PluginMount___init__ cls s).2 = setattr s (registry cls) name cls).
Proof.
  unfold PluginMount___init__.
  destruct (bool_decide (__bases__ cls = ["PluginInterface"])) eqn:Hb; [now left|].
  apply bool_decide_eq_false in Hb.
  destruct (plugin_name cls) as [name|]; [|now left].
  destruct (bool_decide (is_Some (dict_get name (s (registry cls))))) eqn:E; [now left|].
  apply bool_decide_eq_false in E. apply eq_None_not_Some in E.
  destruct (defines_init cls); simpl; [|now left].
  right. exists name. repeat split; try assumption. now destruct (call_register cls).
Qed.

Lemma PluginMount_registries cls s :
  (PluginMount cls s).2 = (PluginMount___init__ (PluginMount___new__ cls) s).2.
Proof.
  unfold PluginMount. now destruct (PluginMount___init__ _ s) as [[[]|e] s'].
Qed.

(** The class statement never unregisters and never replaces a plugin:
    every name keeps the class it was first registered with.  The one
    name that can be new is the [plugin_name] of the class, in its own
    registry, and it then stands for this class.  A class without bases,
    or with [object] or [PluginInterface] as its only base, is an
    extension point: its statement registers nothing and does not fail,
    whatever the class carries. *)
Theorem registration_keeps_first cls s :
  (∀ ns name k,
     dict_get name (s ns) = Some k ->
     dict_get name ((PluginMount cls s).2 ns) = Some k)
  ∧ (∀ ns name k,
       dict_get name ((PluginMount cls s).2 ns) = Some k ->
       dict_get name (s ns) = Some k
       ∨ (dict_get name (s ns) = None ∧ subclass cls ∧ ns = registry cls
          ∧ plugin_name cls = Some name ∧ k = cls))
  ∧ (¬ subclass cls -> PluginMount cls s = (Return (PluginMount___new__ cls), s)).
Proof.
  split; [|split].
  - intros ns name k Hk. rewrite PluginMount_registries.
    destruct (init_registries (PluginMount___new__ cls) s) as [->|(n & Hn & Hnew & _ & ->)];
      [exact Hk|].
    rewrite setattr_get. destruct (decide (ns = _)) as [->|]; [|exact Hk].
    destruct (String.eqb name n) eqn:En; [|exact Hk].
    apply String.eqb_eq in En. congruence.
  - intros ns name k. rewrite PluginMount_registries.
    destruct (init_registries (PluginMount___new__ cls) s) as [->|(n & Hn & Hnew & Hb & ->)];
      [auto|].
    assert (Hsub : subclass cls).
    { destruct (decide (__bases__ cls = [])) as [E|H0];
        [destruct Hb; unfold PluginMount___new__; now rewrite E|].
      destruct (decide (__bases__ cls = ["object"])) as [E|H1];
        [destruct Hb; unfold PluginMount___new__; now rewrite E|].
      destruct (decide (__bases__ cls = ["PluginInterface"])) as [E|H2]; [|done].
      destruct Hb. apply new_mount. intros (_ & _ & H). contradiction. }
    rewrite (new_subclass _ Hsub) in *.
    rewrite setattr_get. destruct (decide (ns = _)) as [->|]; [|auto].
    destruct (String.eqb name n) eqn:En; [|auto].
    apply String.eqb_eq in En. subst n. intros Hk. inversion Hk. subst k. auto 10.
  - intros Hn. unfold PluginMount, PluginMount___init__.
    now rewrite (new_mount _ Hn).
Qed.

Lemma registration_keeps_first_witness :
  dict_get "FOFGroups" ((PluginMount unfinished loaded).2 datasources) = Some finished
  ∧ PluginMount DataSource loaded = (Return (PluginMount___new__ DataSource), loaded).
Proof.
  destruct (registration_keeps_first unfinished loaded) as (Hkeep & _ & _).
  destruct (registration_keeps_first DataSource loaded) as (_ & _ & Hmount).
  split.
  - apply Hkeep. reflexivity.
  - apply Hmount. intros (_ & _ & H). now apply H.
Defined.

(** A plugin whose [register] raises is registered all the same: the name
    is entered before [register] is called.  The class statement fails
    with the exception of [register], but from then on the registry holds
    the failed class, [isplugin] answers [True] for its name, and a later
    class of the same name is passed over without a word: its statement
    succeeds and registers nothing. *)
Theorem failed_registration_blocks_name s broken fixed name e :
  subclass broken ->
  subclass fixed ->
  plugin_name broken = Some name ->
  plugin_name fixed = Some name ->
  registry fixed = registry broken ->
  dict_get name (s (registry broken)) = None ->
  defines_init broken = true ->
  call_register broken = Fail e ->
  ∃ s1,
    PluginMount broken s = (Fail e, s1)
    ∧ getattr (s1 (registry broken)) (YStr name) = Return broken
    ∧ isplugin s1 name = Some true
    ∧ PluginMount fixed s1 = (Return fixed, s1).
Proof.
  intros Hb Hf Hnb Hnf Hreg Hnew Hinit Hcall.
  assert (Hget : dict_get name (setattr s (registry broken) name broken (registry broken))
                 = Some broken).
  { rewrite setattr_get. rewrite decide_True by reflexivity. now rewrite String.eqb_refl. }
  exists (setattr s (registry broken) name broken). split; [|split; [|split]].
  - unfold PluginMount. rewrite (new_subclass _ Hb). unfold PluginMount___init__.
    rewrite bool_decide_eq_false_2 by apply Hb.
    rewrite Hnb, Hnew. rewrite bool_decide_eq_false_2 by (intros [x Hx]; discriminate).
    now rewrite Hinit, Hcall.
  - unfold getattr. now rewrite Hget.
  - apply isplugin_Some. exists (registry broken). rewrite Hget. eauto.
  - unfold PluginMount. rewrite (new_subclass _ Hf). unfold PluginMount___init__.
    rewrite bool_decide_eq_false_2 by apply Hf.
    rewrite Hnf, Hreg, Hget. now rewrite bool_decide_eq_true_2 by eauto.
Qed.

Lemma failed_registration_blocks_name_witness :
  ∃ s1,
    PluginMount unfinished nothing_loaded = (Fail NotImplementedError, s1)
    ∧ isplugin s1 "FOFGroups" = Some true
    ∧ PluginMount finished s1 = (Return finished, s1).
Proof.
  destruct (failed_registration_blocks_name nothing_loaded unfinished finished "FOFGroups"
              NotImplementedError) as (s1 & Hrun & _ & Hplugin & Hlater);
    try reflexivity; try (repeat split; discriminate).
  exists s1. auto.
Defined.

(** ** Extension points: creating plugins *)

Lemma create_with_nothing ext s cls name :
  create_with ext s cls (YStr name) [] = create ext s cls (YStr name) false [].
Proof.
  unfold create_with, create. simpl.
  destruct (bool_decide (is_Some (dict_get name (s (registry cls))))); simpl; [|reflexivity].
  now destruct (dict_get name (s (registry cls))).
Qed.

(** The four ways of naming a plugin in a configuration come to the same
    call of [create]: a mapping with the name under [plugin] among the
    arguments, at any place; a mapping with the name as its only key and
    the arguments under it; on the class of the plugin itself, the
    arguments alone, unless there is exactly one; and, without arguments,
    the name as a string.  Each creates the plugin of that name with the
    arguments cast by the schema, or fails with the [ValueError] that
    wraps the failure of this call. *)
Theorem from_config_forms ext s cls name d1 d2 :
  name ≠ "plugin" ->
  "plugin" ∉ (d1 ++ d2).*1 ->
  from_config ext s cls (YDict (d1 ++ ("plugin", YStr name) :: d2))
    = parsing (YDict (d1 ++ ("plugin", YStr name) :: d2))
        (create_with ext s cls (YStr name) (d1 ++ d2))
  ∧ from_config ext s cls (YDict [(name, YDict (d1 ++ d2))])
    = parsing (YDict [(name, YDict (d1 ++ d2))])
        (create_with ext s cls (YStr name) (d1 ++ d2))
  ∧ (plugin_name cls = Some name -> length (d1 ++ d2) ≠ 1 ->
     from_config ext s cls (YDict (d1 ++ d2))
       = parsing (YDict (d1 ++ d2)) (create_with ext s cls (YStr name) (d1 ++ d2)))
  ∧ (d1 ++ d2 = [] ->
     from_config ext s cls (YStr name)
       = parsing (YStr name) (create_with ext s cls (YStr name) (d1 ++ d2))).
Proof.
  intros Hname Hplugin.
  assert (H1 : "plugin" ∉ d1.*1).
  { intros H. apply Hplugin. rewrite fmap_app. apply elem_of_app. now left. }
  split; [|split; [|split]].
  - unfold from_config. now rewrite (dict_get_middle _ _ _ _ H1), (dict_pop_middle _ _ _ _ H1).
  - unfold from_config. rewrite dict_get_cons.
    assert (E : String.eqb "plugin" name = false) by (apply String.eqb_neq; congruence).
    now rewrite E.
  - intros Hcls Hlen. unfold from_config.
    apply dict_get_None in Hplugin. rewrite Hplugin.
    apply Nat.eqb_neq in Hlen. now rewrite Hlen, Hcls.
  - intros ->. unfold from_config. now rewrite create_with_nothing.
Qed.

Lemma from_config_forms_witness :
  let arguments := [("path", YStr "halos.hdf5"); ("BoxSize", YScalar (SInt 250))] in
  from_config recorded loaded DataSource
    (YDict [("path", YStr "halos.hdf5"); ("plugin", YStr "FOFGroups");
            ("BoxSize", YScalar (SInt 250))])
    = Return ("FOFGroups", [("path", YStr "halos.hdf5"); ("BoxSize", YScalar (SFloat 250))])
  ∧ from_config recorded loaded DataSource (YDict [("FOFGroups", YDict arguments)])
    = Return ("FOFGroups", [("path", YStr "halos.hdf5"); ("BoxSize", YScalar (SFloat 250))]).
Proof.
  intros arguments.
  destruct (from_config_forms recorded loaded DataSource "FOFGroups"
              [("path", YStr "halos.hdf5")] [("BoxSize", YScalar (SInt 250))])
    as (H1 & H2 & _); [discriminate | |].
  - apply (proj1 (bool_decide_eq_false _)). vm_compute. reflexivity.
  - split; [exact (eq_trans H1 eq_refl) | exact (eq_trans H2 eq_refl)].
Defined.

(** What [from_config] refuses, and how: nothing but its own [ValueError]
    comes out of it, whatever the schema or the constructor raise; a
    value that is neither a mapping nor a string is refused; so is a
    mapping with one key other than [plugin] whose value is no mapping,
    also on the class of a plugin, where it would be the one argument of
    the plugin; and an extension point, which has no [plugin_name], refuses
    every mapping of arguments alone. *)
Theorem from_config_refusals ext s cls :
  (∀ parsed e, from_config ext s cls parsed = Fail e -> ∃ e', e = ValueError_parse parsed e')
  ∧ (∀ parsed, (∀ name, parsed ≠ YStr name) -> (∀ d, parsed ≠ YDict d) ->
       from_config ext s cls parsed = Fail (ValueError_parse parsed Exception_))
  ∧ (∀ k v, k ≠ "plugin" -> (∀ d, v ≠ YDict d) ->
       from_config ext s cls (YDict [(k, v)])
         = Fail (ValueError_parse (YDict [(k, v)]) Exception_))
  ∧ (plugin_name cls = None ->
     ∀ d, "plugin" ∉ d.*1 -> length d ≠ 1 ->
       from_config ext s cls (YDict d) = Fail (ValueError_parse (YDict d) Exception_)).
Proof.
  split; [|split; [|split]].
  - intros parsed e. unfold from_config, parsing.
    destruct (match parsed with YDict _ => _ | _ => _ end); [discriminate|].
    intros E. inversion E. eauto.
  - intros parsed Hs Hd. destruct parsed; try reflexivity.
    + now destruct (Hs s0).
    + now destruct (Hd d).
  - intros k v Hk Hv. unfold from_config. rewrite dict_get_cons.
    assert (E : String.eqb "plugin" k = false) by (apply String.eqb_neq; congruence).
    rewrite E. destruct v; try reflexivity. now destruct (Hv d).
  - intros Hcls d Hplugin Hlen. unfold from_config.
    apply dict_get_None in Hplugin. rewrite Hplugin.
    apply Nat.eqb_neq in Hlen. now rewrite Hlen, Hcls.
Qed.

Lemma from_config_refusals_witness :
  from_config recorded loaded finished (YDict [("path", YStr "halos.hdf5")])
    = Fail (ValueError_parse (YDict [("path", YStr "halos.hdf5")]) Exception_)
  ∧ from_config recorded loaded DataSource (YDict [])
    = Fail (ValueError_parse (YDict []) Exception_)
  ∧ from_config recorded loaded DataSource (YList [YStr "FOFGroups"])
    = Fail (ValueError_parse (YList [YStr "FOFGroups"]) Exception_).
Proof.
  destruct (from_config_refusals recorded loaded finished) as (_ & _ & Hone & _).
  destruct (from_config_refusals recorded loaded DataSource) as (_ & Hother & _ & Hpoint).
  split; [|split].
  - apply Hone; [discriminate | intros d; discriminate].
  - apply Hpoint; [reflexivity | | discriminate]. apply not_elem_of_nil.
  - apply Hother; intros x; discriminate.
Defined.


(** A plugin of another extension point: [isplugin] knows the name, since
    it looks through all four registries, but [create] on this extension
    point reports that no plugin of this name is loaded, and [format_help]
    for the name does not end with its own [ValueError] for an invalid
    name but with the [AttributeError] of the registry. *)
Theorem plugin_of_another_extension_point ext s cls name ns :
  is_Some (dict_get name (s ns)) ->
  dict_get name (s (registry cls)) = None ->
  isplugin s name = Some true
  ∧ (∀ use_schema kwargs,
       create ext s cls (YStr name) use_schema kwargs = Fail (ValueError_plugin (YStr name)))
  ∧ format_help ext s cls [name] = Fail (AttributeError_namespace name).
Proof.
  intros Hns Hown.
  assert (Hp : isplugin s name = Some true) by (apply isplugin_Some; eauto).
  split; [exact Hp|]. split.
  - intros use_schema kwargs. unfold create. simpl. rewrite Hown.
    now rewrite bool_decide_eq_false_2 by (intros [x Hx]; discriminate).
  - unfold format_help. simpl. now rewrite Hp, Hown.
Qed.

Lemma plugin_of_another_extension_point_witness :
  isplugin loaded "TSC" = Some true
  ∧ create recorded loaded DataSource (YStr "TSC") false [] = Fail (ValueError_plugin (YStr "TSC"))
  ∧ format_help recorded loaded DataSource ["TSC"] = Fail (AttributeError_namespace "TSC").
Proof.
  destruct (plugin_of_another_extension_point recorded loaded DataSource "TSC" painters)
    as (H1 & H2 & H3); [eexists; reflexivity | reflexivity |].
  split; [exact H1|]. split; [apply H2 | exact H3].
Defined.



Lemma dict_setitem_keys {V} (k : string) (v : V) d :
  is_Some (dict_get k d) -> (dict_setitem k v d).*1 = d.*1.
Proof.
  induction d as [|[k0 v0] d' IH]; simpl; [intros [x H]; discriminate|].
  destruct (String.eqb k k0) eqn:E; simpl.
  - apply String.eqb_eq in E. now subst.
  - intros H. f_equal. now apply IH.
Qed.

Lemma cast_all_spec ext klass : ∀ names kwargs kwargs',
  NoDup names ->
  cast_all ext klass names kwargs = Return kwargs' ->
  kwargs'.*1 = kwargs.*1
  ∧ ∀ k, dict_get k kwargs' =
         match dict_get k kwargs with
         | Some v =>
             if bool_decide (k ∈ names) then
               match schema ext klass k with
               | Some cast => match cast v with Return v' => Some v' | Fail _ => None end
               | None => Some v
               end
             else Some v
         | None => None
         end.
Proof.
  induction names as [|k0 names' IH]; intros kwargs kwargs' Hnd; simpl.
  - intros E. inversion E. subst. split; [reflexivity|]. intros k.
    now destruct (dict_get k _).
  - apply NoDup_cons in Hnd as [Hk0 Hnd].
    assert (Hskip : cast_all ext klass names' kwargs = Return kwargs' ->
              (schema ext klass k0 = None ∨ dict_get k0 kwargs = None) ->
              kwargs'.*1 = kwargs.*1
              ∧ ∀ k, dict_get k kwargs' =
                     match dict_get k kwargs with
                     | Some v =>
                         if bool_decide (k ∈ k0 :: names') then
                           match schema ext klass k with
                           | Some cast => match cast v with Return v' => Some v' | Fail _ => None end
                           | None => Some v
                           end
                         else Some v
                     | None => None
                     end).
    { intros E Hor. destruct (IH _ _ Hnd E) as [Hkeys Hvals]. split; [exact Hkeys|].
      intros k. rewrite Hvals. destruct (dict_get k kwargs) as [v|] eqn:Hv; [|reflexivity].
      destruct (decide (k = k0)) as [->|Hne].
      - rewrite bool_decide_eq_false_2 by exact Hk0.
        rewrite bool_decide_eq_true_2 by left.
        destruct Hor as [Hs|Hg]; [now rewrite Hs | congruence].
      - destruct (bool_decide (k ∈ names')) eqn:Hin.
        + apply bool_decide_eq_true in Hin. now rewrite bool_decide_eq_true_2 by (now right).
        + apply bool_decide_eq_false in Hin.
          rewrite bool_decide_eq_false_2; [reflexivity|].
          intros H. apply elem_of_cons in H as [H|H]; contradiction. }
    destruct (schema ext klass k0) as [cast|] eqn:Hs; [|intros E; apply Hskip; auto].
    destruct (dict_get k0 kwargs) as [v0|] eqn:Hg; [|intros E; apply Hskip; auto].
    simpl. destruct (cast v0) as [v0'|e] eqn:Hc; simpl; [|discriminate].
    intros E. destruct (IH _ _ Hnd E) as [Hkeys Hvals].
    split; [rewrite Hkeys; apply dict_setitem_keys; eauto|].
    intros k. rewrite Hvals, dict_get_setitem.
    destruct (decide (k = k0)) as [->|Hne].
    + rewrite String.eqb_refl, Hg. rewrite bool_decide_eq_false_2 by exact Hk0.
      rewrite bool_decide_eq_true_2 by left. now rewrite Hs, Hc.
    + apply String.eqb_neq in Hne as Hne'. rewrite Hne'.
      destruct (dict_get k kwargs) as [v|]; [|reflexivity].
      destruct (bool_decide (k ∈ names')) eqn:Hin.
      * apply bool_decide_eq_true in Hin. now rewrite bool_decide_eq_true_2 by (now right).
      * apply bool_decide_eq_false in Hin.
        rewrite bool_decide_eq_false_2; [reflexivity|].
        intros H. apply elem_of_cons in H as [H|H]; contradiction.
Qed.

(** What [create] hands to the constructor.  Without [use_schema] the
    keywords go to the constructor of the registered class as they are.
    With it, a plugin is only built when every cast succeeds, and the
    constructor then receives the same keywords in the same order, each
    value cast once when the schema knows the keyword and left as it is
    otherwise: casting adds no keyword and drops none. *)
Theorem create_casts ext s cls name klass kwargs :
  dict_get name (s (registry cls)) = Some klass ->
  NoDup kwargs.*1 ->
  create ext s cls (YStr name) false kwargs
    = (built ← call ext klass kwargs; Return (set_string ext built))
  ∧ ∀ toret, create ext s cls (YStr name) true kwargs = Return toret ->
      ∃ kwargs' built,
        call ext klass kwargs' = Return built
        ∧ toret = set_string ext built
        ∧ kwargs'.*1 = kwargs.*1
        ∧ ∀ k v, dict_get k kwargs = Some v ->
            match schema ext klass k with
            | Some cast => ∃ v', cast v = Return v' ∧ dict_get k kwargs' = Some v'
            | None => dict_get k kwargs' = Some v
            end.
Proof.
  intros Hk Hnd.
  assert (Hp : bool_decide (is_Some (dict_get name (s (registry cls)))) = true)
    by (apply bool_decide_eq_true_2; eauto).
  split.
  - unfold create. simpl. rewrite Hp, Hk. reflexivity.
  - intros toret. unfold create. simpl. rewrite Hp, Hk. simpl.
    destruct (cast_all ext klass kwargs.*1 kwargs) as [kwargs'|e] eqn:Hcast; simpl; [|discriminate].
    destruct (call ext klass kwargs') as [built|e] eqn:Hcall; simpl; [|discriminate].
    intros E. inversion E. subst toret.
    destruct (cast_all_spec ext klass _ _ _ Hnd Hcast) as [Hkeys Hvals].
    exists kwargs', built. split; [exact Hcall|]. split; [reflexivity|]. split; [exact Hkeys|].
    intros k v Hv. specialize (Hvals k). rewrite Hv in Hvals.
    assert (Hin : k ∈ kwargs.*1) by (apply dict_get_is_Some; eauto).
    rewrite bool_decide_eq_true_2 in Hvals by exact Hin.
    assert (Hsome : is_Some (dict_get k kwargs')).
    { apply dict_get_is_Some. now rewrite Hkeys. }
    destruct (schema ext klass k) as [cast|]; [|exact Hvals].
    destruct (cast v) as [v'|e]; [eauto|]. rewrite Hvals in Hsome. now destruct Hsome.
Qed.

Lemma create_casts_witness :
  let kwargs := [("BoxSize", YScalar (SInt 250)); ("path", YStr "halos.hdf5")] in
  ∃ kwargs' built,
    create recorded loaded DataSource (YStr "FOFGroups") true kwargs = Return built
    ∧ call recorded finished kwargs' = Return built
    ∧ kwargs'.*1 = ["BoxSize"; "path"]
    ∧ dict_get "BoxSize" kwargs' = Some (YScalar (SFloat 250))
    ∧ dict_get "path" kwargs' = Some (YStr "halos.hdf5").
Proof.
  intros kwargs.
  destruct (create_casts recorded loaded DataSource "FOFGroups" finished kwargs eq_refl)
    as [_ Hcast].
  { apply (bool_decide_unpack _). vm_compute. exact I. }
  destruct (Hcast ("FOFGroups", [("BoxSize", YScalar (SFloat 250)); ("path", YStr "halos.hdf5")])
              eq_refl) as (kwargs' & built & Hcall & Hset & Hkeys & Hvals).
  exists kwargs', built. split; [exact (f_equal Return Hset)|]. split; [exact Hcall|].
  split; [exact Hkeys|]. split.
  - destruct (Hvals "BoxSize" (YScalar (SInt 250)) eq_refl) as (v' & Hv' & Hget).
    inversion Hv'. subst v'. exact Hget.
  - exact (Hvals "path" (YStr "halos.hdf5") eq_refl).
Defined.
